(** * The macOS scanner of vuls: [parseSWVers] and [parseInstalledPackages]

    A shallow embedding of [scanner/macos.go].  Go strings are byte strings;
    they are modelled by [string], whose characters are the 256 byte values.
    The functions of the Go library that the two parsers call ([strings],
    [unicode/utf8], [unicode], [path/filepath], [bufio]) are embedded first,
    each under the Go code it follows; then come the two parsers, the
    vocabulary of the specification, the functions of [macos.go] that run
    commands on the host, and the properties. *)

From Stdlib Require Import NArith Ascii Lia.
From stdpp Require Import base option list gmap strings.

Local Open Scope N_scope.
Local Open Scope nat_scope.

(** ** Go strings: length, indexing and slicing *)

Module GoString.

(** [len(s)] *)
Definition len (s : string) : nat := String.length s.

(** [s[i:]] *)
Fixpoint sliceFrom (s : string) (i : nat) {struct i} : string :=
  match i, s with
  | 0, _ => s
  | S i', String _ s' => sliceFrom s' i'
  | S _, EmptyString => EmptyString
  end.

(** [s[:j]] *)
Fixpoint sliceTo (s : string) (j : nat) {struct j} : string :=
  match j, s with
  | S j', String c s' => String c (sliceTo s' j')
  | _, _ => EmptyString
  end.

(** [s[i:j]] *)
Definition slice (s : string) (i j : nat) : string :=
  sliceTo (sliceFrom s i) (j - i).

(** [s[i]], as the value of the byte; 0 out of range (the callers below
    index only in range). *)
Definition byteAt (s : string) (i : nat) : N :=
  match sliceFrom s i with
  | String c _ => N_of_ascii c
  | EmptyString => 0%N
  end.

(** [strings.Repeat(string(c), n)] *)
Fixpoint repeatByte (c : ascii) (n : nat) : string :=
  match n with
  | 0 => EmptyString
  | S n' => String c (repeatByte c n')
  end.

End GoString.
Import GoString.

(** ** Package [unicode/utf8]: decoding one rune

    Runes are modelled by [N]. *)

Module utf8.

Definition RuneError : N := 0xFFFD.
Definition RuneSelf : N := 0x80.
Definition UTFMax : nat := 4.

Definition locb : N := 0x80.
Definition hicb : N := 0xBF.
Definition maskx : N := 0x3F.
Definition mask2 : N := 0x1F.
Definition mask3 : N := 0x0F.
Definition mask4 : N := 0x07.

(** The table [first] joined with [acceptRanges], for a leading byte
    [>= RuneSelf]: the length of the sequence and the range accepted for
    its second byte; [None] stands for the entry [xx] (invalid byte). *)
Definition first (b : N) : option (nat * (N * N)) :=
  if (b <? 0xC2)%N then None
  else if (b <=? 0xDF)%N then Some (2, (locb, hicb))
  else if (b =? 0xE0)%N then Some (3, (0xA0%N, hicb))
  else if (b <=? 0xEC)%N then Some (3, (locb, hicb))
  else if (b =? 0xED)%N then Some (3, (locb, 0x9F%N))
  else if (b <=? 0xEF)%N then Some (3, (locb, hicb))
  else if (b =? 0xF0)%N then Some (4, (0x90%N, hicb))
  else if (b <=? 0xF3)%N then Some (4, (locb, hicb))
  else if (b =? 0xF4)%N then Some (4, (locb, 0x8F%N))
  else None.

Definition outside (b lo hi : N) : bool := (b <? lo)%N || (hi <? b)%N.

(** [func DecodeRuneInString(s string) (rune, int)] *)
Definition DecodeRuneInString (s : string) : N * nat :=
  let n := len s in
  if n <? 1 then (RuneError, 0)
  else
    let s0 := byteAt s 0 in
    if (s0 <? RuneSelf)%N then (s0, 1)
    else match first s0 with
         | None => (RuneError, 1)
         | Some (sz, (lo, hi)) =>
           if n <? sz then (RuneError, 1)
           else
             let s1 := byteAt s 1 in
             if outside s1 lo hi then (RuneError, 1)
             else if sz <=? 2 then
               (N.lor (N.shiftl (N.land s0 mask2) 6) (N.land s1 maskx), 2)
             else
               let s2 := byteAt s 2 in
               if outside s2 locb hicb then (RuneError, 1)
               else if sz <=? 3 then
                 (N.lor (N.lor (N.shiftl (N.land s0 mask3) 12)
                               (N.shiftl (N.land s1 maskx) 6))
                        (N.land s2 maskx), 3)
               else
                 let s3 := byteAt s 3 in
                 if outside s3 locb hicb then (RuneError, 1)
                 else
                   (N.lor (N.lor (N.lor (N.shiftl (N.land s0 mask4) 18)
                                        (N.shiftl (N.land s1 maskx) 12))
                                 (N.shiftl (N.land s2 maskx) 6))
                          (N.land s3 maskx), 4)
         end.

(** [func RuneStart(b byte) bool { return b&0xC0 != 0x80 }] *)
Definition RuneStart (b : N) : bool := negb (N.land b 0xC0 =? 0x80)%N.

(** The loop [for start--; start >= lim; start-- { if RuneStart(s[start])
    { break } }] of [DecodeLastRuneInString], entered after [start--]; the
    index may fall to [-1], hence [Z]. *)
Fixpoint backToRuneStart (fuel : nat) (s : string) (start lim : Z) : Z :=
  match fuel with
  | 0 => start
  | S fuel' =>
    if (start <? lim)%Z then start
    else if RuneStart (byteAt s (Z.to_nat start)) then start
    else backToRuneStart fuel' s (start - 1)%Z lim
  end.

(** [func DecodeLastRuneInString(s string) (rune, int)] *)
Definition DecodeLastRuneInString (s : string) : N * nat :=
  let end_ := len s in
  if end_ =? 0 then (RuneError, 0)
  else
    let r := byteAt s (end_ - 1) in
    if (r <? RuneSelf)%N then (r, 1)
    else
      let lim := Z.max 0 (Z.of_nat end_ - Z.of_nat UTFMax) in
      let start := backToRuneStart UTFMax s (Z.of_nat end_ - 2)%Z lim in
      let start := Z.to_nat (Z.max 0 start) in
      let '(r, size) := DecodeRuneInString (slice s start end_) in
      if start + size =? end_ then (r, size) else (RuneError, 1).

End utf8.

(** ** Package [unicode] *)

Module unicode.

Definition MaxLatin1 : N := 0xFF.

Definition among (r : N) (l : list N) : bool := existsb (N.eqb r) l.
Definition between (lo hi r : N) : bool := (lo <=? r)%N && (r <=? hi)%N.

(** [func IsSpace(r rune) bool]: the Latin-1 switch, then the range table
    [White_Space] above Latin-1. *)
Definition IsSpace (r : N) : bool :=
  if (r <=? MaxLatin1)%N then
    among r [0x09; 0x0A; 0x0B; 0x0C; 0x0D; 0x20; 0x85; 0xA0]%N
  else
    among r [0x1680; 0x202F; 0x205F; 0x3000]%N
    || between 0x2000 0x200A r || between 0x2028 0x2029 r.

End unicode.

(** ** Package [strings] *)

Module strings.

(** [func HasPrefix(s, prefix string) bool]:
    [len(s) >= len(prefix) && s[:len(prefix)] == prefix] *)
Definition HasPrefix (s prefix : string) : bool :=
  (len prefix <=? len s) && String.eqb (sliceTo s (len prefix)) prefix.

(** [func HasSuffix(s, suffix string) bool]:
    [len(s) >= len(suffix) && s[len(s)-len(suffix):] == suffix] *)
Definition HasSuffix (s suffix : string) : bool :=
  (len suffix <=? len s) && String.eqb (sliceFrom s (len s - len suffix)) suffix.

(** [func TrimPrefix(s, prefix string) string] *)
Definition TrimPrefix (s prefix : string) : string :=
  if HasPrefix s prefix then sliceFrom s (len prefix) else s.

(** [func TrimSuffix(s, suffix string) string] *)
Definition TrimSuffix (s suffix : string) : string :=
  if HasSuffix s suffix then sliceTo s (len s - len suffix) else s.

(** [func Index(s, substr string) int], with [None] for [-1]: the least
    [i] at which [substr] starts. *)
Fixpoint Index (s substr : string) : option nat :=
  if HasPrefix s substr then Some 0
  else match s with
       | EmptyString => None
       | String _ s' => S <$> Index s' substr
       end.

(** [func Cut(s, sep string) (before, after string, found bool)] *)
Definition Cut (s sep : string) : string * string * bool :=
  match Index s sep with
  | Some i => (sliceTo s i, sliceFrom s (i + len sep), true)
  | None => (s, EmptyString, false)
  end.

(** [indexFunc(s, f, truth)]: [for i, r := range s { if f(r) == truth
    { return i } }; return -1].  The range loop decodes as
    [DecodeRuneInString] does; [i] is the index it has reached. *)
Fixpoint indexFunc_from (fuel : nat) (s : string) (f : N -> bool)
    (truth : bool) (i : nat) : option nat :=
  match fuel with
  | 0 => None
  | S fuel' =>
    if len s <=? i then None
    else
      let '(r, size) := utf8.DecodeRuneInString (sliceFrom s i) in
      if Bool.eqb (f r) truth then Some i
      else indexFunc_from fuel' s f truth (i + size)
  end.

Definition indexFunc (s : string) (f : N -> bool) (truth : bool) : option nat :=
  indexFunc_from (S (len s)) s f truth 0.

(** [lastIndexFunc(s, f, truth)]: [for i := len(s); i > 0; { r, size :=
    utf8.DecodeLastRuneInString(s[0:i]); i -= size; if f(r) == truth
    { return i } }; return -1] *)
Fixpoint lastIndexFunc_from (fuel : nat) (s : string) (f : N -> bool)
    (truth : bool) (i : nat) : option nat :=
  match fuel with
  | 0 => None
  | S fuel' =>
    if i =? 0 then None
    else
      let '(r, size) := utf8.DecodeLastRuneInString (slice s 0 i) in
      let i := i - size in
      if Bool.eqb (f r) truth then Some i
      else lastIndexFunc_from fuel' s f truth i
  end.

Definition lastIndexFunc (s : string) (f : N -> bool) (truth : bool) : option nat :=
  lastIndexFunc_from (S (len s)) s f truth (len s).

(** [func TrimLeftFunc(s string, f func(rune) bool) string] *)
Definition TrimLeftFunc (s : string) (f : N -> bool) : string :=
  match indexFunc s f false with
  | None => EmptyString
  | Some i => sliceFrom s i
  end.

(** [func TrimRightFunc(s string, f func(rune) bool) string] *)
Definition TrimRightFunc (s : string) (f : N -> bool) : string :=
  match lastIndexFunc s f false with
  | Some i =>
    if (utf8.RuneSelf <=? byteAt s i)%N then
      let '(_, wid) := utf8.DecodeRuneInString (sliceFrom s i) in
      slice s 0 (i + wid)
    else slice s 0 (S i)
  | None => slice s 0 0
  end.

(** [func TrimFunc(s string, f func(rune) bool) string] *)
Definition TrimFunc (s : string) (f : N -> bool) : string :=
  TrimRightFunc (TrimLeftFunc s f) f.

(** The table [asciiSpace]. *)
Definition asciiSpace (c : N) : bool :=
  unicode.among c [0x09; 0x0A; 0x0B; 0x0C; 0x0D; 0x20]%N.

(** What stops one of the two loops of [TrimSpace]: the loop condition or
    [break] at an index, or a byte [>= utf8.RuneSelf] at an index. *)
Inductive stop_at : Type :=
| Plain (i : nat)
| NonASCII (i : nat).

(** [for ; start < len(s); start++ { c := s[start]; if c >= utf8.RuneSelf
    { return ... }; if asciiSpace[c] == 0 { break } }] *)
Fixpoint TrimSpace_start (fuel : nat) (s : string) (start : nat) : stop_at :=
  match fuel with
  | 0 => Plain start
  | S fuel' =>
    if len s <=? start then Plain start
    else
      let c := byteAt s start in
      if (utf8.RuneSelf <=? c)%N then NonASCII start
      else if asciiSpace c then TrimSpace_start fuel' s (S start)
      else Plain start
  end.

(** [for ; stop > start; stop-- { c := s[stop-1]; if c >= utf8.RuneSelf
    { return ... }; if asciiSpace[c] == 0 { break } }] *)
Fixpoint TrimSpace_stop (fuel : nat) (s : string) (start stop : nat) : stop_at :=
  match fuel with
  | 0 => Plain stop
  | S fuel' =>
    if stop <=? start then Plain stop
    else
      let c := byteAt s (stop - 1) in
      if (utf8.RuneSelf <=? c)%N then NonASCII stop
      else if asciiSpace c then TrimSpace_stop fuel' s start (stop - 1)
      else Plain stop
  end.

Definition index_of (stop : stop_at) : nat :=
  match stop with
  | Plain i => i
  | NonASCII i => i
  end.

(** [func TrimSpace(s string) string] *)
Definition TrimSpace (s : string) : string :=
  match TrimSpace_start (S (len s)) s 0 with
  | NonASCII start => TrimFunc (sliceFrom s start) unicode.IsSpace
  | Plain start =>
    match TrimSpace_stop (S (len s)) s start (len s) with
    | NonASCII stop => TrimRightFunc (slice s start stop) unicode.IsSpace
    | Plain stop => slice s start stop
    end
  end.

End strings.

(** ** Package [path/filepath] (Unix: the separator is [/], there is no
    volume name) *)

Module filepath.

Definition Separator : ascii := "/"%char.

(** [os.IsPathSeparator] *)
Definition IsPathSeparator (c : ascii) : bool := Ascii.eqb c Separator.

(** [for len(path) > 0 && os.IsPathSeparator(path[len(path)-1])
    { path = path[0 : len(path)-1] }] *)
Fixpoint stripTrailingSeparators (path : string) : string :=
  match path with
  | EmptyString => EmptyString
  | String c rest =>
    match stripTrailingSeparators rest with
    | EmptyString => if IsPathSeparator c then EmptyString else String c EmptyString
    | String _ _ as rest' => String c rest'
    end
  end.

(** [i := len(path) - 1; for i >= 0 && !os.IsPathSeparator(path[i]) { i-- };
    if i >= 0 { path = path[i+1:] }]: what follows the last separator.
    [elem] is what follows the last separator met so far (all of the path
    before one is met). *)
Fixpoint lastElement_from (elem path : string) : string :=
  match path with
  | EmptyString => elem
  | String c rest =>
    if IsPathSeparator c then lastElement_from rest rest
    else lastElement_from elem rest
  end.

Definition lastElement (path : string) : string := lastElement_from path path.

(** [func Base(path string) string] *)
Definition Base (path : string) : string :=
  if String.eqb path "" then "."
  else
    let path := lastElement (stripTrailingSeparators path) in
    if String.eqb path "" then String Separator EmptyString
    else path.

End filepath.

(** ** Package [bufio]: a [Scanner] with the split function [ScanLines],
    its default, over a reader of an in-memory string *)

Module bufio.

(** [MaxScanTokenSize = 64 * 1024], the size the buffer of a [Scanner]
    grows to. *)
Definition MaxScanTokenSize : nat := 64 * 1024.

(** The errors [Scanner.Err] can report when reading a string:
    [ErrTooLong] only ([io.EOF] is not reported). *)
Inductive scanError : Type := ErrTooLong.

Definition newline : ascii := "010"%char.

(** [func dropCR(data []byte) []byte] *)
Definition dropCR (data : string) : string :=
  if (0 <? len data) && (byteAt data (len data - 1) =? 13)%N
  then slice data 0 (len data - 1)
  else data.

(** The input cut at every newline: [ScanLines] looks for
    [bytes.IndexByte(data, '\n')] in the unread input.  There is always a
    last piece, the one no newline ends. *)
Fixpoint pieces (input : string) : list string :=
  match input with
  | EmptyString => [EmptyString]
  | String c rest =>
    match pieces rest with
    | [] => [String c EmptyString]
    | l :: ls => if Ascii.eqb c newline then EmptyString :: l :: ls
                 else String c l :: ls
    end
  end.

(** [ScanLines] at the end of the input: [if atEOF && len(data) == 0
    { return 0, nil, nil }], no token for an empty last piece. *)
Fixpoint rawLines_of (ps : list string) : list string :=
  match ps with
  | [] => []
  | [l] => if String.eqb l "" then [] else [l]
  | l :: ls => l :: rawLines_of ls
  end.

(** The lines of a text, before [dropCR]. *)
Definition rawLines (input : string) : list string := rawLines_of (pieces input).

(** The lines of a text as [ScanLines] cuts them. *)
Definition textLines (input : string) : list string := dropCR <$> rawLines input.

(** [Scanner.Scan], repeated until it returns false: the tokens handed
    out, and [Scanner.Err()] afterwards.  [Scan] reads into a buffer that
    it doubles, up to [maxTokenSize = MaxScanTokenSize], while the split
    function finds no token in it; when the buffer is full at that size,
    [if len(s.buf) >= s.maxTokenSize ... { s.setErr(ErrTooLong); return
    false }].  A line fits with its newline, and a last line with the room
    for the read that finds the end of the input, when it has fewer than
    [MaxScanTokenSize] bytes; at a longer line scanning stops for good. *)
Fixpoint deliver (ls : list string) : list string * option scanError :=
  match ls with
  | [] => ([], None)
  | l :: ls' =>
    if MaxScanTokenSize <=? len l then ([], Some ErrTooLong)
    else let '(ts, e) := deliver ls' in (dropCR l :: ts, e)
  end.

Definition scanLines (input : string) : list string * option scanError :=
  deliver (rawLines input).

End bufio.

(** ** Errors

    The values [xerrors.Errorf] and [xerrors.New] build in [macos.go], one
    constructor for each call, and their [Error()] text. *)

Module xerrors.

Inductive error : Type :=
| FailedToScan (err : bufio.scanError)
| UnexpectedProductName (name : string)
| ProductVersionIsEmpty
| UnexpectedLine (t : string)
| UnexpectedLineTag (lhs : string).

Definition quote : string := String "034"%char EmptyString.

(** [bufio.ErrTooLong = errors.New("bufio.Scanner: token too long")] *)
Definition scanErrorText (err : bufio.scanError) : string :=
  match err with
  | bufio.ErrTooLong => "bufio.Scanner: token too long"
  end.

Definition Error (e : error) : string :=
  match e with
  | FailedToScan err =>
    "Failed to scan by the scanner. err: " +:+ scanErrorText err
  | UnexpectedProductName name =>
    "Failed to detect MacOS Family. err: " +:+ quote +:+ name +:+ quote
      +:+ " is unexpected product name"
  | ProductVersionIsEmpty =>
    "Failed to get ProductVersion string. err: ProductVersion is empty"
  | UnexpectedLine t =>
    "unexpected installed packages line. expected: " +:+ quote
      +:+ "<TAG>: <VALUE>" +:+ quote +:+ ", actual: " +:+ quote +:+ t +:+ quote
  | UnexpectedLineTag lhs =>
    "unexpected installed packages line tag. expected: [" +:+ quote
      +:+ "Info.plist" +:+ quote +:+ ", " +:+ quote
      +:+ "CFBundleShortVersionString" +:+ quote +:+ "], actual: " +:+ quote
      +:+ lhs +:+ quote
  end.

End xerrors.

(** ** Package [models]

    Modelled from the spec: the structs [models.Package] and
    [models.SrcPackage] are declared outside [scanner/]; [macos.go] sets the
    fields [Name] and [Version] of a [Package] and leaves the others at their
    zero value, and it builds no [SrcPackage]. *)

Module models.

Record Package : Type := { Name : string; Version : string }.

Record SrcPackage : Type := { SrcName : string; SrcVersion : string }.

End models.

(** ** [scanner/macos.go] *)

Module macos.

Import strings xerrors models.

Section parseSWVers.

(** Modelled from the spec: [constant.MacOSX], [constant.MacOSXServer],
    [constant.MacOS] and [constant.MacOSServer], the family identifiers
    of package [constant], are declared outside [scanner/]; they are
    taken as parameters. *)
Variables MacOSX MacOSXServer MacOS MacOSServer : string.

(** The body of [for scanner.Scan()], on the variables [name] and
    [version]. *)
Definition scanSWVers (vars : string * string) (t : string) : string * string :=
  let '(name, version) := vars in
  if HasPrefix t "ProductName:" then
    (TrimSpace (TrimPrefix t "ProductName:"), version)
  else if HasPrefix t "ProductVersion:" then
    (name, TrimSpace (TrimPrefix t "ProductVersion:"))
  else (name, version).

(** [switch name], with [None] for its [default]. *)
Definition switchName (name : string) : option string :=
  if String.eqb name "Mac OS X" then Some MacOSX
  else if String.eqb name "Mac OS X Server" then Some MacOSXServer
  else if String.eqb name "macOS" then Some MacOS
  else if String.eqb name "macOS Server" then Some MacOSServer
  else None.

(** [func parseSWVers(stdout string) (string, string, error)] *)
Definition parseSWVers (stdout : string) : string * string * option error :=
  let '(tokens, scanErr) := bufio.scanLines stdout in
  let '(name, version) := foldl scanSWVers (EmptyString, EmptyString) tokens in
  match scanErr with
  | Some err => (EmptyString, EmptyString, Some (FailedToScan err))
  | None =>
    match switchName name with
    | None => (EmptyString, EmptyString, Some (UnexpectedProductName name))
    | Some family =>
      if String.eqb version "" then
        (EmptyString, EmptyString, Some ProductVersionIsEmpty)
      else (family, version, None)
    end
  end.

End parseSWVers.

(** The variables [pkgs], [p] and [v] of [parseInstalledPackages]. *)
Definition vars : Type := gmap string Package * string * string.

Definition vars0 : vars := (∅, EmptyString, EmptyString).

(** [if p != "" { n := filepath.Base(strings.TrimSuffix(p,
    ".app/Contents/Info.plist")); pkgs[n] = models.Package{Name: n,
    Version: v} }], at a blank line and after the loop. *)
Definition store (pkgs : gmap string Package) (p v : string) : gmap string Package :=
  if String.eqb p "" then pkgs
  else
    let n := filepath.Base (TrimSuffix p ".app/Contents/Info.plist") in
    <[n := {| Name := n; Version := v |}]> pkgs.

(** The body of [for scanner.Scan()]; [inl] is a [return nil, nil, err]
    from inside the loop. *)
Definition scanPackage (st : vars) (t : string) : error + vars :=
  let '(pkgs, p, v) := st in
  if String.eqb t "" then inr (store pkgs p v, EmptyString, EmptyString)
  else
    let '(lhs, rhs, ok) := Cut t ":" in
    if negb ok then inl (UnexpectedLine t)
    else if String.eqb lhs "Info.plist" then inr (pkgs, TrimSpace rhs, v)
    else if String.eqb lhs "CFBundleShortVersionString" then
      let v := TrimSpace rhs in
      if HasSuffix v "error: No value at that key path or invalid key path: CFBundleShortVersionString"
      then inr (pkgs, p, EmptyString)
      else inr (pkgs, p, v)
    else inl (UnexpectedLineTag lhs).

Fixpoint scanPackages (st : vars) (tokens : list string) : error + vars :=
  match tokens with
  | [] => inr st
  | t :: tokens' =>
    match scanPackage st t with
    | inl err => inl err
    | inr st' => scanPackages st' tokens'
    end
  end.

(** [func (o *macos) parseInstalledPackages(stdout string)
    (models.Packages, models.SrcPackages, error)]; [None] is a [nil] map
    and a [nil] error.  The receiver is not used. *)
Definition parseInstalledPackages (stdout : string)
    : option (gmap string Package) * option (gmap string SrcPackage) * option error :=
  let '(tokens, scanErr) := bufio.scanLines stdout in
  match scanPackages vars0 tokens with
  | inl err => (None, None, Some err)
  | inr (pkgs, p, v) =>
    let pkgs := store pkgs p v in
    match scanErr with
    | Some err => (None, None, Some (FailedToScan err))
    | None => (Some pkgs, None, None)
    end
  end.

End macos.

(** ** The vocabulary of the specification

    What the specification says of a text, of a line and of a block of lines,
    written independently of the loops of the two parsers. *)

Module Spec.

Import strings models.

(** Whether a byte occurs in a string. *)
Fixpoint hasByte (c : ascii) (s : string) : bool :=
  match s with
  | EmptyString => false
  | String d s' => Ascii.eqb d c || hasByte c s'
  end.

(** What precedes the first occurrence of a byte (all of the string when
    there is none), and what follows it. *)
Fixpoint before (c : ascii) (s : string) : string :=
  match s with
  | EmptyString => EmptyString
  | String d s' => if Ascii.eqb d c then EmptyString else String d (before c s')
  end.

Fixpoint after (c : ascii) (s : string) : string :=
  match s with
  | EmptyString => EmptyString
  | String d s' => if Ascii.eqb d c then s' else after c s'
  end.

(** The bytes of a string, one after the other. *)
Fixpoint chars (s : string) : list ascii :=
  match s with
  | EmptyString => []
  | String c s' => c :: chars s'
  end.

(** The bytes [TrimSpace] can strip: the six ASCII spaces, and the bytes of
    the runes outside ASCII. *)
Definition strippable (b : N) : bool :=
  asciiSpace b || (utf8.RuneSelf <=? b)%N.

(** [l'] is [l] less some bytes at its two ends, all of them strippable. *)
Definition stripped (l l' : list ascii) : Prop :=
  ∃ a b, l = a ++ l' ++ b
    ∧ Forall (λ c, strippable (N_of_ascii c) = true) a
    ∧ Forall (λ c, strippable (N_of_ascii c) = true) b.

(** How many times a byte occurs in a string. *)
Definition countByte (c : ascii) (s : string) : nat :=
  length (filter (λ d, d = c) (chars s)).

(** *** The version report *)

Definition productNameKey : string := "ProductName:".
Definition productVersionKey : string := "ProductVersion:".

(** The four recognized product-name literals. *)
Definition productNames : list string :=
  ["Mac OS X"; "Mac OS X Server"; "macOS"; "macOS Server"].

(** The family each literal maps to. *)
Definition productFamilies (MacOSX MacOSXServer MacOS MacOSServer : string)
    : list (string * string) :=
  [("Mac OS X", MacOSX); ("Mac OS X Server", MacOSXServer);
   ("macOS", MacOS); ("macOS Server", MacOSServer)].

(** The last-seen value of a key: the trimmed remainder of the last line
    that starts with the key, the empty string when no line does. *)
Definition lastValue (key : string) (lines : list string) : string :=
  match last (filter (λ t, HasPrefix t key = true) lines) with
  | Some t => TrimSpace (TrimPrefix t key)
  | None => EmptyString
  end.

(** *** The metadata listing *)

Definition pathLabel : string := "Info.plist".
Definition versionLabel : string := "CFBundleShortVersionString".

(** The sentinel of the specification, and the suffix [macos.go] tests for. *)
Definition sentinel : string :=
  "Could not extract value, error: No value at that key path or invalid key path: CFBundleShortVersionString".
Definition noValueSuffix : string :=
  "error: No value at that key path or invalid key path: CFBundleShortVersionString".

(** The suffix that denotes the metadata file of a bundle. *)
Definition metadataSuffix : string := ".app/Contents/Info.plist".

Definition colon : ascii := ":"%char.
Definition slash : ascii := "/"%char.

(** The tag of a line, before its first colon, and its value, after it. *)
Definition tagOf (t : string) : string := before colon t.
Definition valueOf (t : string) : string := after colon t.

(** A line with a colon whose tag is the label. *)
Definition labelled (label t : string) : bool :=
  hasByte colon t && String.eqb (tagOf t) label.

(** A line the inventory parser accepts: blank, or labelled with one of the
    two labels. *)
Definition accepted (t : string) : bool :=
  String.eqb t "" || labelled pathLabel t || labelled versionLabel t.

(** A blank line of a text: empty, or a lone carriage return. *)
Definition blankLine (l : string) : bool :=
  String.eqb l "" || String.eqb l (String "013"%char EmptyString).

(** The blocks of a listing: the runs of lines between blank lines. *)
Fixpoint blocks (lines : list string) : list (list string) :=
  match lines with
  | [] => [[]]
  | t :: lines' =>
    match blocks lines' with
    | [] => [[t]]
    | b :: bs => if String.eqb t "" then [] :: b :: bs else (t :: b) :: bs
    end
  end.

(** The value a block gives a label: the trimmed value of its last line with
    that label, the empty string when it has none. *)
Definition blockValue (label : string) (block : list string) : string :=
  match last (filter (λ t, labelled label t = true) block) with
  | Some t => TrimSpace (valueOf t)
  | None => EmptyString
  end.

(** The name a path resolves to. *)
Definition derivedName (path : string) : string :=
  filepath.Base (TrimSuffix path metadataSuffix).

(** The version of a block: its value for the version label, with the
    no-value rule. *)
Definition blockVersion (block : list string) : string :=
  let v := blockValue versionLabel block in
  if HasSuffix v noValueSuffix then EmptyString else v.

(** The record of a block, if it has a path. *)
Definition blockRecord (block : list string) : option Package :=
  let path := blockValue pathLabel block in
  if String.eqb path "" then None
  else Some {| Name := derivedName path; Version := blockVersion block |}.

(** The records of a listing, in scan order. *)
Definition records (lines : list string) : list Package :=
  omap blockRecord (blocks lines).

(** The records one after the other into a map keyed by name. *)
Definition inventory (rs : list Package) : gmap string Package :=
  foldl (λ m r, <[Name r := r]> m) ∅ rs.

End Spec.

(** ** Sample texts: the cases of [macos_test.go], and texts with a line of
    [bufio.MaxScanTokenSize] bytes *)

Module Samples.

Definition nl : string := String bufio.newline EmptyString.
Definition tab : string := String "009"%char EmptyString.

Definition sw_vers (name version build : string) : string :=
  "ProductName:" +:+ tab +:+ tab +:+ name +:+ nl
  +:+ "ProductVersion:" +:+ tab +:+ tab +:+ version +:+ nl
  +:+ "BuildVersion:" +:+ tab +:+ tab +:+ build.

(** A line of [bufio.MaxScanTokenSize] bytes, and a version report followed
    by such a line. *)
Definition longLine : string := repeatByte "x"%char bufio.MaxScanTokenSize.

Definition sw_vers_long (name version build : string) : string :=
  sw_vers name version build +:+ nl +:+ longLine.

Definition block (path version : string) : string :=
  "Info.plist: " +:+ path +:+ nl
  +:+ "CFBundleShortVersionString: " +:+ version +:+ tab.

Definition contactsPath : string :=
  "/System/Applications/Contacts.app/Contents/Info.plist".

Definition happy : string :=
  block "/Applications/Visual Studio Code.app/Contents/Info.plist" "1.80.1"
  +:+ nl +:+ nl
  +:+ block "/Applications/Safari.app/Contents/Info.plist" "16.5.1"
  +:+ nl +:+ nl
  +:+ block "/Applications/Firefox.app/Contents/Info.plist" "115.0.2"
  +:+ nl +:+ nl
  +:+ block "/Applications/Slack.app/Contents/Info.plist" "4.33.73"
  +:+ nl +:+ nl
  +:+ block contactsPath
        (contactsPath +:+ ": Could not extract value, error: No value at that key path or invalid key path: CFBundleShortVersionString").

Definition happyInventory : gmap string models.Package :=
  <["Contacts" := models.Build_Package "Contacts" ""]>
  (<["Slack" := models.Build_Package "Slack" "4.33.73"]>
  (<["Firefox" := models.Build_Package "Firefox" "115.0.2"]>
  (<["Safari" := models.Build_Package "Safari" "16.5.1"]>
  (<["Visual Studio Code" := models.Build_Package "Visual Studio Code" "1.80.1"]> ∅)))).

(** The lines of [happy] before the version line of Contacts, and that
    line. *)
Definition happyBefore : list string := take 13 (bufio.textLines happy).

Definition contactsVersionLine : string :=
  "CFBundleShortVersionString: " +:+ contactsPath
  +:+ ": Could not extract value, error: No value at that key path or invalid key path: CFBundleShortVersionString"
  +:+ tab.

(** Two bundles of the same name. *)
Definition twice : string :=
  block "/Applications/Safari.app/Contents/Info.plist" "16.5.1"
  +:+ nl +:+ nl
  +:+ block "/System/Applications/Safari.app/Contents/Info.plist" "17.0".

Definition safari (version : string) : models.Package :=
  models.Build_Package "Safari" version.

(** The same, followed by the block of a bundle whose path line is longer
    than [bufio.MaxScanTokenSize]. *)
Definition twice_long : string :=
  twice +:+ nl +:+ nl
  +:+ "Info.plist: /Applications/" +:+ longLine +:+ ".app/Contents/Info.plist".

(** A path line alone, a line that has no colon after accepted lines, and
    a line with a tag that is no label. *)
Definition pathOnly : string :=
  "Info.plist: /Applications/Safari.app/Contents/Info.plist".

Definition noColon : string := happy +:+ nl +:+ nl +:+ "Safari 16.5.1" +:+ nl +:+ pathOnly.

Definition otherTag : string := pathOnly +:+ nl +:+ "CFBundleVersion: 18615.2.9" +:+ nl.

(** A line that has no colon after a path line longer than
    [bufio.MaxScanTokenSize]. *)
Definition noColon_long : string :=
  "Info.plist: /Applications/" +:+ longLine +:+ ".app/Contents/Info.plist"
  +:+ nl +:+ "Safari 16.5.1".

(** Blank lines, one of them ended by a carriage return and a newline. *)
Definition blanks : string := nl +:+ String "013"%char nl +:+ nl.

End Samples.

(** ** Further vocabulary: the lines that count *)

Module Lines.

Import strings Spec.

(** The last line of a report that starts with a key. *)
Definition lastLine (key : string) (lines : list string) : option string :=
  last (filter (λ t, HasPrefix t key = true) lines).

(** The last line of a block that carries a label. *)
Definition lastLabelled (label : string) (block : list string) : option string :=
  last (filter (λ t, labelled label t = true) block).

(** A line labelled with one of the two labels. *)
Definition labelledLine (t : string) : bool :=
  labelled pathLabel t || labelled versionLabel t.

(** The no-value rule on a trimmed version. *)
Definition noValue (v : string) : string :=
  if HasSuffix v noValueSuffix then EmptyString else v.

(** The first and the last byte of a string. *)
Definition firstByte (s : string) : option ascii := head (chars s).
Definition lastByte (s : string) : option ascii := last (chars s).

(** Whether a byte, if there is one, is one of the six ASCII spaces. *)
Definition spaceAt (c : option ascii) : bool :=
  match c with
  | Some c => asciiSpace (N_of_ascii c)
  | None => false
  end.

(** A string that neither begins nor ends with one of the six ASCII
    spaces. *)
Definition trimmed (s : string) : bool :=
  negb (spaceAt (firstByte s)) && negb (spaceAt (lastByte s)).

(** The state of a host after commands have been run on it one after the
    other. *)
Definition runAll {R H : Type} (exec : string → H → R * H) (cmds : list string)
    (h : H) : H :=
  foldl (λ h cmd, (exec cmd h).2) h cmds.

End Lines.

(** ** [scanner/macos.go]: the functions that run commands on the host

    Modelled from the spec: the command executor ([exec], [o.exec], the type
    [execResult] with its field [Stdout] and its method [isSuccess]), the
    methods [runningKernel] and [parseIfconfig] of [base], [config.ServerInfo]
    and the logger are declared outside [scanner/macos.go]; they are taken
    as parameters.  A command acts on the host and need not be answered the
    same way twice, so [exec] threads the state of the host.  Every call of
    [macos.go] passes [noSudo], which is left out. *)

Module scanner.

Import strings models.

(** Modelled from the spec: [models.Kernel] is declared outside
    [scanner/]; [macos.go] sets its two fields [Release] and [Version]. *)
Record Kernel : Type := { Release : string; Version : string }.

Section host.

Variable execResult : Type.
Variable isSuccess : execResult → bool.
Variable Stdout : execResult → string.

Variable Host : Type.
Variable exec : string → Host → execResult * Host.

(** [o.runningKernel()], with the type of the errors it returns, and
    [o.parseIfconfig(stdout)]. *)
Variable kernelError : Type.
Variable runningKernel : Host → string * string * option kernelError * Host.
Variable parseIfconfig : string → list string * list string.

(** [config.ServerInfo], and the type of its field [Mode]. *)
Variable ServerInfo : Type.
Variable ScanMode : Type.

Variables MacOSX MacOSXServer MacOS MacOSServer : string.

(** The errors these functions build or pass on, one constructor for each
    [xerrors.Errorf] and for the [return err] of [scanPackages]. *)
Inductive error : Type :=
| FailedToParseSWVers (err : xerrors.error)
| FailedToDetectIPAddress (r : execResult)
| FailedToParseIfconfig (err : error)
| RunningKernel (err : kernelError)
| FailedToScanInstalledPackages (err : error)
| FailedToExec (r : execResult)
| FailedToScan (err : bufio.scanError).

(** The value [detectMacOS] returns beside its boolean, when it is not
    [nil]: [m := newMacOS(c)] after the one method called on it. *)
Inductive osType : Type :=
| newMacOS_setErrs (c : ServerInfo) (errs : list error)
| newMacOS_setDistro (c : ServerInfo) (family version : string).

(** [func detectMacOS(c config.ServerInfo) (bool, osTypeInterface)] *)
Definition detectMacOS (c : ServerInfo) (h : Host) : bool * option osType * Host :=
  let '(r, h) := exec "sw_vers" h in
  if isSuccess r then
    match macos.parseSWVers MacOSX MacOSXServer MacOS MacOSServer (Stdout r) with
    | (_, _, Some err) => (true, Some (newMacOS_setErrs c [FailedToParseSWVers err]), h)
    | (family, version, None) => (true, Some (newMacOS_setDistro c family version), h)
    end
  else (false, None, h).

(** The calls of [o.log]: [Infof("Scanning OS pkg in %s", mode)],
    [Errorf("Failed to scan the running kernel version: %s", err)] and
    [Warnf("Failed to detect IP addresses: %s", err)]. *)
Inductive logEntry : Type :=
| Infof_ScanningOSPkg (mode : ScanMode)
| Errorf_RunningKernel (err : kernelError)
| Warnf_DetectIPAddresses (err : error).

(** Modelled from the spec: the struct [base] that [macos] embeds is
    declared outside [scanner/macos.go].  The receiver [o *macos] is
    modelled by the fields the methods below read or assign,
    [o.ServerInfo.Mode], [o.ServerInfo.IPv4Addrs], [o.ServerInfo.IPv6Addrs],
    [o.warns], [o.Kernel] and [o.Packages] ([None] is a [nil] map), and by
    what has been written to [o.log]. *)
Record macos : Type := {
  Mode : ScanMode;
  IPv4Addrs : list string;
  IPv6Addrs : list string;
  warns : list error;
  kernel : Kernel;
  Packages : option (gmap string Package);
  log : list logEntry
}.

Definition setAddrs (o : macos) (v4 v6 : list string) : macos :=
  {| Mode := Mode o; IPv4Addrs := v4; IPv6Addrs := v6; warns := warns o;
     kernel := kernel o; Packages := Packages o; log := log o |}.

Definition setWarns (o : macos) (ws : list error) : macos :=
  {| Mode := Mode o; IPv4Addrs := IPv4Addrs o; IPv6Addrs := IPv6Addrs o;
     warns := ws; kernel := kernel o; Packages := Packages o; log := log o |}.

Definition setKernel (o : macos) (k : Kernel) : macos :=
  {| Mode := Mode o; IPv4Addrs := IPv4Addrs o; IPv6Addrs := IPv6Addrs o;
     warns := warns o; kernel := k; Packages := Packages o; log := log o |}.

Definition setPackages (o : macos) (pkgs : option (gmap string Package)) : macos :=
  {| Mode := Mode o; IPv4Addrs := IPv4Addrs o; IPv6Addrs := IPv6Addrs o;
     warns := warns o; kernel := kernel o; Packages := pkgs; log := log o |}.

Definition logf (o : macos) (e : logEntry) : macos :=
  {| Mode := Mode o; IPv4Addrs := IPv4Addrs o; IPv6Addrs := IPv6Addrs o;
     warns := warns o; kernel := kernel o; Packages := Packages o;
     log := log o ++ [e] |}.

(** [func (o *macos) checkScanMode() error], [checkIfSudoNoPasswd],
    [checkDeps] and [postScan]: [return nil]. *)
Definition checkScanMode (o : macos) : option error := None.
Definition checkIfSudoNoPasswd (o : macos) : option error := None.
Definition checkDeps (o : macos) : option error := None.
Definition postScan (o : macos) : option error := None.

(** [func (o *macos) detectIPAddr() (err error)]; the named result [err] is
    [nil] when it is tested. *)
Definition detectIPAddr (o : macos) (h : Host) : macos * option error * Host :=
  let err : option error := None in
  let '(r, h) := exec "/sbin/ifconfig" h in
  if negb (isSuccess r) then (o, Some (FailedToDetectIPAddress r), h)
  else
    let '(v4, v6) := parseIfconfig (Stdout r) in
    let o := setAddrs o v4 v6 in
    match err with
    | Some err => (o, Some (FailedToParseIfconfig err), h)
    | None => (o, None, h)
    end.

(** [func (o *macos) preCure() error] *)
Definition preCure (o : macos) (h : Host) : macos * option error * Host :=
  let '(o, err, h) := detectIPAddr o h in
  match err with
  | Some err =>
    let o := logf o (Warnf_DetectIPAddresses err) in
    (setWarns o (warns o ++ [err]), None, h)
  | None => (o, None, h)
  end.

(** The two commands of [scanInstalledPackages]; the second is
    [fmt.Sprintf("plutil -extract \"CFBundleShortVersionString\" raw \"%s\" -o -", t)]. *)
Definition findCommand : string :=
  "find -L /Applications /System/Applications -type f -path "
  +:+ xerrors.quote +:+ "*.app/Contents/Info.plist" +:+ xerrors.quote
  +:+ " -not -path " +:+ xerrors.quote +:+ "*.app/**/*.app/*" +:+ xerrors.quote.

Definition plutilCommand (t : string) : string :=
  "plutil -extract " +:+ xerrors.quote +:+ "CFBundleShortVersionString"
  +:+ xerrors.quote +:+ " raw " +:+ xerrors.quote +:+ t +:+ xerrors.quote
  +:+ " -o -".

(** The body of [for scanner.Scan()] in [scanInstalledPackages], on the map
    [installed] and the host. *)
Definition scanBundle (st : gmap string Package * Host) (t : string)
    : gmap string Package * Host :=
  let '(installed, h) := st in
  let n := filepath.Base (TrimSuffix t ".app/Contents/Info.plist") in
  let '(r, h) := exec (plutilCommand t) h in
  let v := if isSuccess r then TrimSpace (Stdout r) else EmptyString in
  (<[n := {| Name := n; models.Version := v |}]> installed, h).

(** [func (o *macos) scanInstalledPackages() (models.Packages, error)] *)
Definition scanInstalledPackages (h : Host)
    : option (gmap string Package) * option error * Host :=
  let '(r, h) := exec findCommand h in
  if negb (isSuccess r) then (None, Some (FailedToExec r), h)
  else
    let '(tokens, scanErr) := bufio.scanLines (Stdout r) in
    let '(installed, h) := foldl scanBundle (∅, h) tokens in
    match scanErr with
    | Some err => (None, Some (FailedToScan err), h)
    | None => (Some installed, None, h)
    end.

(** [func (o *macos) scanPackages() error] *)
Definition scanPackages (o : macos) (h : Host) : macos * option error * Host :=
  let o := logf o (Infof_ScanningOSPkg (Mode o)) in
  let '(release, version, err, h) := runningKernel h in
  match err with
  | Some err => (logf o (Errorf_RunningKernel err), Some (RunningKernel err), h)
  | None =>
    let o := setKernel o {| Version := version; Release := release |} in
    let '(installed, err, h) := scanInstalledPackages h in
    match err with
    | Some err => (o, Some (FailedToScanInstalledPackages err), h)
    | None => (setPackages o installed, None, h)
    end
  end.

End host.

Arguments FailedToParseSWVers {execResult kernelError} err.
Arguments FailedToDetectIPAddress {execResult kernelError} r.
Arguments FailedToParseIfconfig {execResult kernelError} err.
Arguments RunningKernel {execResult kernelError} err.
Arguments FailedToScanInstalledPackages {execResult kernelError} err.
Arguments FailedToExec {execResult kernelError} r.
Arguments FailedToScan {execResult kernelError} err.
Arguments newMacOS_setErrs {execResult kernelError ServerInfo} c errs.
Arguments newMacOS_setDistro {execResult kernelError ServerInfo} c family version.
Arguments Infof_ScanningOSPkg {execResult kernelError ScanMode} mode.
Arguments Errorf_RunningKernel {execResult kernelError ScanMode} err.
Arguments Warnf_DetectIPAddresses {execResult kernelError ScanMode} err.
Arguments Mode {execResult kernelError ScanMode} o : rename.
Arguments IPv4Addrs {execResult kernelError ScanMode} o : rename.
Arguments IPv6Addrs {execResult kernelError ScanMode} o : rename.
Arguments warns {execResult kernelError ScanMode} o : rename.
Arguments kernel {execResult kernelError ScanMode} o : rename.
Arguments Packages {execResult kernelError ScanMode} o : rename.
Arguments log {execResult kernelError ScanMode} o : rename.

End scanner.

(** ** More sample texts *)

Module MoreSamples.

Import Samples.

(** The report of macOS 13.4.1 with its lines in another order, without
    the build line, and after a [ProductName] line that is overridden. *)
Definition shuffled : string :=
  "ProductVersion:" +:+ tab +:+ tab +:+ "13.4.1" +:+ nl
  +:+ "ProductName:" +:+ tab +:+ tab +:+ "Mac OS X" +:+ nl
  +:+ "ProductName:" +:+ tab +:+ tab +:+ "macOS".

(** A report with the build line only. *)
Definition buildOnly : string := "BuildVersion:" +:+ tab +:+ tab +:+ "22F82".

Definition safariPath : string := "/Applications/Safari.app/Contents/Info.plist".

(** The block of Safari, and a block that ends with the same two lines in
    the other order, after lines that they override. *)
Definition safariBlock : string := block safariPath "16.5.1".

Definition safariMixed : string :=
  "CFBundleShortVersionString: 1.0" +:+ nl
  +:+ "Info.plist: /Applications/Firefox.app/Contents/Info.plist" +:+ nl
  +:+ "CFBundleShortVersionString: 16.5.1" +:+ tab +:+ nl
  +:+ "Info.plist: " +:+ safariPath.

(** A version line alone in its block, before the block of [pathOnly]. *)
Definition versionOnly : string :=
  "CFBundleShortVersionString: 9.9" +:+ nl +:+ nl +:+ pathOnly.

End MoreSamples.

(** ** Sample hosts *)

Module HostSamples.

Import Samples MoreSamples.

(** The result of a command: whether it succeeded, and its output. *)
Record result : Type := { ok : bool; out : string }.

Definition notesPath : string := "/System/Applications/Notes.app/Contents/Info.plist".

(** A Mac with two bundles; [plutil] fails on the second. *)
Definition mac (cmd : string) : result :=
  if String.eqb cmd "sw_vers" then
    {| ok := true; out := sw_vers "macOS" "13.4.1" "22F82" +:+ nl |}
  else if String.eqb cmd "/sbin/ifconfig" then
    {| ok := true; out := "lo0: flags=8049" +:+ nl |}
  else if String.eqb cmd scanner.findCommand then
    {| ok := true; out := safariPath +:+ nl +:+ notesPath +:+ nl |}
  else if String.eqb cmd (scanner.plutilCommand safariPath) then
    {| ok := true; out := "16.5.1" +:+ nl |}
  else {| ok := false; out := EmptyString |}.

(** A Mac whose [sw_vers] names a product that is none of the four, and
    whose [find] prints an over-long line after a path. *)
Definition oddMac (cmd : string) : result :=
  if String.eqb cmd "sw_vers" then
    {| ok := true; out := sw_vers "MacOS" "13.4.1" "22F82" +:+ nl |}
  else if String.eqb cmd scanner.findCommand then
    {| ok := true; out := safariPath +:+ nl +:+ longLine +:+ nl |}
  else if String.eqb cmd (scanner.plutilCommand safariPath) then
    {| ok := true; out := "16.5.1" +:+ nl |}
  else {| ok := false; out := EmptyString |}.

(** A Mac whose [find] prints an empty line after a path. *)
Definition blankMac (cmd : string) : result :=
  if String.eqb cmd scanner.findCommand then
    {| ok := true; out := safariPath +:+ nl +:+ nl |}
  else if String.eqb cmd (scanner.plutilCommand safariPath) then
    {| ok := true; out := "16.5.1" +:+ nl |}
  else {| ok := false; out := EmptyString |}.

(** A host on which every command fails. *)
Definition other (cmd : string) : result := {| ok := false; out := EmptyString |}.

(** The state of a host is the list of the commands run on it. *)
Definition exec (answer : string → result) (cmd : string) (h : list string)
    : result * list string :=
  (answer cmd, h ++ [cmd]).

Definition runningKernel (h : list string) : string * string * option string * list string :=
  ("22.5.0", "Darwin Kernel Version 22.5.0", None, h ++ ["uname -r"; "uname -v"]).

Definition noKernel (h : list string) : string * string * option string * list string :=
  ("", "", Some "uname failed", h ++ ["uname -r"]).

Definition parseIfconfig (stdout : string) : list string * list string :=
  if String.eqb stdout "" then ([], []) else (["192.0.2.7"], ["2001:db8::7"]).

Definition o0 : scanner.macos result string unit :=
  {| scanner.Mode := (); scanner.IPv4Addrs := []; scanner.IPv6Addrs := [];
     scanner.warns := [];
     scanner.kernel := {| scanner.Release := ""; scanner.Version := "" |};
     scanner.Packages := Some ∅; scanner.log := [] |}.

End HostSamples.

(** ** The formats of [macos_test.go] *)

Module Formats.

Import strings Spec Lines Samples.

(** A byte of ASCII that is no space. *)
Definition plainByte (c : ascii) : bool :=
  (N_of_ascii c <? utf8.RuneSelf)%N && negb (asciiSpace (N_of_ascii c)).

(** A string that begins and ends with such a byte; it is not empty. *)
Definition clean (s : string) : bool :=
  match firstByte s, lastByte s with
  | Some c, Some d => plainByte c && plainByte d
  | _, _ => false
  end.

(** A string of ASCII spaces. *)
Definition blank (s : string) : bool :=
  forallb (λ c, asciiSpace (N_of_ascii c)) (chars s).

(** A value that can stand on a line of its own: it is clean, it has no
    line feed, and the line it makes after a label of [n] bytes is shorter
    than [bufio.MaxScanTokenSize]. *)
Definition fits (n : nat) (s : string) : Prop :=
  clean s = true ∧ hasByte bufio.newline s = false
  ∧ n + len s < bufio.MaxScanTokenSize.

(** The listing of [Test_macos_parseInstalledPackages] for any bundles,
    given by their paths and what [plutil] printed for them: the blocks of
    [Samples.block], a blank line between two of them. *)
Fixpoint listing (bundles : list (string * string)) : string :=
  match bundles with
  | [] => EmptyString
  | (path, version) :: rest =>
    match rest with
    | [] => block path version
    | _ :: _ => block path version +:+ nl +:+ nl +:+ listing rest
    end
  end.

(** The records of the bundles, filed one after the other. *)
Definition filed (bundles : list (string * string)) : gmap string models.Package :=
  foldl (λ m b, <[derivedName b.1 :=
                    models.Build_Package (derivedName b.1) (noValue b.2)]> m)
        ∅ bundles.

(** The five bundles of [Samples.happy]. *)
Definition happyBundles : list (string * string) :=
  [("/Applications/Visual Studio Code.app/Contents/Info.plist", "1.80.1");
   ("/Applications/Safari.app/Contents/Info.plist", "16.5.1");
   ("/Applications/Firefox.app/Contents/Info.plist", "115.0.2");
   ("/Applications/Slack.app/Contents/Info.plist", "4.33.73");
   (contactsPath,
    contactsPath +:+ ": Could not extract value, error: No value at that key path or invalid key path: CFBundleShortVersionString")].

End Formats.

(** * Properties *)

(** ** Strings and slices *)

Section GoStringFacts.

Import strings.

Lemma eqb_false (s1 s2 : string) : s1 ≠ s2 → String.eqb s1 s2 = false.
Proof. apply String.eqb_neq. Qed.

Lemma app_cons c (a b : string) : String c a +:+ b = String c (a +:+ b).
Proof. reflexivity. Qed.

Lemma app_empty_r (a : string) : a +:+ "" = a.
Proof. induction a as [|c a IH]; [reflexivity|]. by rewrite app_cons, IH. Qed.

Lemma app_assoc' (a b c : string) : (a +:+ b) +:+ c = a +:+ (b +:+ c).
Proof. induction a as [|d a IH]; [reflexivity|]. by rewrite !app_cons, IH. Qed.

Lemma len_app (a b : string) : len (a +:+ b) = len a + len b.
Proof. induction a as [|c a IH]; [reflexivity|]. rewrite app_cons. simpl. by rewrite IH. Qed.

Lemma sliceTo_app (a b : string) : sliceTo (a +:+ b) (len a) = a.
Proof. induction a as [|c a IH]; [reflexivity|]. rewrite app_cons. simpl. by rewrite IH. Qed.

Lemma sliceFrom_app (a b : string) : sliceFrom (a +:+ b) (len a) = b.
Proof. induction a as [|c a IH]; [reflexivity|]. rewrite app_cons. simpl. by rewrite IH. Qed.

Lemma sliceTo_sliceFrom (s : string) (n : nat) : sliceTo s n +:+ sliceFrom s n = s.
Proof.
  revert s; induction n as [|n IH]; intros [|c s]; simpl; try reflexivity.
  by rewrite app_cons, IH.
Qed.

Lemma len_sliceFrom (s : string) (n : nat) : len (sliceFrom s n) = len s - n.
Proof. revert s; induction n as [|n IH]; intros [|c s]; simpl; auto with lia. Qed.

Lemma HasPrefix_app (p r : string) : HasPrefix (p +:+ r) p = true.
Proof.
  unfold HasPrefix. rewrite sliceTo_app, String.eqb_refl, len_app.
  rewrite andb_true_r. apply Nat.leb_le. lia.
Qed.

Lemma HasPrefix_inv (s p : string) :
  HasPrefix s p = true → s = p +:+ sliceFrom s (len p).
Proof.
  unfold HasPrefix. intros [_ H%String.eqb_eq]%andb_true_iff.
  rewrite <- (sliceTo_sliceFrom s (len p)) at 1. by rewrite H.
Qed.

Lemma TrimPrefix_app (p r : string) : TrimPrefix (p +:+ r) p = r.
Proof. unfold TrimPrefix. by rewrite HasPrefix_app, sliceFrom_app. Qed.





End GoStringFacts.

(** ** [strings.Cut] at a colon *)

Section CutFacts.

Import strings Spec.

Lemma HasPrefix_byte (c d : ascii) (s : string) :
  HasPrefix (String d s) (String c "") = Ascii.eqb d c.
Proof.
  unfold HasPrefix. simpl. by destruct (Ascii.eqb d c).
Qed.

Lemma Index_byte_None (c : ascii) (s : string) :
  hasByte c s = false → Index s (String c "") = None.
Proof.
  induction s as [|d s IH]; [done|]. simpl hasByte.
  intros [Hd Hs]%orb_false_iff. cbn [Index].
  by rewrite HasPrefix_byte, Hd, IH.
Qed.

Lemma Index_byte_Some (c : ascii) (s : string) :
  hasByte c s = true → Index s (String c "") = Some (len (before c s)).
Proof.
  induction s as [|d s IH]; [done|]. simpl hasByte. cbn [Index before].
  rewrite HasPrefix_byte. destruct (Ascii.eqb d c); [done|].
  simpl. intros H. by rewrite IH.
Qed.

Lemma before_after (c : ascii) (s : string) :
  hasByte c s = true → s = before c s +:+ String c (after c s).
Proof.
  induction s as [|d s IH]; [done|]. simpl.
  destruct (Ascii.eqb_spec d c) as [->|Hne]; [done|].
  simpl. intros H. rewrite app_cons. by rewrite <- IH.
Qed.

(** [Cut] splits at the first colon: the tag is what precedes it, the value
    all that follows. *)
Lemma Cut_colon (t : string) :
  hasByte colon t = true → Cut t ":" = (tagOf t, valueOf t, true).
Proof.
  intros H. unfold Cut. change ":" with (String colon ""). rewrite Index_byte_Some by done.
  unfold tagOf, valueOf. rewrite (before_after colon t H) at 1 3.
  rewrite sliceTo_app.
  replace (len (before colon t) + len (String colon "")) with
    (len (before colon t +:+ String colon "")) by apply len_app.
  rewrite <- (app_empty_r (after colon t)) at 1.
  change (String colon (after colon t +:+ "")) with (String colon "" +:+ (after colon t +:+ "")).
  rewrite <- app_assoc', sliceFrom_app. by rewrite app_empty_r.
Qed.

Lemma Cut_no_colon (t : string) :
  hasByte colon t = false → Cut t ":" = (t, "", false).
Proof.
  intros H. unfold Cut. change ":" with (String colon ""). by rewrite Index_byte_None.
Qed.

Lemma hasByte_app (c : ascii) (a b : string) :
  hasByte c (a +:+ b) = hasByte c a || hasByte c b.
Proof.
  induction a as [|d a IH]; [done|]. rewrite app_cons. simpl.
  by rewrite IH, orb_assoc.
Qed.

Lemma before_app (c : ascii) (a b : string) :
  hasByte c a = false → before c (a +:+ String c b) = a.
Proof.
  induction a as [|d a IH]; simpl.
  - intros _. cbn. by rewrite Ascii.eqb_refl.
  - intros [Hd Ha]%orb_false_iff. by rewrite Hd, IH.
Qed.

Lemma after_app (c : ascii) (a b : string) :
  hasByte c a = false → after c (a +:+ String c b) = b.
Proof.
  induction a as [|d a IH]; simpl.
  - intros _. cbn. by rewrite Ascii.eqb_refl.
  - intros [Hd Ha]%orb_false_iff. by rewrite Hd, IH.
Qed.

End CutFacts.

(** ** [filepath.Base] *)

Section BaseFacts.

Import strings filepath Spec.


(** [Base] never returns the empty string. *)
Lemma Base_not_empty (path : string) : Base path ≠ "".
Proof.
  unfold Base. destruct (String.eqb_spec path ""); [done|].
  by destruct (String.eqb_spec (lastElement (stripTrailingSeparators path)) "").
Qed.







End BaseFacts.

(** ** [strings.TrimSpace] strips strippable bytes only *)

Section TrimSpaceFacts.

Import strings utf8 unicode Spec.

Implicit Types (s x : string) (l : list ascii) (i j k : nat) (b r : N).

Local Abbreviation ok := (λ c : ascii, strippable (N_of_ascii c) = true).

Lemma chars_app s1 s2 : chars (s1 +:+ s2) = chars s1 ++ chars s2.
Proof. induction s1 as [|c s1 IH]; [done|]. rewrite app_cons. simpl. by rewrite IH. Qed.

Lemma chars_inj s1 s2 : chars s1 = chars s2 → s1 = s2.
Proof.
  revert s2. induction s1 as [|c s1 IH]; intros [|d s2]; simpl; try done.
  intros [= -> H]. by rewrite (IH _ H).
Qed.

Lemma chars_length s : length (chars s) = len s.
Proof. induction s as [|c s IH]; [done|]. simpl. by rewrite IH. Qed.

Lemma chars_sliceFrom s i : chars (sliceFrom s i) = drop i (chars s).
Proof. revert s. induction i as [|i IH]; intros [|c s]; simpl; auto. Qed.

Lemma chars_sliceTo s j : chars (sliceTo s j) = take j (chars s).
Proof. revert s. induction j as [|j IH]; intros [|c s]; simpl; auto with f_equal. Qed.

Lemma chars_slice s i j : chars (slice s i j) = take (j - i) (drop i (chars s)).
Proof. unfold slice. by rewrite chars_sliceTo, chars_sliceFrom. Qed.

Lemma byteAt_lookup s i c : chars s !! i = Some c → byteAt s i = N_of_ascii c.
Proof.
  unfold byteAt. intros H.
  assert (chars (sliceFrom s i) !! 0 = Some c) as H0.
  { by rewrite chars_sliceFrom, lookup_drop, Nat.add_0_r. }
  destruct (sliceFrom s i); [done|]. simpl in H0. by injection H0 as ->.
Qed.

Lemma byteAt_lt s i : i < len s → ∃ c, chars s !! i = Some c ∧ byteAt s i = N_of_ascii c.
Proof.
  intros Hi. rewrite <- chars_length in Hi.
  destruct (lookup_lt_is_Some_2 _ _ Hi) as [c Hc]. exists c. split; [done|].
  by apply byteAt_lookup.
Qed.

(** The first [n] bytes are strippable when each of them is. *)
Lemma Forall_take_byteAt s n :
  (∀ k, k < n → k < len s → strippable (byteAt s k) = true) →
  Forall ok (take n (chars s)).
Proof.
  intros H. apply Forall_lookup. intros k c [Hk Hc]%lookup_take_Some.
  rewrite <- (byteAt_lookup _ _ _ Hk). apply H; [done|].
  rewrite <- chars_length. by eapply lookup_lt_Some.
Qed.

Lemma stripped_refl l : stripped l l.
Proof. exists [], []. by rewrite app_nil_r. Qed.

Lemma stripped_trans l1 l2 l3 : stripped l1 l2 → stripped l2 l3 → stripped l1 l3.
Proof.
  intros (a & b & -> & Ha & Hb) (a' & b' & -> & Ha' & Hb').
  exists (a ++ a'), (b' ++ b). split; [by rewrite <- !app_assoc|].
  split; by apply Forall_app.
Qed.

Lemma stripped_drop l i : Forall ok (take i l) → stripped l (drop i l).
Proof.
  intros H. exists (take i l), []. split; [|by split].
  by rewrite app_nil_r, take_drop.
Qed.

Lemma stripped_take l j : Forall ok (drop j l) → stripped l (take j l).
Proof.
  intros H. exists [], (drop j l). split; [|by split]. simpl. by rewrite take_drop.
Qed.

Lemma stripped_nil l : Forall ok l → stripped l [].
Proof. intros H. exists l, []. by rewrite app_nil_r. Qed.

Lemma strippable_high b : (RuneSelf <= b)%N → strippable b = true.
Proof. intros H. unfold strippable. apply orb_true_iff. right. by apply N.leb_le. Qed.

(** Below [RuneSelf], the spaces of [IsSpace] are those of [asciiSpace]. *)
Lemma IsSpace_ascii b : (b < RuneSelf)%N → IsSpace b = true → strippable b = true.
Proof.
  unfold RuneSelf, IsSpace, MaxLatin1, strippable, asciiSpace, among. intros Hb.
  destruct (N.leb_spec b 0xFF) as [_|?]; [|lia]. simpl.
  rewrite !orb_true_iff, !N.eqb_eq. intuition lia.
Qed.

Lemma IsSpace_RuneError : IsSpace RuneError = false.
Proof. reflexivity. Qed.

Lemma first_range b sz lo hi :
  first b = Some (sz, (lo, hi)) → 2 ≤ sz ≤ 4 ∧ (RuneSelf <= lo)%N.
Proof.
  unfold first, locb, RuneSelf.
  repeat (match goal with |- context [if ?c then _ else _] => destruct c end);
    intros [= <- <- <-]; split; (lia || done).
Qed.

Lemma outside_false b lo hi : outside b lo hi = false → (lo <= b)%N.
Proof. unfold outside. intros [H _]%orb_false_iff. by apply N.ltb_ge. Qed.

(** What [DecodeRuneInString] consumes: at most the string, at least a byte
    of a string that has one; after the first, bytes outside ASCII; and a
    strippable first byte when the rune is a space. *)
Lemma DecodeRuneInString_spec x r size :
  DecodeRuneInString x = (r, size) →
  size ≤ len x
  ∧ (0 < len x → 1 ≤ size)
  ∧ (∀ k, 1 ≤ k → k < size → strippable (byteAt x k) = true)
  ∧ (IsSpace r = true → strippable (byteAt x 0) = true).
Proof.
  unfold DecodeRuneInString.
  destruct (Nat.ltb_spec (len x) 1) as [Hn|Hn].
  { intros [= <- <-]. repeat split; try lia. by rewrite IsSpace_RuneError. }
  destruct (N.ltb_spec (byteAt x 0) RuneSelf) as [H0|H0].
  { intros [= <- <-]. repeat split; try lia. by apply IsSpace_ascii. }
  pose proof (strippable_high _ H0) as Hfirst.
  destruct (first (byteAt x 0)) as [[sz [lo hi]]|] eqn:Hf; cycle 1.
  { intros [= <- <-]. repeat split; try lia. done. }
  apply first_range in Hf as [Hsz Hlo].
  destruct (Nat.ltb_spec (len x) sz) as [Hn'|Hn'].
  { intros [= <- <-]. repeat split; try lia. done. }
  destruct (outside (byteAt x 1) lo hi) eqn:H1.
  { intros [= <- <-]. repeat split; try lia. done. }
  apply outside_false in H1.
  assert (strippable (byteAt x 1) = true) as Hs1 by (apply strippable_high; lia).
  destruct (Nat.leb_spec sz 2) as [Hsz2|Hsz2].
  { intros [= <- <-]. repeat split; try lia; [|done].
    intros k ? ?. by replace k with 1 by lia. }
  destruct (outside (byteAt x 2) locb hicb) eqn:H2.
  { intros [= <- <-]. repeat split; try lia. done. }
  apply outside_false in H2.
  assert (strippable (byteAt x 2) = true) as Hs2 by (by apply strippable_high).
  destruct (Nat.leb_spec sz 3) as [Hsz3|Hsz3].
  { intros [= <- <-]. repeat split; try lia; [|done].
    intros k ? ?. assert (k = 1 ∨ k = 2) as [-> | ->] by lia; done. }
  destruct (outside (byteAt x 3) locb hicb) eqn:H3.
  { intros [= <- <-]. repeat split; try lia. done. }
  apply outside_false in H3.
  assert (strippable (byteAt x 3) = true) as Hs3 by (by apply strippable_high).
  intros [= <- <-]. repeat split; try lia; [|done].
  intros k ? ?. assert (k = 1 ∨ k = 2 ∨ k = 3) as [-> | [-> | ->]] by lia; done.
Qed.

Lemma Forall_drop_byteAt s i :
  (∀ k, i ≤ k → k < len s → strippable (byteAt s k) = true) →
  Forall ok (drop i (chars s)).
Proof.
  intros H. apply Forall_lookup. intros k c Hk. rewrite lookup_drop in Hk.
  rewrite <- (byteAt_lookup _ _ _ Hk). apply H; [lia|].
  rewrite <- chars_length. by eapply lookup_lt_Some.
Qed.

Lemma backToRuneStart_le fuel s (start lim : Z) :
  (backToRuneStart fuel s start lim <= start)%Z.
Proof.
  revert start. induction fuel as [|fuel IH]; intros start; simpl; [lia|].
  destruct (start <? lim)%Z; [lia|].
  destruct (RuneStart _); [lia|]. specialize (IH (start - 1)%Z). lia.
Qed.

(** What [DecodeLastRuneInString] consumes at the end of a string that is
    not empty: at least a byte; after the first of them, strippable bytes;
    and strippable bytes only when the rune is a space. *)
Lemma DecodeLastRuneInString_spec x r size :
  DecodeLastRuneInString x = (r, size) →
  0 < len x →
  1 ≤ size ≤ len x
  ∧ Forall ok (drop (len x - size + 1) (chars x))
  ∧ (IsSpace r = true → Forall ok (drop (len x - size) (chars x))).
Proof.
  unfold DecodeLastRuneInString. intros Hdec Hlen.
  destruct (Nat.eqb_spec (len x) 0) as [?|_]; [lia|].
  destruct (N.ltb_spec (byteAt x (len x - 1)) RuneSelf) as [H0|H0].
  { injection Hdec as <- <-. split; [lia|]. split.
    - rewrite drop_ge; [done|]. rewrite chars_length. lia.
    - intros Hsp. apply Forall_drop_byteAt. intros k ? ?.
      replace k with (len x - 1) by lia. by apply IsSpace_ascii. }
  set (back := backToRuneStart UTFMax x (Z.of_nat (len x) - 2)
                 (Z.max 0 (Z.of_nat (len x) - Z.of_nat UTFMax))) in Hdec.
  pose proof (backToRuneStart_le UTFMax x (Z.of_nat (len x) - 2)
                (Z.max 0 (Z.of_nat (len x) - Z.of_nat UTFMax))) as Hback.
  fold back in Hback.
  assert (Z.to_nat (Z.max 0 back) < len x) as Hstart by lia.
  remember (Z.to_nat (Z.max 0 back)) as start eqn:Heq. clear Heq Hback. clear back.
  revert Hdec.
  destruct (DecodeRuneInString (slice x start (len x))) as [r' size'] eqn:Hfw.
  destruct (Nat.eqb_spec (start + size') (len x)) as [Hend|Hend]; intros [= <- <-].
  - assert (chars (slice x start (len x)) = drop start (chars x)) as Hy.
    { rewrite chars_slice, take_ge; [done|]. rewrite length_drop, chars_length. lia. }
    assert (len (slice x start (len x)) = len x - start) as Hleny.
    { rewrite <- chars_length, Hy, length_drop, chars_length. done. }
    apply DecodeRuneInString_spec in Hfw as (Hle & Hge & Hrest & Hsp).
    rewrite Hleny in Hle, Hge.
    replace (len x - size') with start by lia. split; [lia|]. split.
    + replace (start + 1) with (start + 1)%nat by done.
      rewrite <- drop_drop, <- Hy. apply Forall_drop_byteAt.
      intros k ? ?. apply Hrest; [done|]. rewrite Hleny in *. lia.
    + intros Hr. rewrite <- Hy, <- (drop_0 (chars _)). apply Forall_drop_byteAt.
      intros k _ Hk. destruct k as [|k]; [by apply Hsp|].
      apply Hrest; [lia|]. rewrite Hleny in *. lia.
  - split; [lia|]. split; [|by rewrite IsSpace_RuneError].
    rewrite drop_ge; [done|]. rewrite chars_length. lia.
Qed.

Lemma indexFunc_from_spec fuel s i :
  i ≤ len s → len s - i < fuel → Forall ok (take i (chars s)) →
  match indexFunc_from fuel s IsSpace false i with
  | Some j => Forall ok (take j (chars s))
  | None => Forall ok (chars s)
  end.
Proof.
  revert i. induction fuel as [|fuel IH]; intros i Hi Hfuel Htake; [lia|].
  cbn [indexFunc_from]. destruct (Nat.leb_spec (len s) i) as [Hle|Hlt].
  { rewrite take_ge in Htake; [done|]. rewrite chars_length. lia. }
  destruct (DecodeRuneInString (sliceFrom s i)) as [r size] eqn:Hdec.
  apply DecodeRuneInString_spec in Hdec as (Hsize & Hpos & Hrest & Hsp).
  rewrite len_sliceFrom in Hsize, Hpos.
  destruct (IsSpace r); simpl; [|done].
  apply IH; [lia..|]. rewrite <- take_take_drop. apply Forall_app. split; [done|].
  rewrite <- chars_sliceFrom. apply Forall_take_byteAt.
  intros [|k] ? ?; [by apply Hsp|]. apply Hrest; lia.
Qed.

Lemma TrimLeftFunc_stripped s :
  stripped (chars s) (chars (TrimLeftFunc s IsSpace)).
Proof.
  unfold TrimLeftFunc, indexFunc.
  pose proof (indexFunc_from_spec (S (len s)) s 0) as H.
  destruct (indexFunc_from _ _ _ _ _) as [j|].
  - rewrite chars_sliceFrom. apply stripped_drop. apply H; [lia..|done].
  - apply stripped_nil. apply H; [lia..|done].
Qed.

Lemma lastIndexFunc_from_spec fuel s i :
  i ≤ len s → i < fuel → Forall ok (drop i (chars s)) →
  match lastIndexFunc_from fuel s IsSpace false i with
  | Some j => j < len s ∧ Forall ok (drop (S j) (chars s))
  | None => Forall ok (chars s)
  end.
Proof.
  revert i. induction fuel as [|fuel IH]; intros i Hi Hfuel Hdrop; [lia|].
  cbn [lastIndexFunc_from]. destruct (Nat.eqb_spec i 0) as [->|Hne]; [done|].
  assert (chars (slice s 0 i) = take i (chars s)) as Hx.
  { by rewrite chars_slice, drop_0, Nat.sub_0_r. }
  assert (len (slice s 0 i) = i) as Hlenx.
  { rewrite <- chars_length, Hx, length_take, chars_length. lia. }
  destruct (DecodeLastRuneInString (slice s 0 i)) as [r size] eqn:Hdec.
  apply DecodeLastRuneInString_spec in Hdec as (Hsize & Hrest & Hsp); [|lia].
  rewrite Hlenx, Hx in *.
  destruct (IsSpace r); simpl.
  - apply IH; [lia..|]. rewrite <- (drop_take_drop _ (i - size) i) by lia.
    apply Forall_app. split; [by apply Hsp|done].
  - split; [lia|]. rewrite <- (drop_take_drop _ (S (i - size)) i) by lia.
    apply Forall_app. split; [|done]. by rewrite <- Nat.add_1_r.
Qed.

Lemma TrimRightFunc_stripped s :
  stripped (chars s) (chars (TrimRightFunc s IsSpace)).
Proof.
  unfold TrimRightFunc, lastIndexFunc.
  pose proof (lastIndexFunc_from_spec (S (len s)) s (len s)) as H.
  destruct (lastIndexFunc_from _ _ _ _ _) as [j|].
  - destruct H as [Hj Hdrop]; [lia..| |].
    { rewrite drop_ge; [done|]. by rewrite chars_length. }
    destruct (RuneSelf <=? byteAt s j)%N.
    + destruct (DecodeRuneInString (sliceFrom s j)) as [r wid] eqn:Hdec.
      apply DecodeRuneInString_spec in Hdec as (_ & Hpos & _).
      rewrite len_sliceFrom in Hpos.
      rewrite chars_slice, drop_0, Nat.sub_0_r. apply stripped_take.
      replace (j + wid) with (S j + (wid - 1)) by lia.
      rewrite <- drop_drop. by apply Forall_drop.
    + rewrite chars_slice, drop_0, Nat.sub_0_r. by apply stripped_take.
  - apply stripped_nil. apply H; [lia..|].
    rewrite drop_ge; [done|]. by rewrite chars_length.
Qed.

Lemma TrimFunc_stripped s : stripped (chars s) (chars (TrimFunc s IsSpace)).
Proof.
  unfold TrimFunc. eapply stripped_trans; [apply TrimLeftFunc_stripped|].
  apply TrimRightFunc_stripped.
Qed.

Lemma TrimSpace_start_spec fuel s start :
  start ≤ len s → Forall ok (take start (chars s)) →
  start ≤ index_of (TrimSpace_start fuel s start) ≤ len s
  ∧ Forall ok (take (index_of (TrimSpace_start fuel s start)) (chars s)).
Proof.
  revert start. induction fuel as [|fuel IH]; intros start Hle Htake; [done|].
  cbn [TrimSpace_start]. destruct (Nat.leb_spec (len s) start) as [?|Hlt]; [done|].
  destruct (RuneSelf <=? byteAt s start)%N; [done|].
  destruct (asciiSpace (byteAt s start)) eqn:Hsp; [|done].
  destruct (byteAt_lt s start Hlt) as (c & Hc & Hb).
  destruct (IH (S start)) as [Hj Hok]; [lia| |split; [lia|done]].
  rewrite (take_S_r _ _ _ Hc). apply Forall_app. split; [done|].
  apply Forall_singleton. unfold strippable. by rewrite <- Hb, Hsp.
Qed.

Lemma TrimSpace_stop_spec fuel s start stop :
  start ≤ stop ≤ len s → Forall ok (drop stop (chars s)) →
  start ≤ index_of (TrimSpace_stop fuel s start stop) ≤ stop
  ∧ Forall ok (drop (index_of (TrimSpace_stop fuel s start stop)) (chars s)).
Proof.
  revert stop. induction fuel as [|fuel IH]; intros stop Hle Hdrop;
    [simpl; split; [lia|done]|].
  cbn [TrimSpace_stop]. destruct (Nat.leb_spec stop start) as [?|Hlt]; [simpl; split; [lia|done]|].
  destruct (RuneSelf <=? byteAt s (stop - 1))%N; [simpl; split; [lia|done]|].
  destruct (asciiSpace (byteAt s (stop - 1))) eqn:Hsp; [|simpl; split; [lia|done]].
  destruct (byteAt_lt s (stop - 1)) as (c & Hc & Hb); [lia|].
  destruct (IH (stop - 1)) as [Hj Hok]; [lia| |split; [lia|done]].
  rewrite (drop_S _ _ _ Hc). replace (S (stop - 1)) with stop by lia.
  constructor; [|done]. unfold strippable. by rewrite <- Hb, Hsp.
Qed.

Lemma stripped_slice s i j :
  i ≤ j → Forall ok (take i (chars s)) → Forall ok (drop j (chars s)) →
  stripped (chars s) (chars (slice s i j)).
Proof.
  intros Hij Hi Hj. exists (take i (chars s)), (drop j (chars s)).
  split; [|done]. rewrite chars_slice.
  rewrite <- (take_drop i (chars s)) at 1. f_equal.
  rewrite <- (take_drop (j - i) (drop i (chars s))) at 1. f_equal.
  rewrite drop_drop. f_equal. lia.
Qed.

(** [TrimSpace] returns its argument less some strippable bytes at its two
    ends. *)
Lemma TrimSpace_stripped s : stripped (chars s) (chars (TrimSpace s)).
Proof.
  unfold TrimSpace.
  destruct (TrimSpace_start_spec (S (len s)) s 0) as [Hi Hstart]; [lia|done|].
  destruct (TrimSpace_start (S (len s)) s 0) as [start|start]; simpl in Hi, Hstart.
  - destruct (TrimSpace_stop_spec (S (len s)) s start (len s)) as [Hj Hstop]; [lia| |].
    { rewrite drop_ge; [done|]. by rewrite chars_length. }
    destruct (TrimSpace_stop (S (len s)) s start (len s)) as [stop|stop];
      simpl in Hj, Hstop.
    + apply stripped_slice; [lia|done..].
    + eapply stripped_trans; [|apply TrimRightFunc_stripped].
      apply stripped_slice; [lia|done..].
  - eapply stripped_trans; [|apply TrimFunc_stripped].
    rewrite chars_sliceFrom. by apply stripped_drop.
Qed.

(** A byte that is not strippable occurs in the trimmed string as often as
    in the string. *)
Lemma TrimSpace_countByte c s :
  strippable (N_of_ascii c) = false → countByte c (TrimSpace s) = countByte c s.
Proof.
  intros Hc. destruct (TrimSpace_stripped s) as (a & b & Heq & Ha & Hb).
  unfold countByte. rewrite Heq, !filter_app, !length_app.
  assert (∀ l, Forall ok l → filter (λ d, d = c) l = []) as Hnil.
  { intros l Hl. induction Hl as [|d l Hd _ IH]; [done|].
    rewrite filter_cons, decide_False, IH; [done|]. intros ->. congruence. }
  by rewrite (Hnil a Ha), (Hnil b Hb), Nat.add_0_r.
Qed.

End TrimSpaceFacts.

(** ** The line scanner *)

Section ScannerFacts.

Import bufio.

Local Opaque MaxScanTokenSize.

(** When the scanner reports no error, it has handed out every line of the
    text. *)
Lemma deliver_no_error (ls tokens : list string) :
  deliver ls = (tokens, None) → tokens = dropCR <$> ls.
Proof.
  revert tokens. induction ls as [|l ls IH]; intros tokens; cbn [deliver].
  - by intros [= <-].
  - destruct (MaxScanTokenSize <=? len l); [done|].
    destruct (deliver ls) as [ts e]. intros [= <- ->]. by rewrite (IH ts).
Qed.

Lemma scanLines_no_error (stdout : string) (tokens : list string) :
  scanLines stdout = (tokens, None) → tokens = textLines stdout.
Proof. apply deliver_no_error. Qed.

(** It reports none when every line is shorter than [MaxScanTokenSize]. *)
Lemma deliver_short (ls : list string) :
  Forall (λ l, len l < MaxScanTokenSize) ls → deliver ls = (dropCR <$> ls, None).
Proof.
  induction 1 as [|l ls Hl _ IH]; [done|]. cbn [deliver].
  destruct (Nat.leb_spec MaxScanTokenSize (len l)); [lia|]. by rewrite IH.
Qed.

(** It reports one exactly when a line has [MaxScanTokenSize] bytes or
    more. *)
Lemma deliver_no_error_short (ls tokens : list string) :
  deliver ls = (tokens, None) → Forall (λ l, len l < MaxScanTokenSize) ls.
Proof.
  revert tokens. induction ls as [|l ls IH]; intros tokens; cbn [deliver]; [done|].
  destruct (Nat.leb_spec MaxScanTokenSize (len l)); [done|].
  destruct (deliver ls) as [ts e]. intros [= <- ->]. constructor; eauto.
Qed.

Lemma scanLines_error_iff (stdout : string) :
  (scanLines stdout).2 = None ↔
  Forall (λ l, len l < MaxScanTokenSize) (rawLines stdout).
Proof.
  unfold scanLines. split.
  - destruct (deliver (rawLines stdout)) as [ts e] eqn:H. simpl. intros ->.
    by eapply deliver_no_error_short.
  - intros H. by rewrite (deliver_short _ H).
Qed.

(** The tokens handed out are lines of the text, in order, in any case. *)
Lemma deliver_prefix (ls : list string) :
  (deliver ls).1 `prefix_of` dropCR <$> ls.
Proof.
  induction ls as [|l ls IH]; cbn [deliver]; [done|].
  destruct (MaxScanTokenSize <=? len l); [apply prefix_nil|].
  destruct (deliver ls) as [ts e]. rewrite fmap_cons. by apply prefix_cons.
Qed.

End ScannerFacts.

(** ** [parseSWVers] *)

Section SWVersFacts.

Import strings xerrors macos Spec.

Variables MacOSX MacOSXServer MacOS MacOSServer : string.

Lemma lastValue_snoc (key : string) (lines : list string) (t : string) :
  lastValue key (lines ++ [t]) =
  if HasPrefix t key then TrimSpace (TrimPrefix t key) else lastValue key lines.
Proof.
  unfold lastValue. rewrite filter_app, filter_cons, filter_nil.
  destruct (HasPrefix t key) eqn:Ht.
  - rewrite decide_True by done. by rewrite last_snoc.
  - rewrite decide_False by done. by rewrite app_nil_r.
Qed.

(** No line starts with both keys. *)
Lemma keys_exclusive (t : string) :
  HasPrefix t productNameKey = true → HasPrefix t productVersionKey = false.
Proof.
  intros H%HasPrefix_inv. rewrite H. generalize (sliceFrom t (len productNameKey)).
  intros r. unfold HasPrefix. apply andb_false_intro2. reflexivity.
Qed.

(** The loop keeps the last-seen value of each of the two keys. *)
Lemma foldl_scanSWVers (tokens : list string) :
  foldl scanSWVers ("", "") tokens =
  (lastValue productNameKey tokens, lastValue productVersionKey tokens).
Proof.
  induction tokens as [|t tokens IH] using rev_ind; [done|].
  rewrite foldl_snoc, IH, !lastValue_snoc. unfold scanSWVers.
  fold productNameKey productVersionKey.
  destruct (HasPrefix t productNameKey) eqn:Hn.
  - by rewrite (keys_exclusive t Hn).
  - by destruct (HasPrefix t productVersionKey).
Qed.

(** [parseSWVers] once the scanner has reported no error. *)
Lemma parseSWVers_scanned (stdout : string) (tokens : list string) :
  bufio.scanLines stdout = (tokens, None) →
  parseSWVers MacOSX MacOSXServer MacOS MacOSServer stdout =
  let name := lastValue productNameKey tokens in
  let version := lastValue productVersionKey tokens in
  match switchName MacOSX MacOSXServer MacOS MacOSServer name with
  | None => ("", "", Some (UnexpectedProductName name))
  | Some family =>
    if String.eqb version "" then ("", "", Some ProductVersionIsEmpty)
    else (family, version, None)
  end.
Proof. intros H. unfold parseSWVers. by rewrite H, foldl_scanSWVers. Qed.

(** [switch name] follows the table of the four literals. *)
Lemma switchName_family (name family : string) :
  (name, family) ∈ productFamilies MacOSX MacOSXServer MacOS MacOSServer →
  switchName MacOSX MacOSXServer MacOS MacOSServer name = Some family.
Proof.
  unfold productFamilies. rewrite !elem_of_cons, elem_of_nil.
  intros [[= -> ->]|[[= -> ->]|[[= -> ->]|[[= -> ->]|[]]]]]; reflexivity.
Qed.

Lemma switchName_default (name : string) :
  name ∉ productNames →
  switchName MacOSX MacOSXServer MacOS MacOSServer name = None.
Proof.
  unfold productNames. rewrite !not_elem_of_cons. intros (H1 & H2 & H3 & H4 & _).
  unfold switchName.
  by rewrite (eqb_false _ _ H1), (eqb_false _ _ H2),
    (eqb_false _ _ H3), (eqb_false _ _ H4).
Qed.

Lemma productNames_families (name : string) :
  name ∈ productNames →
  ∃ family, (name, family) ∈ productFamilies MacOSX MacOSXServer MacOS MacOSServer.
Proof.
  unfold productNames, productFamilies. rewrite !elem_of_cons, elem_of_nil.
  intros [->|[->|[->|[->|[]]]]]; eexists; rewrite !elem_of_cons; eauto 10.
Qed.

End SWVersFacts.

Section SWVersClaims.

Import strings xerrors macos Spec.

Variables MacOSX MacOSXServer MacOS MacOSServer : string.

Local Abbreviation parseSWVers := (parseSWVers MacOSX MacOSXServer MacOS MacOSServer).
Local Abbreviation productFamilies := (productFamilies MacOSX MacOSXServer MacOS MacOSServer).

(** C1, as amended.  When the scanner reports no error (no line of the text
    has [bufio.MaxScanTokenSize] bytes or more), the last [ProductName] line
    carries one of the four recognized literals and the trimmed value of the
    last [ProductVersion] line is not empty, [parseSWVers] succeeds and
    returns the family the table gives the literal, together with that
    trimmed version. *)
Theorem parseSWVers_recognized (stdout : string) (tokens : list string)
    (name family version : string) :
  bufio.scanLines stdout = (tokens, None) →
  lastValue productNameKey tokens = name →
  (name, family) ∈ productFamilies →
  lastValue productVersionKey tokens = version →
  version ≠ "" →
  parseSWVers stdout = (family, version, None).
Proof.
  intros Hscan <- Hfam <- Hver.
  rewrite (parseSWVers_scanned _ _ _ _ _ _ Hscan). cbv zeta.
  rewrite (switchName_family _ _ _ _ _ _ Hfam).
  by rewrite (eqb_false _ _ Hver).
Qed.

(** C6, as amended.  When the scanner reports no error and the captured
    product name is none of the four literals, [parseSWVers] fails with the
    unexpected-product-name error, whose text quotes the captured name. *)
Theorem parseSWVers_unexpected_name (stdout : string) (tokens : list string)
    (name : string) :
  bufio.scanLines stdout = (tokens, None) →
  lastValue productNameKey tokens = name →
  name ∉ productNames →
  parseSWVers stdout = ("", "", Some (UnexpectedProductName name))
  ∧ Error (UnexpectedProductName name) =
      "Failed to detect MacOS Family. err: " +:+ quote +:+ name +:+ quote
        +:+ " is unexpected product name".
Proof.
  intros Hscan <- Hname. split; [|reflexivity].
  rewrite (parseSWVers_scanned _ _ _ _ _ _ Hscan). cbv zeta.
  by rewrite switchName_default.
Qed.

(** C7, as amended.  When the scanner reports no error and the captured
    product version is empty after trimming, [parseSWVers] fails: with the
    missing-product-version error when the captured name is one of the four
    literals, and with the unexpected-product-name error when it is not (the
    name is checked first).  The two errors differ, and so do their texts. *)
Theorem parseSWVers_empty_version (stdout : string) (tokens : list string)
    (name : string) :
  bufio.scanLines stdout = (tokens, None) →
  lastValue productNameKey tokens = name →
  lastValue productVersionKey tokens = "" →
  (name ∈ productNames →
     parseSWVers stdout = ("", "", Some ProductVersionIsEmpty))
  ∧ (name ∉ productNames →
     parseSWVers stdout = ("", "", Some (UnexpectedProductName name)))
  ∧ (∀ other, ProductVersionIsEmpty ≠ UnexpectedProductName other
              ∧ Error ProductVersionIsEmpty ≠ Error (UnexpectedProductName other)).
Proof.
  intros Hscan <- Hver. rewrite (parseSWVers_scanned _ _ _ _ _ _ Hscan). cbv zeta.
  rewrite Hver. split; [|split].
  - intros [family Hfam]%(productNames_families MacOSX MacOSXServer MacOS MacOSServer).
    by rewrite (switchName_family _ _ _ _ _ _ Hfam).
  - intros Hname. by rewrite switchName_default.
  - intros other. split; [done|]. unfold Error. intros [=].
Qed.

End SWVersClaims.

(** ** The loop of [parseInstalledPackages] *)

Section PackagesFacts.

Import strings xerrors models macos Spec.

Implicit Types (pkgs : gmap string Package) (p v t : string)
  (tokens pre post : list string) (st : vars).

Lemma scanPackages_app st pre post :
  scanPackages st (pre ++ post) =
  match scanPackages st pre with
  | inl err => inl err
  | inr st' => scanPackages st' post
  end.
Proof.
  revert st. induction pre as [|t pre IH]; intros st; [done|].
  simpl. destruct (scanPackage st t); [done|]. apply IH.
Qed.

Lemma scanPackages_snoc st pre t :
  scanPackages st (pre ++ [t]) =
  match scanPackages st pre with
  | inl err => inl err
  | inr st' => scanPackage st' t
  end.
Proof.
  rewrite scanPackages_app. destruct (scanPackages st pre) as [|st']; [done|].
  simpl. by destruct (scanPackage st' t).
Qed.

Lemma store_pending pkgs p v :
  p ≠ "" →
  store pkgs p v =
  <[derivedName p := {| Name := derivedName p; Version := v |}]> pkgs.
Proof. intros Hp. unfold store. by rewrite (eqb_false _ _ Hp). Qed.

Lemma store_nothing pkgs v : store pkgs "" v = pkgs.
Proof. done. Qed.

Lemma labelled_not_blank label t : labelled label t = true → t ≠ "".
Proof. by intros H ->. Qed.

Lemma labelled_inv label t :
  labelled label t = true → hasByte colon t = true ∧ tagOf t = label.
Proof. unfold labelled. by intros [? ?%String.eqb_eq]%andb_true_iff. Qed.

(** The body of the loop, case by case. *)

Lemma scanPackage_blank pkgs p v :
  scanPackage (pkgs, p, v) "" = inr (store pkgs p v, "", "").
Proof. done. Qed.

Lemma scanPackage_no_colon st t :
  t ≠ "" → hasByte colon t = false → scanPackage st t = inl (UnexpectedLine t).
Proof.
  intros Ht Hc. destruct st as [[pkgs p] v]. unfold scanPackage.
  rewrite (eqb_false _ _ Ht). by rewrite (Cut_no_colon t Hc).
Qed.

Lemma scanPackage_path pkgs p v t :
  labelled pathLabel t = true →
  scanPackage (pkgs, p, v) t = inr (pkgs, TrimSpace (valueOf t), v).
Proof.
  intros Hl. pose proof (labelled_not_blank _ _ Hl) as Ht.
  apply labelled_inv in Hl as [Hc Htag]. unfold scanPackage.
  rewrite (eqb_false _ _ Ht), (Cut_colon t Hc), Htag. done.
Qed.

Lemma scanPackage_version pkgs p v t :
  labelled versionLabel t = true →
  scanPackage (pkgs, p, v) t =
  inr (pkgs, p, if HasSuffix (TrimSpace (valueOf t)) noValueSuffix then ""
                else TrimSpace (valueOf t)).
Proof.
  intros Hl. pose proof (labelled_not_blank _ _ Hl) as Ht.
  apply labelled_inv in Hl as [Hc Htag]. unfold scanPackage.
  rewrite (eqb_false _ _ Ht), (Cut_colon t Hc), Htag.
  cbn [negb]. change (String.eqb versionLabel "Info.plist") with false.
  change (String.eqb versionLabel "CFBundleShortVersionString") with true.
  cbv iota. fold noValueSuffix. by destruct (HasSuffix _ _).
Qed.

Lemma scanPackage_tag st t :
  hasByte colon t = true → tagOf t ≠ pathLabel → tagOf t ≠ versionLabel →
  scanPackage st t = inl (UnexpectedLineTag (tagOf t)).
Proof.
  intros Hc H1 H2. destruct st as [[pkgs p] v]. unfold scanPackage.
  assert (t ≠ "") as Ht by (by intros ->).
  rewrite (eqb_false _ _ Ht), (Cut_colon t Hc). cbn [negb].
  fold pathLabel versionLabel.
  by rewrite (eqb_false _ _ H1), (eqb_false _ _ H2).
Qed.

(** The lines the loop accepts are the blank ones and those with one of
    the two labels; it fails at the first other line. *)
Lemma accepted_cases t :
  accepted t = true →
  t = "" ∨ labelled pathLabel t = true ∨ labelled versionLabel t = true.
Proof.
  unfold accepted. intros [[?%String.eqb_eq| ?]%orb_true_iff| ?]%orb_true_iff; auto.
Qed.

Lemma not_accepted_cases t :
  accepted t = false →
  t ≠ "" ∧ (hasByte colon t = false
            ∨ hasByte colon t = true ∧ tagOf t ≠ pathLabel ∧ tagOf t ≠ versionLabel).
Proof.
  unfold accepted, labelled.
  intros [[Ht%String.eqb_neq Hp]%orb_false_iff Hv]%orb_false_iff.
  split; [done|]. destruct (hasByte colon t); [right|by left].
  simpl in Hp, Hv. by apply String.eqb_neq in Hp, Hv.
Qed.

Lemma scanPackage_accepted st t :
  accepted t = true → ∃ st', scanPackage st t = inr st'.
Proof.
  destruct st as [[pkgs p] v]. intros [->|[H|H]]%accepted_cases.
  - eauto.
  - rewrite scanPackage_path by done. eauto.
  - rewrite scanPackage_version by done. eauto.
Qed.

Lemma scanPackage_not_accepted st t :
  accepted t = false → ∃ err, scanPackage st t = inl err.
Proof.
  intros [Ht [Hc|(Hc & H1 & H2)]]%not_accepted_cases.
  - rewrite scanPackage_no_colon by done. eauto.
  - rewrite scanPackage_tag by done. eauto.
Qed.

Lemma scanPackages_accepts st tokens :
  Forall (λ t, accepted t = true) tokens → ∃ st', scanPackages st tokens = inr st'.
Proof.
  intros H. revert st. induction H as [|t tokens Ht _ IH]; intros st; [by eexists|].
  simpl. destruct (scanPackage_accepted st t Ht) as [st' ->]. apply IH.
Qed.

Lemma scanPackages_inr_accepted st st' tokens :
  scanPackages st tokens = inr st' → Forall (λ t, accepted t = true) tokens.
Proof.
  revert st. induction tokens as [|t tokens IH]; intros st; [done|]. simpl.
  destruct (accepted t) eqn:Ht.
  - destruct (scanPackage st t) as [|st1]; [done|]. intros H. constructor; eauto.
  - by destruct (scanPackage_not_accepted st t Ht) as [err ->].
Qed.

(** An error of the loop is the error of a line that is not accepted. *)
Lemma scanPackages_inl st tokens err :
  scanPackages st tokens = inl err →
  ∃ u, u ∈ tokens ∧ accepted u = false
    ∧ (err = UnexpectedLine u
       ∨ hasByte colon u = true ∧ err = UnexpectedLineTag (tagOf u)).
Proof.
  revert st. induction tokens as [|t tokens IH]; intros st; [done|]. simpl.
  destruct (accepted t) eqn:Ht.
  - destruct (scanPackage_accepted st t Ht) as [st' ->]. intros H.
    destruct (IH _ H) as (u & Hu & Hrest). exists u. split; [by right|done].
  - destruct (not_accepted_cases t Ht) as [Hne [Hc|(Hc & H1 & H2)]].
    + rewrite scanPackage_no_colon by done. intros [= <-].
      exists t. split; [by left|]. split; [done|by left].
    + rewrite scanPackage_tag by done. intros [= <-].
      exists t. split; [by left|]. split; [done|by right].
Qed.

(** Blank lines leave the initial variables as they are. *)
Lemma scanPackages_blank tokens :
  Forall (λ t, t = "") tokens → scanPackages vars0 tokens = inr vars0.
Proof. induction 1 as [|t tokens -> _ IH]; [done|]. simpl. exact IH. Qed.

(** [parseInstalledPackages] in terms of its loop. *)
Lemma parseInstalledPackages_loop stdout tokens scanErr :
  bufio.scanLines stdout = (tokens, scanErr) →
  parseInstalledPackages stdout =
  match scanPackages vars0 tokens with
  | inl err => (None, None, Some err)
  | inr (pkgs, p, v) =>
    match scanErr with
    | Some err => (None, None, Some (FailedToScan err))
    | None => (Some (store pkgs p v), None, None)
    end
  end.
Proof. intros H. unfold parseInstalledPackages. by rewrite H. Qed.

End PackagesFacts.

(** ** Blocks, records and the inventory *)

Section BlocksFacts.

Import strings xerrors models macos Spec.

Implicit Types (pkgs : gmap string Package) (p v t : string)
  (tokens : list string) (b : list string) (bs : list (list string))
  (r : Package) (rs : list Package).

(** A further line goes to the last block, a blank line opens a new one. *)
Lemma blocks_snoc tokens t :
  ∃ bs b, blocks tokens = bs ++ [b]
    ∧ blocks (tokens ++ [t]) =
      if String.eqb t "" then bs ++ [b; []] else bs ++ [b ++ [t]].
Proof.
  induction tokens as [|u tokens (bs & b & Hbs & Hsnoc)].
  - exists [], []. split; [done|]. simpl. by destruct (String.eqb t "").
  - rewrite <- app_comm_cons. cbn [blocks]. rewrite Hsnoc, Hbs.
    destruct bs as [|c bs]; simpl.
    + destruct (String.eqb u "").
      * exists [[]], b. split; [done|]. by destruct (String.eqb t "").
      * exists [], (u :: b). split; [done|]. by destruct (String.eqb t "").
    + destruct (String.eqb u "").
      * exists ([] :: c :: bs), b. split; [done|]. by destruct (String.eqb t "").
      * exists ((u :: c) :: bs), b. split; [done|]. by destruct (String.eqb t "").
Qed.

Lemma blockValue_snoc label b t :
  blockValue label (b ++ [t]) =
  if labelled label t then TrimSpace (valueOf t) else blockValue label b.
Proof.
  unfold blockValue. rewrite filter_app, filter_cons, filter_nil.
  destruct (labelled label t).
  - rewrite decide_True by done. by rewrite last_snoc.
  - rewrite decide_False by done. by rewrite app_nil_r.
Qed.

(** A line has one tag. *)
Lemma labels_exclusive t :
  labelled pathLabel t = true → labelled versionLabel t = false.
Proof.
  intros [_ H]%labelled_inv. unfold labelled. by rewrite H, andb_false_r.
Qed.

Lemma labels_exclusive' t :
  labelled versionLabel t = true → labelled pathLabel t = false.
Proof.
  intros [_ H]%labelled_inv. unfold labelled. by rewrite H, andb_false_r.
Qed.

Lemma inventory_snoc rs r : inventory (rs ++ [r]) = <[Name r := r]> (inventory rs).
Proof. unfold inventory. by rewrite foldl_snoc. Qed.

(** Storing the pending record of a block adds the record of the block. *)
Lemma store_blockRecord rs b :
  store (inventory rs) (blockValue pathLabel b) (blockVersion b) =
  inventory (rs ++ omap blockRecord [b]).
Proof.
  unfold store, blockRecord. simpl.
  destruct (String.eqb (blockValue pathLabel b) "").
  - by rewrite app_nil_r.
  - by rewrite inventory_snoc.
Qed.

(** The invariant of the loop: the map holds the records of the blocks that
    a blank line has closed, and [p] and [v] the path and the version of the
    block being read. *)
Lemma scanPackages_invariant tokens :
  Forall (λ t, accepted t = true) tokens →
  ∃ bs b, blocks tokens = bs ++ [b]
    ∧ scanPackages vars0 tokens =
      inr (inventory (omap blockRecord bs), blockValue pathLabel b, blockVersion b).
Proof.
  induction tokens as [|t tokens IH] using rev_ind.
  - intros _. by exists [], [].
  - intros [Htokens Ht]%Forall_app. apply (proj1 (Forall_singleton _ _)) in Ht.
    destruct (IH Htokens) as (bs & b & Hbs & Hscan).
    destruct (blocks_snoc tokens t) as (bs' & b' & Hbs' & Hsnoc).
    rewrite Hbs in Hbs'. apply app_inj_tail in Hbs' as [<- <-].
    rewrite scanPackages_snoc, Hscan, Hsnoc.
    destruct (accepted_cases t Ht) as [->|[Hl|Hl]].
    + exists (bs ++ [b]), []. split; [by rewrite <- app_assoc|].
      rewrite scanPackage_blank, store_blockRecord. by rewrite omap_app.
    + rewrite (eqb_false _ _ (labelled_not_blank _ _ Hl)).
      exists bs, (b ++ [t]). split; [done|].
      rewrite scanPackage_path by done. unfold blockVersion.
      by rewrite !blockValue_snoc, Hl, (labels_exclusive t Hl).
    + rewrite (eqb_false _ _ (labelled_not_blank _ _ Hl)).
      exists bs, (b ++ [t]). split; [done|].
      rewrite scanPackage_version by done. unfold blockVersion.
      by rewrite !blockValue_snoc, Hl, (labels_exclusive' t Hl).
Qed.

(** [parseInstalledPackages] on a text it accepts: the inventory of the
    records of its blocks. *)
Lemma parseInstalledPackages_records stdout tokens :
  bufio.scanLines stdout = (tokens, None) →
  Forall (λ t, accepted t = true) tokens →
  parseInstalledPackages stdout = (Some (inventory (records tokens)), None, None).
Proof.
  intros Hscan Hacc. rewrite (parseInstalledPackages_loop _ _ _ Hscan).
  destruct (scanPackages_invariant tokens Hacc) as (bs & b & Hbs & ->).
  rewrite store_blockRecord. unfold records. by rewrite Hbs, omap_app.
Qed.

(** The inventory keeps, under a name, the last record of that name. *)
Lemma inventory_app_lookup rs1 rs2 (m : gmap string Package) n r :
  m !! n = Some r → (∀ r', r' ∈ rs2 → Name r' ≠ n) →
  foldl (λ m r, <[Name r := r]> m) m rs2 !! n = Some r.
Proof.
  revert m. induction rs2 as [|r2 rs2 IH]; intros m Hm Hne; [done|].
  simpl. apply IH.
  - rewrite lookup_insert_ne; [done|]. apply Hne. by left.
  - intros r' Hr'. apply Hne. by right.
Qed.

Lemma inventory_last rs1 r rs2 :
  (∀ r', r' ∈ rs2 → Name r' ≠ Name r) →
  inventory (rs1 ++ r :: rs2) !! Name r = Some r.
Proof.
  intros Hne. unfold inventory. rewrite foldl_app. simpl.
  apply (inventory_app_lookup []); [|done]. apply lookup_insert_eq.
Qed.

(** Every entry is kept under its own name. *)
Lemma inventory_key rs k r : inventory rs !! k = Some r → Name r = k.
Proof.
  revert k r. induction rs as [|r' rs IH] using rev_ind; intros k r.
  - unfold inventory. simpl. by rewrite lookup_empty.
  - rewrite inventory_snoc. destruct (decide (Name r' = k)) as [<-|Hne].
    + rewrite lookup_insert_eq. by intros [= <-].
    + rewrite lookup_insert_ne by done. apply IH.
Qed.

End BlocksFacts.

(** ** [parseInstalledPackages] *)

Section PackagesClaims.

Import strings xerrors models macos Spec.

Implicit Types (pkgs : gmap string Package) (p v t : string)
  (tokens pre post : list string) (r : Package) (rs : list Package).



(** C4, as amended.  Among the lines that the scanner hands out, the parse
    fails at the first line that is not accepted: with the unexpected-line
    error, which quotes the line, when the line is not blank and has no
    colon; with the unexpected-tag error, which names the two labels and
    quotes the tag, when its tag is neither label.  No inventory is
    returned, whatever follows the line and whatever the scanner reports
    after it. *)
Theorem parseInstalledPackages_rejects stdout pre t post scanErr :
  bufio.scanLines stdout = (pre ++ t :: post, scanErr) →
  Forall (λ u, accepted u = true) pre →
  (t ≠ "" → hasByte colon t = false →
     parseInstalledPackages stdout = (None, None, Some (UnexpectedLine t))
     ∧ Error (UnexpectedLine t) =
         "unexpected installed packages line. expected: " +:+ quote
           +:+ "<TAG>: <VALUE>" +:+ quote +:+ ", actual: " +:+ quote +:+ t +:+ quote)
  ∧ (hasByte colon t = true → tagOf t ≠ "Info.plist" →
     tagOf t ≠ "CFBundleShortVersionString" →
     parseInstalledPackages stdout = (None, None, Some (UnexpectedLineTag (tagOf t)))
     ∧ Error (UnexpectedLineTag (tagOf t)) =
         "unexpected installed packages line tag. expected: [" +:+ quote
           +:+ "Info.plist" +:+ quote +:+ ", " +:+ quote
           +:+ "CFBundleShortVersionString" +:+ quote +:+ "], actual: " +:+ quote
           +:+ tagOf t +:+ quote).
Proof.
  intros Hscan Hpre. rewrite (parseInstalledPackages_loop _ _ _ Hscan).
  destruct (scanPackages_accepts vars0 pre Hpre) as [st Hst].
  rewrite scanPackages_app, Hst. cbn [scanPackages]. split.
  - intros Ht Hc. by rewrite scanPackage_no_colon.
  - intros Hc H1 H2. by rewrite scanPackage_tag.
Qed.

(** C5, as amended.  When the scanner reports no error and every line is
    accepted, the parse succeeds whatever names the blocks resolve to; when
    two blocks resolve to the same name, the inventory holds, under that
    name, the record of the later one (the last of that name in scan order)
    and no other entry of that name.  The keys of the inventory are
    distinct. *)
Theorem parseInstalledPackages_last_write_wins stdout tokens rs1 r1 rs2 r2 rs3 :
  bufio.scanLines stdout = (tokens, None) →
  Forall (λ t, accepted t = true) tokens →
  records tokens = rs1 ++ r1 :: rs2 ++ r2 :: rs3 →
  Name r1 = Name r2 →
  (∀ r, r ∈ rs3 → Name r ≠ Name r2) →
  ∃ m, parseInstalledPackages stdout = (Some m, None, None)
    ∧ m !! Name r2 = Some r2
    ∧ (∀ k r, m !! k = Some r → Name r = Name r2 → k = Name r2 ∧ r = r2)
    ∧ NoDup (map_to_list m).*1.
Proof.
  intros Hscan Hacc Hrs Hname Hlast. exists (inventory (records tokens)).
  split; [by apply parseInstalledPackages_records|].
  assert (inventory (records tokens) !! Name r2 = Some r2) as Hr2.
  { rewrite Hrs, app_comm_cons, app_assoc. by apply inventory_last. }
  split; [done|]. split; [|apply NoDup_fst_map_to_list].
  intros k r Hk Hn. pose proof (inventory_key _ _ _ Hk) as <-.
  rewrite Hn in Hk |- *. split; [done|]. congruence.
Qed.

(** C8.  When the loop ends with a path pending, the record is stored
    under its derived name exactly as a blank line would store it, and that
    inventory is what [parseInstalledPackages] returns once the scanner has
    reached the end of the input; a last block of one line, the path line,
    gives a record with the empty string as its version. *)
Theorem end_of_input_finalizes stdout tokens scanErr pkgs p v :
  bufio.scanLines stdout = (tokens, scanErr) →
  scanPackages vars0 tokens = inr (pkgs, p, v) →
  p ≠ "" →
  let n := filepath.Base (TrimSuffix p ".app/Contents/Info.plist") in
  let m := <[n := {| Name := n; Version := v |}]> pkgs in
  scanPackages vars0 (tokens ++ [""]) = inr (m, "", "")
  ∧ parseInstalledPackages stdout =
    match scanErr with
    | None => (Some m, None, None)
    | Some err => (None, None, Some (FailedToScan err))
    end
  ∧ (∀ t, last (blocks tokens) = Some [t] → labelled pathLabel t = true ∧ v = "").
Proof.
  intros Hscan Htokens Hp n m. split; [|split].
  - rewrite scanPackages_snoc, Htokens, scanPackage_blank. by rewrite store_pending.
  - rewrite (parseInstalledPackages_loop _ _ _ Hscan), Htokens.
    by rewrite store_pending.
  - intros t Hlast.
    pose proof (scanPackages_inr_accepted _ _ _ Htokens) as Hacc.
    destruct (scanPackages_invariant tokens Hacc) as (bs & b & Hbs & Hinv).
    rewrite Hbs, last_snoc in Hlast. injection Hlast as ->.
    rewrite Htokens in Hinv. injection Hinv as _ -> ->.
    unfold blockValue in Hp. rewrite filter_cons, filter_nil in Hp.
    destruct (labelled pathLabel t) eqn:Hl.
    + split; [done|]. unfold blockVersion, blockValue.
      rewrite filter_cons, filter_nil, (labels_exclusive t Hl).
      by rewrite decide_False.
    + by rewrite decide_False in Hp.
Qed.

(** C9.  A line is split at its first colon only: for a line [tag:value]
    whose tag has no colon, [Cut] gives the tag and the whole of [value],
    whatever colons it has, and trimming strips no colon.  With one of the
    two labels as its tag the line is read without error: the pending path,
    or the pending version, is the trimmed [value] (the empty string for a
    version that ends with the no-value suffix), and no error the parse
    returns is the unexpected-line error of that line or the unexpected-tag
    error of that tag. *)
Theorem value_keeps_further_colons stdout pre t post scanErr pkgs p v tag value :
  bufio.scanLines stdout = (pre ++ t :: post, scanErr) →
  scanPackages vars0 pre = inr (pkgs, p, v) →
  t = tag +:+ ":" +:+ value →
  hasByte colon tag = false →
  Cut t ":" = (tag, value, true)
  ∧ countByte colon (TrimSpace value) = countByte colon value
  ∧ (tag = "Info.plist" →
     scanPackages vars0 (pre ++ [t]) = inr (pkgs, TrimSpace value, v))
  ∧ (tag = "CFBundleShortVersionString" →
     scanPackages vars0 (pre ++ [t]) =
     inr (pkgs, p,
          if HasSuffix (TrimSpace value)
               "error: No value at that key path or invalid key path: CFBundleShortVersionString"
          then "" else TrimSpace value))
  ∧ (tag = "Info.plist" ∨ tag = "CFBundleShortVersionString" →
     parseInstalledPackages stdout ≠ (None, None, Some (UnexpectedLine t))
     ∧ parseInstalledPackages stdout ≠ (None, None, Some (UnexpectedLineTag tag))).
Proof.
  intros Hscan Hpre -> Htag.
  assert (hasByte colon (tag +:+ ":" +:+ value) = true) as Hc.
  { change (":" +:+ value) with (String colon value).
    rewrite hasByte_app. apply orb_true_iff. by right. }
  assert (tagOf (tag +:+ ":" +:+ value) = tag) as Ht by (by apply before_app).
  assert (valueOf (tag +:+ ":" +:+ value) = value) as Hv by (by apply after_app).
  split; [|split; [|split; [|split]]].
  - by rewrite (Cut_colon _ Hc), Ht, Hv.
  - by apply TrimSpace_countByte.
  - intros Hp. rewrite scanPackages_snoc, Hpre, scanPackage_path, Hv; [done|].
    unfold labelled. by rewrite Hc, Ht, Hp.
  - intros Hp. rewrite scanPackages_snoc, Hpre, scanPackage_version, Hv; [done|].
    unfold labelled. by rewrite Hc, Ht, Hp.
  - intros Hlabel. rewrite (parseInstalledPackages_loop _ _ _ Hscan).
    assert (∀ u, hasByte colon u = true → tagOf u = tag → accepted u = true) as Hacc.
    { intros u Hu Htu. unfold accepted, labelled. rewrite Hu, Htu.
      destruct Hlabel as [-> | ->]; apply orb_true_iff; [left|by right].
      apply orb_true_iff. by right. }
    destruct (scanPackages vars0 (pre ++ _ :: post)) as [err|[[pkgs' p'] v']] eqn:Hloop;
      [|by destruct scanErr].
    apply scanPackages_inl in Hloop as (u & _ & Hu & Herr).
    split; intros [= ->].
    + destruct Herr as [[= <-]|[_ [=]]]. by rewrite Hacc in Hu.
    + destruct Herr as [[=]|[Hcu [= Htu]]]. by rewrite Hacc in Hu.
Qed.

(** C10.  For a text of blank lines only, the empty text among them,
    [parseInstalledPackages] returns an empty inventory, which is not [nil],
    a [nil] map of source packages, and no error. *)
Theorem parseInstalledPackages_blank stdout :
  Forall (λ l, blankLine l = true) (bufio.rawLines stdout) →
  parseInstalledPackages stdout = (Some ∅, None, None).
Proof.
  intros Hblank.
  assert (bufio.scanLines stdout = (bufio.textLines stdout, None)) as Hscan.
  { apply deliver_short. eapply Forall_impl; [exact Hblank|].
    intros l [->%String.eqb_eq| ->%String.eqb_eq]%orb_true_iff;
      unfold len, bufio.MaxScanTokenSize; cbn [String.length]; lia. }
  rewrite (parseInstalledPackages_loop _ _ _ Hscan), scanPackages_blank; [done|].
  unfold bufio.textLines. apply Forall_fmap. eapply Forall_impl; [exact Hblank|].
  by intros l [->%String.eqb_eq| ->%String.eqb_eq]%orb_true_iff.
Qed.

End PackagesClaims.

(** ** The claims on the sample texts *)

Import strings xerrors models macos Spec Samples.

(** The cases of [Test_parseSWVers] and [Test_macos_parseInstalledPackages]. *)

Example Test_parseSWVers_Mac_OS_X :
  parseSWVers "macos_x" "macos_x_server" "macos" "macos_server"
    (sw_vers "Mac OS X" "10.3" "7A100") = ("macos_x", "10.3", None).
Proof. vm_compute. reflexivity. Qed.

Example Test_parseSWVers_Mac_OS_X_Server :
  parseSWVers "macos_x" "macos_x_server" "macos" "macos_server"
    (sw_vers "Mac OS X Server" "10.6.8" "10K549") = ("macos_x_server", "10.6.8", None).
Proof. vm_compute. reflexivity. Qed.

Example Test_parseSWVers_MacOS :
  parseSWVers "macos_x" "macos_x_server" "macos" "macos_server"
    (sw_vers "macOS" "13.4.1" "22F82") = ("macos", "13.4.1", None).
Proof. vm_compute. reflexivity. Qed.

Example Test_parseSWVers_MacOS_Server :
  parseSWVers "macos_x" "macos_x_server" "macos" "macos_server"
    (sw_vers "macOS Server" "13.4.1" "22F82") = ("macos_server", "13.4.1", None).
Proof. vm_compute. reflexivity. Qed.

Example Test_parseSWVers_ProductName_error :
  parseSWVers "macos_x" "macos_x_server" "macos" "macos_server"
    (sw_vers "MacOS" "13.4.1" "22F82") = ("", "", Some (UnexpectedProductName "MacOS")).
Proof. vm_compute. reflexivity. Qed.

Example Test_parseSWVers_ProductVersion_error :
  parseSWVers "macos_x" "macos_x_server" "macos" "macos_server"
    (sw_vers "macOS" "" "22F82") = ("", "", Some ProductVersionIsEmpty).
Proof. vm_compute. reflexivity. Qed.

Example Test_macos_parseInstalledPackages_happy :
  parseInstalledPackages happy = (Some happyInventory, None, None)
  ∧ size happyInventory = 5.
Proof. split; vm_compute; reflexivity. Qed.

(** The empty text; a line of spaces is not a blank line; and the suffix
    the parser tests for is shorter than the sentinel of the
    specification. *)
Example empty_text : parseInstalledPackages "" = (Some ∅, None, None).
Proof. vm_compute. reflexivity. Qed.

Example spaces_are_not_blank :
  parseInstalledPackages "  " = (None, None, Some (UnexpectedLine "  ")).
Proof. vm_compute. reflexivity. Qed.

Example shorter_suffix :
  HasSuffix sentinel noValueSuffix = true
  ∧ HasSuffix noValueSuffix sentinel = false
  ∧ scanPackage (∅, "/Applications/Safari.app/Contents/Info.plist", "16.5.1")
      ("CFBundleShortVersionString: " +:+ noValueSuffix)
    = inr (∅, "/Applications/Safari.app/Contents/Info.plist", "").
Proof. repeat split; vm_compute; reflexivity. Qed.

Lemma parseSWVers_recognized_witness :
  parseSWVers "macos_x" "macos_x_server" "macos" "macos_server"
    (sw_vers "Mac OS X Server" "10.6.8" "10K549")
  = ("macos_x_server", "10.6.8", None).
Proof.
  apply (parseSWVers_recognized _ _ _ _ _
           (bufio.textLines (sw_vers "Mac OS X Server" "10.6.8" "10K549"))
           "Mac OS X Server").
  - vm_compute. reflexivity.
  - vm_compute. reflexivity.
  - apply (list_elem_of_lookup_2 _ 1). reflexivity.
  - vm_compute. reflexivity.
  - discriminate.
Defined.

Lemma parseSWVers_unexpected_name_witness :
  parseSWVers "macos_x" "macos_x_server" "macos" "macos_server"
    (sw_vers "MacOS" "13.4.1" "22F82")
  = ("", "", Some (UnexpectedProductName "MacOS")).
Proof.
  apply (parseSWVers_unexpected_name _ _ _ _ _
           (bufio.textLines (sw_vers "MacOS" "13.4.1" "22F82")) "MacOS").
  - vm_compute. reflexivity.
  - vm_compute. reflexivity.
  - unfold productNames. rewrite !not_elem_of_cons, elem_of_nil.
    repeat split; try discriminate. tauto.
Defined.

Lemma parseSWVers_empty_version_witness :
  parseSWVers "macos_x" "macos_x_server" "macos" "macos_server"
    (sw_vers "macOS" "" "22F82")
  = ("", "", Some ProductVersionIsEmpty).
Proof.
  apply (parseSWVers_empty_version _ _ _ _ _
           (bufio.textLines (sw_vers "macOS" "" "22F82")) "macOS").
  - vm_compute. reflexivity.
  - vm_compute. reflexivity.
  - vm_compute. reflexivity.
  - apply (list_elem_of_lookup_2 _ 2). reflexivity.
Defined.



Lemma parseInstalledPackages_rejects_witness :
  parseInstalledPackages noColon = (None, None, Some (UnexpectedLine "Safari 16.5.1"))
  ∧ parseInstalledPackages otherTag =
    (None, None, Some (UnexpectedLineTag "CFBundleVersion")).
Proof.
  split.
  - destruct (parseInstalledPackages_rejects noColon
                (bufio.textLines happy ++ [""]) "Safari 16.5.1" [pathOnly] None)
      as ((H & _) & _).
    + vm_compute. reflexivity.
    + apply Forall_forall. intros u Hu. apply list_elem_of_In in Hu.
      vm_compute in Hu. vm_compute. intuition (subst; reflexivity).
    + discriminate.
    + reflexivity.
    + exact H.
  - destruct (parseInstalledPackages_rejects otherTag
                [pathOnly] "CFBundleVersion: 18615.2.9" [] None)
      as (_ & H).
    + vm_compute. reflexivity.
    + repeat constructor.
    + destruct H as (H & _); [reflexivity|discriminate|discriminate|exact H].
Defined.

Lemma parseInstalledPackages_last_write_wins_witness :
  ∃ m, parseInstalledPackages twice = (Some m, None, None)
    ∧ m !! "Safari" = Some (safari "17.0")
    ∧ (∀ k r, m !! k = Some r → Name r = "Safari" → k = "Safari" ∧ r = safari "17.0")
    ∧ NoDup (map_to_list m).*1.
Proof.
  apply (parseInstalledPackages_last_write_wins twice (bufio.textLines twice)
           [] (safari "16.5.1") [] (safari "17.0") []).
  - vm_compute. reflexivity.
  - repeat constructor.
  - vm_compute. reflexivity.
  - reflexivity.
  - intros r Hr. by apply elem_of_nil in Hr.
Defined.

Lemma end_of_input_finalizes_witness :
  parseInstalledPackages pathOnly = (Some {["Safari" := safari ""]}, None, None).
Proof.
  destruct (end_of_input_finalizes pathOnly [pathOnly] None ∅
              "/Applications/Safari.app/Contents/Info.plist" "")
    as (_ & H & _).
  - vm_compute. reflexivity.
  - vm_compute. reflexivity.
  - discriminate.
  - rewrite H. vm_compute. reflexivity.
Defined.

Lemma value_keeps_further_colons_witness :
  Cut contactsVersionLine ":" =
  ("CFBundleShortVersionString",
   " " +:+ contactsPath
   +:+ ": Could not extract value, error: No value at that key path or invalid key path: CFBundleShortVersionString"
   +:+ tab, true)
  ∧ scanPackages vars0 (happyBefore ++ [contactsVersionLine]) =
    inr (delete "Contacts" happyInventory, contactsPath, "").
Proof.
  destruct (value_keeps_further_colons happy happyBefore contactsVersionLine []
              None (delete "Contacts" happyInventory) contactsPath ""
              "CFBundleShortVersionString"
              (" " +:+ contactsPath
               +:+ ": Could not extract value, error: No value at that key path or invalid key path: CFBundleShortVersionString"
               +:+ tab))
    as (Hcut & _ & _ & H & _).
  - vm_compute. reflexivity.
  - vm_compute. reflexivity.
  - reflexivity.
  - reflexivity.
  - split; [exact Hcut|]. rewrite H by reflexivity. vm_compute. reflexivity.
Defined.

Lemma parseInstalledPackages_blank_witness :
  parseInstalledPackages blanks = (Some ∅, None, None).
Proof.
  apply parseInstalledPackages_blank. repeat constructor.
Defined.


(** ** A line of [bufio.MaxScanTokenSize] bytes

    The scanner gives up at such a line; both parsers then return the error
    of the scanner, whatever the lines handed out before it say. *)

(** C1 as stated fails: the scanner hands out the three lines of the report
    of macOS 13.4.1, the [ProductName] line carries [macOS] and the product
    version is [13.4.1], and [parseSWVers] does not succeed. *)
Lemma parseSWVers_recognized_long_line :
  bufio.scanLines (sw_vers_long "macOS" "13.4.1" "22F82")
  = (bufio.textLines (sw_vers "macOS" "13.4.1" "22F82"), Some bufio.ErrTooLong)
  ∧ lastValue productNameKey (bufio.textLines (sw_vers "macOS" "13.4.1" "22F82"))
    = "macOS"
  ∧ lastValue productVersionKey (bufio.textLines (sw_vers "macOS" "13.4.1" "22F82"))
    = "13.4.1"
  ∧ ∀ MacOSX MacOSXServer MacOS MacOSServer,
      parseSWVers MacOSX MacOSXServer MacOS MacOSServer
        (sw_vers_long "macOS" "13.4.1" "22F82")
      = ("", "", Some (FailedToScan bufio.ErrTooLong)).
Proof.
  split; [|split; [|split]].
  - vm_compute. reflexivity.
  - vm_compute. reflexivity.
  - vm_compute. reflexivity.
  - intros. vm_compute. reflexivity.
Qed.

(** C6 as stated fails: the captured product name is [MacOS], which is none
    of the four literals, and the error is not the unexpected-product-name
    error. *)
Lemma parseSWVers_unexpected_name_long_line :
  bufio.scanLines (sw_vers_long "MacOS" "13.4.1" "22F82")
  = (bufio.textLines (sw_vers "MacOS" "13.4.1" "22F82"), Some bufio.ErrTooLong)
  ∧ lastValue productNameKey (bufio.textLines (sw_vers "MacOS" "13.4.1" "22F82"))
    = "MacOS"
  ∧ ("MacOS" ∉ productNames)
  ∧ ∀ MacOSX MacOSXServer MacOS MacOSServer,
      parseSWVers MacOSX MacOSXServer MacOS MacOSServer
        (sw_vers_long "MacOS" "13.4.1" "22F82")
      = ("", "", Some (FailedToScan bufio.ErrTooLong)).
Proof.
  split; [|split; [|split]].
  - vm_compute. reflexivity.
  - vm_compute. reflexivity.
  - unfold productNames. rewrite !not_elem_of_cons, elem_of_nil.
    repeat split; try discriminate. tauto.
  - intros. vm_compute. reflexivity.
Qed.

(** C7 as stated fails: the product name is [macOS], the product version is
    empty after trimming, and the error is not the missing-product-version
    error. *)
Lemma parseSWVers_empty_version_long_line :
  bufio.scanLines (sw_vers_long "macOS" "" "22F82")
  = (bufio.textLines (sw_vers "macOS" "" "22F82"), Some bufio.ErrTooLong)
  ∧ lastValue productNameKey (bufio.textLines (sw_vers "macOS" "" "22F82")) = "macOS"
  ∧ lastValue productVersionKey (bufio.textLines (sw_vers "macOS" "" "22F82")) = ""
  ∧ ∀ MacOSX MacOSXServer MacOS MacOSServer,
      parseSWVers MacOSX MacOSXServer MacOS MacOSServer
        (sw_vers_long "macOS" "" "22F82")
      = ("", "", Some (FailedToScan bufio.ErrTooLong)).
Proof.
  split; [|split; [|split]].
  - vm_compute. reflexivity.
  - vm_compute. reflexivity.
  - vm_compute. reflexivity.
  - intros. vm_compute. reflexivity.
Qed.

(** C4 as stated fails.  The second line of [noColon_long] is not blank and
    has no colon, and the line before it carries the path label; but that
    line has more than [bufio.MaxScanTokenSize] bytes, the scanner hands out
    neither line, and the error is the error of the scanner, not the
    unexpected-line error.  The same holds of a text that is one line of
    [bufio.MaxScanTokenSize] bytes without a colon. *)
Lemma parseInstalledPackages_rejects_long_line :
  (bufio.rawLines noColon_long !! 1 = Some "Safari 16.5.1"
   ∧ forallb accepted (take 1 (bufio.rawLines noColon_long)) = true
   ∧ hasByte colon "Safari 16.5.1" = false
   ∧ bufio.scanLines noColon_long = ([], Some bufio.ErrTooLong)
   ∧ parseInstalledPackages noColon_long
     = (None, None, Some (FailedToScan bufio.ErrTooLong)))
  ∧ (longLine ≠ ""
     ∧ hasByte bufio.newline longLine = false
     ∧ hasByte colon longLine = false
     ∧ parseInstalledPackages longLine
       = (None, None, Some (FailedToScan bufio.ErrTooLong))).
Proof.
  split; [split; [|split; [|split; [|split]]]|split; [|split; [|split]]].
  - vm_compute. reflexivity.
  - vm_compute. reflexivity.
  - vm_compute. reflexivity.
  - vm_compute. reflexivity.
  - vm_compute. reflexivity.
  - discriminate.
  - vm_compute. reflexivity.
  - vm_compute. reflexivity.
  - vm_compute. reflexivity.
Qed.

(** C5 as stated fails: the scanner hands out the two blocks of [twice] and
    the blank line after them, lines that are all accepted; both blocks
    resolve to [Safari]; the lines of the whole text are accepted too; and
    [parseInstalledPackages] does not succeed. *)
Lemma parseInstalledPackages_last_write_wins_long_line :
  bufio.scanLines twice_long = (bufio.textLines twice ++ [""], Some bufio.ErrTooLong)
  ∧ forallb accepted (bufio.textLines twice ++ [""]) = true
  ∧ records (bufio.textLines twice ++ [""]) = [safari "16.5.1"; safari "17.0"]
  ∧ forallb accepted (bufio.textLines twice_long) = true
  ∧ parseInstalledPackages twice_long
    = (None, None, Some (FailedToScan bufio.ErrTooLong)).
Proof.
  split; [|split; [|split; [|split]]].
  - vm_compute. reflexivity.
  - vm_compute. reflexivity.
  - vm_compute. reflexivity.
  - vm_compute. reflexivity.
  - vm_compute. reflexivity.
Qed.


(** * Further properties of the code *)

(** ** [parseSWVers]: when it succeeds, and what it returns *)

Section SWVersMore.

Import Lines.

Variables MacOSX MacOSXServer MacOS MacOSServer : string.

Local Abbreviation parseSWVers := (parseSWVers MacOSX MacOSXServer MacOS MacOSServer).
Local Abbreviation switchName := (switchName MacOSX MacOSXServer MacOS MacOSServer).
Local Abbreviation productFamilies := (productFamilies MacOSX MacOSXServer MacOS MacOSServer).

Lemma filter_none {A} (P : A → Prop) `{∀ x, Decision (P x)} (l : list A) :
  Forall (λ x, ¬ P x) l → filter P l = [].
Proof.
  induction 1 as [|x l Hx _ IH]; [reflexivity|].
  by rewrite filter_cons_False.
Qed.

Lemma parseSWVers_tokens (stdout : string) (tokens : list string) scanErr :
  bufio.scanLines stdout = (tokens, scanErr) →
  parseSWVers stdout =
  match scanErr with
  | Some err => ("", "", Some (FailedToScan err))
  | None =>
    match switchName (lastValue productNameKey tokens) with
    | None => ("", "", Some (UnexpectedProductName (lastValue productNameKey tokens)))
    | Some family =>
      if String.eqb (lastValue productVersionKey tokens) ""
      then ("", "", Some ProductVersionIsEmpty)
      else (family, lastValue productVersionKey tokens, None)
    end
  end.
Proof.
  intros H. unfold macos.parseSWVers. rewrite H, foldl_scanSWVers. reflexivity.
Qed.

Lemma switchName_inv (name family : string) :
  switchName name = Some family → (name, family) ∈ productFamilies.
Proof.
  unfold macos.switchName, Spec.productFamilies.
  repeat match goal with
         | |- context [String.eqb ?a ?b] =>
           destruct (String.eqb_spec a b) as [->|_];
             [intros [= <-]; rewrite !elem_of_cons; tauto|]
         end.
  discriminate.
Qed.

Lemma switchName_None (name : string) :
  switchName name = None → name ∉ productNames.
Proof.
  unfold macos.switchName, productNames.
  repeat match goal with
         | |- context [String.eqb ?a ?b] =>
           destruct (String.eqb_spec a b) as [->|?]; [discriminate|]
         end.
  intros _. rewrite !not_elem_of_cons, elem_of_nil. tauto.
Qed.

Lemma too_long_error (stdout : string) (l : string) :
  l ∈ bufio.rawLines stdout → bufio.MaxScanTokenSize ≤ len l →
  (bufio.scanLines stdout).2 = Some bufio.ErrTooLong.
Proof.
  intros Hl Hlen.
  destruct (bufio.scanLines stdout).2 as [[]|] eqn:E; [reflexivity|].
  apply scanLines_error_iff in E.
  apply (proj1 (Forall_forall _ _) E) in Hl. lia.
Qed.

(** X1.  [parseSWVers] succeeds with a family and a version exactly when
    the scanner reports no error, the last [ProductName:] line carries the
    literal of that family, and the last [ProductVersion:] line carries that
    version, which is not empty. *)
Theorem parseSWVers_succeeds_iff (stdout : string) (tokens : list string)
    scanErr (family version : string) :
  bufio.scanLines stdout = (tokens, scanErr) →
  parseSWVers stdout = (family, version, None) ↔
  scanErr = None
  ∧ (lastValue productNameKey tokens, family) ∈ productFamilies
  ∧ lastValue productVersionKey tokens = version
  ∧ version ≠ "".
Proof.
  intros H. rewrite (parseSWVers_tokens _ _ _ H). split.
  - destruct scanErr; [discriminate|].
    destruct (switchName _) eqn:Hname; [|discriminate].
    destruct (String.eqb_spec (lastValue productVersionKey tokens) "");
      [discriminate|].
    intros [= <- <-]. by split; [|split; [apply switchName_inv|]].
  - intros (-> & Hfam & <- & Hne).
    rewrite (switchName_family _ _ _ _ _ _ Hfam).
    by rewrite (eqb_false _ _ Hne).
Qed.

Lemma parseSWVers_failure (stdout family version : string) err :
  parseSWVers stdout = (family, version, Some err) → family = "" ∧ version = "".
Proof.
  destruct (bufio.scanLines stdout) as [tokens scanErr] eqn:H.
  rewrite (parseSWVers_tokens _ _ _ H).
  destruct scanErr; [by intros [= <- <-]|].
  destruct (switchName _); [|by intros [= <- <-]].
  destruct (String.eqb _ ""); [by intros [= <- <-]|discriminate].
Qed.

Lemma parseSWVers_success (stdout family version : string) :
  parseSWVers stdout = (family, version, None) →
  version ≠ "" ∧ family ∈ [MacOSX; MacOSXServer; MacOS; MacOSServer].
Proof.
  destruct (bufio.scanLines stdout) as [tokens scanErr] eqn:H.
  rewrite (parseSWVers_tokens _ _ _ H).
  destruct scanErr; [discriminate|].
  destruct (switchName _) as [fam|] eqn:Hname; [|discriminate].
  destruct (String.eqb_spec (lastValue productVersionKey tokens) "") as [|Hne];
    [discriminate|].
  intros [= <- <-]. split; [exact Hne|].
  apply switchName_inv in Hname. unfold Spec.productFamilies in Hname.
  rewrite !elem_of_cons, elem_of_nil in Hname. rewrite !elem_of_cons.
  destruct Hname as [[= _ ->]|[[= _ ->]|[[= _ ->]|[[= _ ->]|[]]]]]; tauto.
Qed.

(** X2.  When [parseSWVers] returns an error, the two strings it returns
    are empty, and the error is the scanner's, or names a product name that
    is none of the four literals, or is the empty-version error; when it
    returns no error, the version is not empty and the family is one of the
    four family constants. *)
Theorem parseSWVers_all_or_nothing (stdout family version : string) err :
  parseSWVers stdout = (family, version, err) →
  match err with
  | Some err =>
    family = "" ∧ version = ""
    ∧ ((∃ e, err = FailedToScan e)
       ∨ (∃ name, err = UnexpectedProductName name ∧ name ∉ productNames)
       ∨ err = ProductVersionIsEmpty)
  | None =>
    version ≠ "" ∧ family ∈ [MacOSX; MacOSXServer; MacOS; MacOSServer]
  end.
Proof.
  destruct err as [err|]; [|apply parseSWVers_success].
  intros Hparse. destruct (parseSWVers_failure _ _ _ _ Hparse) as [-> ->].
  split; [reflexivity|]. split; [reflexivity|]. revert Hparse.
  destruct (bufio.scanLines stdout) as [tokens scanErr] eqn:H.
  rewrite (parseSWVers_tokens _ _ _ H).
  destruct scanErr as [e|]; [intros [= <-]; by eauto|].
  destruct (switchName _) as [fam|] eqn:Hname.
  - destruct (String.eqb _ ""); [|discriminate]. intros [= <-]. by eauto.
  - intros [= <-]. apply switchName_None in Hname. by eauto 6.
Qed.

(** X3.  A report with a line of [bufio.MaxScanTokenSize] bytes or more is
    refused with the error of the scanner, whatever its lines say. *)
Theorem parseSWVers_too_long (stdout : string) (l : string) :
  l ∈ bufio.rawLines stdout → bufio.MaxScanTokenSize ≤ len l →
  parseSWVers stdout = ("", "", Some (FailedToScan bufio.ErrTooLong)).
Proof.
  intros Hl Hlen. pose proof (too_long_error _ _ Hl Hlen) as E.
  destruct (bufio.scanLines stdout) as [tokens scanErr] eqn:H.
  simpl in E. subst scanErr. by rewrite (parseSWVers_tokens _ _ _ H).
Qed.

(** X4.  On two reports for which the scanner reports the same outcome
    (no error for both, or the same error), the result of [parseSWVers]
    depends only on the last line handed out that starts with
    [ProductName:] and on the last line handed out that starts with
    [ProductVersion:]: other lines are ignored, and so is a line with one
    of the keys when a later line has the same key. *)
Theorem parseSWVers_last_lines (stdout1 stdout2 : string)
    (tokens1 tokens2 : list string) scanErr :
  bufio.scanLines stdout1 = (tokens1, scanErr) →
  bufio.scanLines stdout2 = (tokens2, scanErr) →
  lastLine productNameKey tokens1 = lastLine productNameKey tokens2 →
  lastLine productVersionKey tokens1 = lastLine productVersionKey tokens2 →
  parseSWVers stdout1 = parseSWVers stdout2.
Proof.
  intros H1 H2 Hname Hversion.
  rewrite (parseSWVers_tokens _ _ _ H1), (parseSWVers_tokens _ _ _ H2).
  unfold lastLine in Hname, Hversion. unfold lastValue.
  by rewrite Hname, Hversion.
Qed.

(** X5.  A report that the scanner reads without error and in which no line
    starts with [ProductName:] is refused with the product-name error for
    the empty name; one in which no line starts with [ProductVersion:] is
    refused too, with that error or with the empty-version error. *)
Theorem parseSWVers_missing_key (stdout : string) (tokens : list string) :
  bufio.scanLines stdout = (tokens, None) →
  (Forall (λ t, HasPrefix t productNameKey = false) tokens →
   parseSWVers stdout = ("", "", Some (UnexpectedProductName "")))
  ∧ (Forall (λ t, HasPrefix t productVersionKey = false) tokens →
     parseSWVers stdout = ("", "", Some ProductVersionIsEmpty)
     ∨ ∃ name, (name ∉ productNames)
         ∧ parseSWVers stdout = ("", "", Some (UnexpectedProductName name))).
Proof.
  intros H. rewrite (parseSWVers_tokens _ _ _ H).
  assert (∀ key, Forall (λ t, HasPrefix t key = false) tokens →
                 lastValue key tokens = "") as Hnone.
  { intros key Hall. unfold lastValue.
    rewrite filter_none; [reflexivity|].
    eapply Forall_impl; [exact Hall|]. simpl. intros t Ht. by rewrite Ht. }
  split; intros Hall; rewrite (Hnone _ Hall).
  - rewrite switchName_default; [reflexivity|].
    unfold productNames. rewrite !not_elem_of_cons, elem_of_nil.
    repeat split; try discriminate. tauto.
  - destruct (switchName _) eqn:Hname; [by left|].
    right. eexists. split; [|reflexivity]. by apply switchName_None.
Qed.

End SWVersMore.

(** ** [parseInstalledPackages]: when it succeeds, and what the inventory
    holds *)

Section PackagesMore.

Import Lines.

Local Abbreviation scanPackages := macos.scanPackages.

Lemma parseInstalledPackages_Some stdout tokens scanErr m :
  bufio.scanLines stdout = (tokens, scanErr) →
  parseInstalledPackages stdout = (Some m, None, None) →
  scanErr = None
  ∧ Forall (λ t, accepted t = true) tokens
  ∧ m = inventory (records tokens).
Proof.
  intros H Hm. pose proof Hm as Hm'.
  rewrite (parseInstalledPackages_loop _ _ _ H) in Hm'.
  destruct (scanPackages vars0 tokens) as [err|[[pkgs p] v]] eqn:Hloop;
    [discriminate|].
  destruct scanErr; [discriminate|].
  pose proof (scanPackages_inr_accepted _ _ _ Hloop) as Hacc.
  split; [reflexivity|]. split; [exact Hacc|].
  rewrite (parseInstalledPackages_records _ _ H Hacc) in Hm.
  by injection Hm as <-.
Qed.

Lemma inventory_elem rs k r : inventory rs !! k = Some r → r ∈ rs.
Proof.
  induction rs as [|r' rs IH] using rev_ind.
  - unfold inventory. simpl. by rewrite lookup_empty.
  - rewrite inventory_snoc, elem_of_app, list_elem_of_singleton.
    destruct (decide (Name r' = k)) as [<-|Hne].
    + rewrite lookup_insert_eq. intros [= <-]. by right.
    + rewrite lookup_insert_ne by done. intros Hr. left. by apply IH.
Qed.

Lemma blocks_elem tokens b t : b ∈ blocks tokens → t ∈ b → t ∈ tokens.
Proof.
  revert b. induction tokens as [|t0 tokens IH]; intros b.
  - simpl. rewrite list_elem_of_singleton. intros -> Ht. exact Ht.
  - simpl. destruct (blocks tokens) as [|b0 bs] eqn:Hbs.
    + rewrite list_elem_of_singleton. intros -> Ht. revert Ht.
      rewrite !list_elem_of_singleton. intros ->. by left.
    + destruct (String.eqb t0 "").
      * rewrite elem_of_cons. intros [->|Hb] Ht; [by apply elem_of_nil in Ht|].
        right. by apply (IH b).
      * rewrite elem_of_cons. intros [->|Hb] Ht.
        -- apply elem_of_cons in Ht as [->|Ht]; [by left|].
           right. apply (IH b0); [by left|exact Ht].
        -- right. apply (IH b); [by right|exact Ht].
Qed.

Lemma blockValue_elem label b :
  blockValue label b ≠ "" →
  ∃ t, t ∈ b ∧ labelled label t = true ∧ blockValue label b = TrimSpace (valueOf t).
Proof.
  unfold blockValue.
  destruct (last (filter _ b)) as [t|] eqn:Hlast; [|done].
  intros _. apply last_Some_elem_of, list_elem_of_filter in Hlast as [Ht Hin].
  by exists t.
Qed.

Lemma record_elem tokens r :
  r ∈ records tokens →
  ∃ b, b ∈ blocks tokens
    ∧ blockValue pathLabel b ≠ ""
    ∧ r = {| Name := derivedName (blockValue pathLabel b);
             Version := blockVersion b |}.
Proof.
  unfold records. rewrite list_elem_of_omap. intros (b & Hb & Hr).
  exists b. split; [exact Hb|]. unfold blockRecord in Hr.
  destruct (String.eqb_spec (blockValue pathLabel b) ""); [discriminate|].
  by injection Hr as <-.
Qed.

(** X6.  [parseInstalledPackages] returns an inventory exactly when the
    scanner reports no error and every line is blank or carries one of the
    two labels; the inventory then holds the records of the blocks, filed
    one after the other under their names.  Otherwise it returns an error
    and no inventory. *)
Theorem parseInstalledPackages_succeeds_iff stdout tokens scanErr :
  bufio.scanLines stdout = (tokens, scanErr) →
  (∀ m, parseInstalledPackages stdout = (Some m, None, None) ↔
        scanErr = None
        ∧ Forall (λ t, accepted t = true) tokens
        ∧ m = inventory (records tokens))
  ∧ ((∃ m, parseInstalledPackages stdout = (Some m, None, None))
     ∨ (∃ err, parseInstalledPackages stdout = (None, None, Some err))).
Proof.
  intros H. split.
  - intros m. split; [by apply parseInstalledPackages_Some|].
    intros (-> & Hacc & ->). by apply parseInstalledPackages_records.
  - rewrite (parseInstalledPackages_loop _ _ _ H).
    destruct (scanPackages vars0 tokens) as [err|[[pkgs p] v]]; [by eauto|].
    destruct scanErr; by eauto.
Qed.

(** X7.  Every entry of the inventory is filed under its own name, the name
    is not empty, and it is the name derived from the trimmed value of a
    line of the listing that carries the path label. *)
Theorem parseInstalledPackages_names stdout tokens scanErr m k r :
  bufio.scanLines stdout = (tokens, scanErr) →
  parseInstalledPackages stdout = (Some m, None, None) →
  m !! k = Some r →
  Name r = k
  ∧ k ≠ ""
  ∧ ∃ t, t ∈ tokens
      ∧ labelled pathLabel t = true
      ∧ TrimSpace (valueOf t) ≠ ""
      ∧ k = filepath.Base (TrimSuffix (TrimSpace (valueOf t))
                             ".app/Contents/Info.plist").
Proof.
  intros H Hm Hk.
  destruct (parseInstalledPackages_Some _ _ _ _ H Hm) as (_ & _ & ->).
  pose proof (inventory_key _ _ _ Hk) as Hname.
  apply inventory_elem, record_elem in Hk as (b & Hb & Hpath & ->).
  simpl in Hname. subst k.
  split; [reflexivity|]. split; [apply Base_not_empty|].
  destruct (blockValue_elem _ _ Hpath) as (t & Ht & Hlab & Hval).
  exists t. rewrite <- Hval.
  split; [by apply (blocks_elem _ b)|]. by split; [|split].
Qed.

(** X8.  No version in the inventory ends with the no-value suffix, and a
    version that is not empty is the trimmed value of a line of the listing
    that carries the version label. *)
Theorem parseInstalledPackages_versions stdout tokens scanErr m k r :
  bufio.scanLines stdout = (tokens, scanErr) →
  parseInstalledPackages stdout = (Some m, None, None) →
  m !! k = Some r →
  HasSuffix (Version r) noValueSuffix = false
  ∧ (Version r ≠ "" →
     ∃ t, t ∈ tokens
       ∧ labelled versionLabel t = true
       ∧ Version r = TrimSpace (valueOf t)).
Proof.
  intros H Hm Hk.
  destruct (parseInstalledPackages_Some _ _ _ _ H Hm) as (_ & _ & ->).
  apply inventory_elem, record_elem in Hk as (b & Hb & _ & ->).
  simpl. unfold blockVersion.
  destruct (HasSuffix (blockValue versionLabel b) noValueSuffix) eqn:Hsfx.
  - split; [reflexivity|]. done.
  - split; [exact Hsfx|]. intros Hne.
    destruct (blockValue_elem _ _ Hne) as (t & Ht & Hlab & Hval).
    exists t. split; [by apply (blocks_elem _ b)|]. by split.
Qed.

(** *** The loop inside a block *)

Lemma scanPackages_block pkgs p v b :
  Forall (λ t, labelledLine t = true) b →
  scanPackages (pkgs, p, v) b =
  inr (pkgs,
       match lastLabelled pathLabel b with
       | Some t => TrimSpace (valueOf t)
       | None => p
       end,
       match lastLabelled versionLabel b with
       | Some t => noValue (TrimSpace (valueOf t))
       | None => v
       end).
Proof.
  intros Hb. revert p v. induction Hb as [|t b Ht _ IH]; intros p v.
  - reflexivity.
  - unfold lastLabelled in *. cbn [macos.scanPackages].
    apply orb_true_iff in Ht as [Ht|Ht].
    + rewrite (scanPackage_path _ _ _ _ Ht), IH.
      rewrite (filter_cons_True (λ t, labelled pathLabel t = true)) by done.
      rewrite (filter_cons_False (λ t, labelled versionLabel t = true));
        [|by rewrite (labels_exclusive _ Ht)].
      rewrite last_cons.
      by destruct (last (filter (λ t, labelled pathLabel t = true) b)).
    + rewrite (scanPackage_version _ _ _ _ Ht), IH.
      rewrite (filter_cons_True (λ t, labelled versionLabel t = true)) by done.
      rewrite (filter_cons_False (λ t, labelled pathLabel t = true));
        [|by rewrite (labels_exclusive' _ Ht)].
      rewrite last_cons.
      by destruct (last (filter (λ t, labelled versionLabel t = true) b)).
Qed.

Lemma scanPackages_after_blank pre :
  pre = [] ∨ last pre = Some "" →
  match scanPackages vars0 pre with
  | inl _ => True
  | inr (pkgs, p, v) => p = "" ∧ v = ""
  end.
Proof.
  intros [->|Hlast]; [done|].
  destruct pre as [|t pre _] using rev_ind; [done|].
  rewrite last_snoc in Hlast. injection Hlast as ->.
  rewrite scanPackages_snoc.
  destruct (scanPackages vars0 pre) as [err|[[pkgs p] v]]; [done|].
  by rewrite scanPackage_blank.
Qed.

(** X9.  Within a block only the last line with the path label and the
    last line with the version label count: two runs of labelled lines that
    the scanner hands out and that agree on these two lines can replace
    each other anywhere in a listing, when the scanner reports the same
    outcome for both listings.  So the order of the path line and the
    version line of a block is indifferent, and a line is overridden by a
    later line of the block with the same label. *)
Theorem block_last_lines stdout1 stdout2 pre b1 b2 post scanErr :
  bufio.scanLines stdout1 = (pre ++ b1 ++ post, scanErr) →
  bufio.scanLines stdout2 = (pre ++ b2 ++ post, scanErr) →
  Forall (λ t, labelledLine t = true) b1 →
  Forall (λ t, labelledLine t = true) b2 →
  lastLabelled pathLabel b1 = lastLabelled pathLabel b2 →
  lastLabelled versionLabel b1 = lastLabelled versionLabel b2 →
  parseInstalledPackages stdout1 = parseInstalledPackages stdout2.
Proof.
  intros H1 H2 Hb1 Hb2 Hpath Hversion.
  rewrite (parseInstalledPackages_loop _ _ _ H1),
          (parseInstalledPackages_loop _ _ _ H2).
  rewrite !scanPackages_app.
  destruct (scanPackages vars0 pre) as [err|[[pkgs p] v]]; [reflexivity|].
  rewrite !scanPackages_app.
  by rewrite (scanPackages_block _ _ _ _ Hb1), (scanPackages_block _ _ _ _ Hb2),
             Hpath, Hversion.
Qed.

(** X10.  A blank line at the beginning or at the end of a listing, or next
    to another blank line, changes nothing. *)
Theorem redundant_blank_line stdout1 stdout2 pre post scanErr :
  bufio.scanLines stdout1 = (pre ++ "" :: post, scanErr) →
  bufio.scanLines stdout2 = (pre ++ post, scanErr) →
  pre = [] ∨ last pre = Some "" ∨ head post = Some "" ∨ post = [] →
  parseInstalledPackages stdout1 = parseInstalledPackages stdout2.
Proof.
  intros H1 H2 Hcase.
  rewrite (parseInstalledPackages_loop _ _ _ H1),
          (parseInstalledPackages_loop _ _ _ H2).
  rewrite !scanPackages_app.
  assert (pre = [] ∨ last pre = Some "" ∨ (head post = Some "" ∨ post = []))
    as [Hpre|[Hpre|Hpost]] by tauto.
  - subst pre. reflexivity.
  - pose proof (scanPackages_after_blank pre (or_intror Hpre)) as Hst.
    destruct (scanPackages vars0 pre) as [err|[[pkgs p] v]]; [reflexivity|].
    destruct Hst as [-> ->]. simpl. by rewrite store_nothing.
  - destruct (scanPackages vars0 pre) as [err|[[pkgs p] v]]; [reflexivity|].
    destruct Hpost as [Hpost| ->].
    + destruct post as [|t post]; [done|]. injection Hpost as ->.
      simpl. by rewrite store_nothing.
    + simpl. by rewrite store_nothing.
Qed.

(** X11.  A block that the scanner hands out and that consists of lines
    with the version label only, without a line that carries the path
    label, is dropped: the listing gives what it gives without the lines of
    that block, when the scanner reports the same outcome for both. *)
Theorem block_without_path_dropped stdout1 stdout2 pre b post scanErr :
  bufio.scanLines stdout1 = (pre ++ b ++ post, scanErr) →
  bufio.scanLines stdout2 = (pre ++ post, scanErr) →
  pre = [] ∨ last pre = Some "" →
  post = [] ∨ head post = Some "" →
  Forall (λ t, labelled versionLabel t = true) b →
  parseInstalledPackages stdout1 = parseInstalledPackages stdout2.
Proof.
  intros H1 H2 Hpre Hpost Hb.
  rewrite (parseInstalledPackages_loop _ _ _ H1),
          (parseInstalledPackages_loop _ _ _ H2).
  rewrite !scanPackages_app.
  pose proof (scanPackages_after_blank pre Hpre) as Hst.
  destruct (scanPackages vars0 pre) as [err|[[pkgs p] v]]; [reflexivity|].
  destruct Hst as [-> ->].
  rewrite scanPackages_app, scanPackages_block.
  2:{ eapply Forall_impl; [exact Hb|]. simpl. intros t Ht.
      unfold labelledLine. by rewrite Ht, orb_true_r. }
  replace (lastLabelled pathLabel b) with (@None string).
  2:{ symmetry. unfold lastLabelled. rewrite filter_none; [reflexivity|].
      eapply Forall_impl; [exact Hb|]. simpl. intros t Ht.
      by rewrite (labels_exclusive' _ Ht). }
  destruct Hpost as [->|Hpost].
  - simpl. by rewrite !store_nothing.
  - destruct post as [|t post]; [done|]. injection Hpost as ->.
    simpl. by rewrite !store_nothing.
Qed.


(** *** What the loop keeps *)

Lemma store_keeps pkgs p v k : is_Some (pkgs !! k) → is_Some (store pkgs p v !! k).
Proof.
  unfold store. destruct (String.eqb p ""); [done|].
  intros Hk. by apply lookup_insert_is_Some'; right.
Qed.

Lemma scanPackages_keeps tokens pkgs p v pkgs' p' v' k :
  scanPackages (pkgs, p, v) tokens = inr (pkgs', p', v') →
  is_Some (pkgs !! k) → is_Some (pkgs' !! k).
Proof.
  revert pkgs p v. induction tokens as [|t tokens IH]; intros pkgs p v.
  - simpl. by intros [= <- <- <-].
  - cbn [macos.scanPackages]. destruct (scanPackage (pkgs, p, v) t) as [err|[[pkgs1 p1] v1]] eqn:Hstep;
      [discriminate|].
    intros Hloop Hk. apply (IH _ _ _ Hloop).
    destruct (String.eqb_spec t "") as [->|Hne].
    + rewrite scanPackage_blank in Hstep. injection Hstep as <- <- <-.
      by apply store_keeps.
    + assert (accepted t = true) as Hacc.
      { destruct (accepted t) eqn:Hacc; [done|].
        destruct (scanPackage_not_accepted (pkgs, p, v) _ Hacc) as [err Herr].
        congruence. }
      apply accepted_cases in Hacc as [->|[Ht|Ht]]; [done| |].
      * rewrite (scanPackage_path _ _ _ _ Ht) in Hstep. by injection Hstep as <- <- <-.
      * rewrite (scanPackage_version _ _ _ _ Ht) in Hstep.
        by injection Hstep as <- <- <-.
Qed.

(** X13.  The parser never removes an entry: a name under which a record
    has been filed after some of the lines has an entry in the inventory
    returned. *)
Theorem parseInstalledPackages_keeps stdout pre post scanErr pkgs p v m k :
  bufio.scanLines stdout = (pre ++ post, scanErr) →
  scanPackages vars0 pre = inr (pkgs, p, v) →
  parseInstalledPackages stdout = (Some m, None, None) →
  is_Some (pkgs !! k) → is_Some (m !! k).
Proof.
  intros H Hpre Hm Hk. rewrite (parseInstalledPackages_loop _ _ _ H) in Hm.
  rewrite scanPackages_app, Hpre in Hm.
  destruct (scanPackages (pkgs, p, v) post) as [err|[[pkgs' p'] v']] eqn:Hpost;
    [discriminate|].
  destruct scanErr; [discriminate|]. injection Hm as <-.
  apply store_keeps. by apply (scanPackages_keeps _ _ _ _ _ _ _ _ Hpost).
Qed.

(** *** How many entries *)

Lemma inventory_size rs : size (inventory rs) ≤ length rs.
Proof.
  induction rs as [|r rs IH] using rev_ind.
  - unfold inventory. simpl. by rewrite map_size_empty.
  - rewrite inventory_snoc, length_app, map_size_insert. simpl.
    destruct (inventory rs !! Name r); simpl; lia.
Qed.

Lemma blockRecord_cons t b :
  labelled pathLabel t = false →
  is_Some (blockRecord (t :: b)) → is_Some (blockRecord b).
Proof.
  intros Ht. unfold blockRecord, blockValue.
  rewrite (filter_cons_False (λ t, labelled pathLabel t = true))
    by (by rewrite Ht).
  destruct (String.eqb _ ""); [by intros [? ?]|by eexists].
Qed.

Lemma records_length tokens :
  length (records tokens) ≤ length (filter (λ t, labelled pathLabel t = true) tokens).
Proof.
  unfold records. induction tokens as [|t tokens IH]; [simpl; lia|].
  cbn [blocks]. destruct (blocks tokens) as [|b bs] eqn:Hbs.
  { destruct tokens as [|t' tokens]; simpl in Hbs; [done|].
    destruct (blocks tokens); [done|]. by destruct (String.eqb t' ""). }
  change (omap blockRecord (b :: bs))
    with (match blockRecord b with
          | Some r => r :: omap blockRecord bs
          | None => omap blockRecord bs
          end) in IH.
  destruct (String.eqb_spec t "") as [->|Hne].
  - rewrite filter_cons_False by done.
    change (omap blockRecord ([] :: b :: bs)) with (omap blockRecord (b :: bs)).
    exact IH.
  - change (omap blockRecord ((t :: b) :: bs))
      with (match blockRecord (t :: b) with
            | Some r => r :: omap blockRecord bs
            | None => omap blockRecord bs
            end).
    destruct (labelled pathLabel t) eqn:Ht.
    + rewrite (filter_cons_True (λ t, labelled pathLabel t = true)) by done.
      destruct (blockRecord (t :: b)), (blockRecord b); simpl in *; lia.
    + rewrite (filter_cons_False (λ t, labelled pathLabel t = true))
        by (by rewrite Ht).
      pose proof (blockRecord_cons t b Ht) as Hrec.
      destruct (blockRecord (t :: b)), (blockRecord b) as [r|]; simpl in *;
        try lia.
      destruct Hrec as [r Hr]; [by eexists|discriminate].
Qed.

(** X14.  The inventory has at most as many entries as the listing has
    lines that carry the path label. *)
Theorem parseInstalledPackages_size stdout tokens scanErr m :
  bufio.scanLines stdout = (tokens, scanErr) →
  parseInstalledPackages stdout = (Some m, None, None) →
  size m ≤ length (filter (λ t, labelled pathLabel t = true) tokens).
Proof.
  intros H Hm.
  destruct (parseInstalledPackages_Some _ _ _ _ H Hm) as (_ & _ & ->).
  etrans; [apply inventory_size|apply records_length].
Qed.

End PackagesMore.

(** ** [scanInstalledPackages] *)

Section ScanInstalled.

Import Lines.

Variable execResult : Type.
Variable isSuccess : execResult → bool.
Variable Stdout : execResult → string.
Variable Host : Type.
Variable exec : string → Host → execResult * Host.
Variable kernelError : Type.

Local Abbreviation scanBundle := (scanner.scanBundle execResult isSuccess Stdout Host exec).
Local Abbreviation scanInstalledPackages :=
  (scanner.scanInstalledPackages execResult isSuccess Stdout Host exec kernelError).
Local Abbreviation bundleName :=
  (λ t : string, filepath.Base (TrimSuffix t ".app/Contents/Info.plist")).

Lemma scanInstalledPackages_found h r h1 tokens scanErr :
  exec scanner.findCommand h = (r, h1) →
  isSuccess r = true →
  bufio.scanLines (Stdout r) = (tokens, scanErr) →
  scanInstalledPackages h =
  match scanErr with
  | Some err => (None, Some (scanner.FailedToScan err), (foldl scanBundle (∅, h1) tokens).2)
  | None => (Some (foldl scanBundle (∅, h1) tokens).1, None,
             (foldl scanBundle (∅, h1) tokens).2)
  end.
Proof.
  intros Hfind Hok Hscan. unfold scanner.scanInstalledPackages.
  rewrite Hfind, Hok, Hscan. simpl.
  destruct (foldl scanBundle (∅, h1) tokens) as [installed h2].
  by destruct scanErr.
Qed.

Lemma scanInstalledPackages_not_found h r h1 :
  exec scanner.findCommand h = (r, h1) →
  isSuccess r = false →
  scanInstalledPackages h = (None, Some (scanner.FailedToExec r), h1).
Proof.
  intros Hfind Hok. unfold scanner.scanInstalledPackages.
  by rewrite Hfind, Hok.
Qed.

Lemma scanBundle_snoc st tokens t :
  foldl scanBundle st (tokens ++ [t]) = scanBundle (foldl scanBundle st tokens) t.
Proof. by rewrite foldl_app. Qed.

Lemma scanBundle_map st t :
  (scanBundle st t).1 =
  <[bundleName t :=
      {| Name := bundleName t;
         Version := if isSuccess (exec (scanner.plutilCommand t) st.2).1
                    then TrimSpace (Stdout (exec (scanner.plutilCommand t) st.2).1)
                    else "" |}]> st.1.
Proof.
  destruct st as [installed h]. unfold scanner.scanBundle. simpl.
  by destruct (exec (scanner.plutilCommand t) h).
Qed.

Lemma scanBundle_host st t :
  (scanBundle st t).2 = (exec (scanner.plutilCommand t) st.2).2.
Proof.
  destruct st as [installed h]. unfold scanner.scanBundle. simpl.
  by destruct (exec (scanner.plutilCommand t) h).
Qed.

Lemma scanBundles_keys st tokens k :
  is_Some ((foldl scanBundle st tokens).1 !! k) ↔
  is_Some (st.1 !! k) ∨ ∃ t, t ∈ tokens ∧ k = bundleName t.
Proof.
  induction tokens as [|t tokens IH] using rev_ind.
  - simpl. split; [by left|]. intros [Hk|(t & Ht & _)]; [done|].
    by apply elem_of_nil in Ht.
  - rewrite scanBundle_snoc, scanBundle_map, lookup_insert_is_Some, IH.
    setoid_rewrite elem_of_app. setoid_rewrite list_elem_of_singleton.
    destruct (decide (bundleName t = k)) as [Heq|Hne]; split.
    + intros _. right. exists t. by split; [right|].
    + intros _. by left.
    + intros [?|[_ [Hk|(u & Hu & ->)]]]; [done|by left|].
      right. exists u. by split; [left|].
    + intros [Hk|(u & [Hu| ->] & ->)]; [right| |done].
      * split; [done|]. by left.
      * right. split; [done|]. right. by exists u.
Qed.

Lemma scanBundles_names st tokens :
  (∀ k p, st.1 !! k = Some p → Name p = k) →
  ∀ k p, (foldl scanBundle st tokens).1 !! k = Some p → Name p = k.
Proof.
  intros Hst. induction tokens as [|t tokens IH] using rev_ind; [exact Hst|].
  intros k p. rewrite scanBundle_snoc, scanBundle_map.
  destruct (decide (bundleName t = k)) as [<-|Hne].
  - rewrite lookup_insert_eq. by intros [= <-].
  - rewrite lookup_insert_ne by done. apply IH.
Qed.

Lemma scanBundles_hosts st tokens :
  (foldl scanBundle st tokens).2 =
  runAll exec (scanner.plutilCommand <$> tokens) st.2.
Proof.
  unfold runAll. induction tokens as [|t tokens IH] using rev_ind; [reflexivity|].
  by rewrite scanBundle_snoc, scanBundle_host, fmap_app, foldl_app, IH.
Qed.

Lemma scanBundles_last st pre t post :
  (∀ u, u ∈ post → bundleName u ≠ bundleName t) →
  (foldl scanBundle st (pre ++ t :: post)).1 !! bundleName t =
  (scanBundle (foldl scanBundle st pre) t).1 !! bundleName t.
Proof.
  induction post as [|u post IH] using rev_ind; intros Hpost.
  - by rewrite scanBundle_snoc.
  - rewrite app_comm_cons, app_assoc, scanBundle_snoc, scanBundle_map.
    rewrite lookup_insert_ne.
    + apply IH.
      intros u' Hu'. apply Hpost. apply elem_of_app. by left.
    + apply Hpost. apply elem_of_app. right. by apply list_elem_of_singleton.
Qed.

(** X15.  [scanInstalledPackages] fails in two cases only: when [find]
    fails, with the error that carries its result, and when a line of the
    output of [find] has [bufio.MaxScanTokenSize] bytes or more, with the
    error of the scanner.  Otherwise it returns a map and no error, whatever
    [plutil] answers. *)
Theorem scanInstalledPackages_outcomes h r h1 :
  exec scanner.findCommand h = (r, h1) →
  (isSuccess r = false →
   scanInstalledPackages h = (None, Some (scanner.FailedToExec r), h1))
  ∧ (isSuccess r = true →
     ∀ l, l ∈ bufio.rawLines (Stdout r) → bufio.MaxScanTokenSize ≤ len l →
     ∃ h', scanInstalledPackages h =
           (None, Some (scanner.FailedToScan bufio.ErrTooLong), h'))
  ∧ (isSuccess r = true →
     Forall (λ l, len l < bufio.MaxScanTokenSize) (bufio.rawLines (Stdout r)) →
     ∃ m h', scanInstalledPackages h = (Some m, None, h')).
Proof.
  intros Hfind. split; [|split].
  - by apply scanInstalledPackages_not_found.
  - intros Hok l Hl Hlen. pose proof (too_long_error _ _ Hl Hlen) as E.
    destruct (bufio.scanLines (Stdout r)) as [tokens scanErr] eqn:Hscan.
    simpl in E. subst scanErr.
    rewrite (scanInstalledPackages_found _ _ _ _ _ Hfind Hok Hscan). by eauto.
  - intros Hok Hshort. apply scanLines_error_iff in Hshort.
    destruct (bufio.scanLines (Stdout r)) as [tokens scanErr] eqn:Hscan.
    simpl in Hshort. subst scanErr.
    rewrite (scanInstalledPackages_found _ _ _ _ _ Hfind Hok Hscan). by eauto.
Qed.

(** X16.  The map [scanInstalledPackages] returns has an entry for every
    line of the output of [find], and no other: the names are those derived
    from the lines, untrimmed.  Every entry is filed under its own name, and
    no name is empty; an empty line gives the entry named [.]. *)
Theorem scanInstalledPackages_names h r h1 m h' :
  exec scanner.findCommand h = (r, h1) →
  scanInstalledPackages h = (Some m, None, h') →
  (∀ k, is_Some (m !! k) ↔
        ∃ t, t ∈ bufio.textLines (Stdout r)
          ∧ k = filepath.Base (TrimSuffix t ".app/Contents/Info.plist"))
  ∧ (∀ k p, m !! k = Some p → Name p = k ∧ k ≠ "")
  ∧ ("" ∈ bufio.textLines (Stdout r) → is_Some (m !! ".")).
Proof.
  intros Hfind Hm.
  destruct (isSuccess r) eqn:Hok;
    [|by rewrite (scanInstalledPackages_not_found _ _ _ Hfind Hok) in Hm].
  destruct (bufio.scanLines (Stdout r)) as [tokens scanErr] eqn:Hscan.
  rewrite (scanInstalledPackages_found _ _ _ _ _ Hfind Hok Hscan) in Hm.
  destruct scanErr; [discriminate|]. injection Hm as <- _.
  rewrite <- (scanLines_no_error _ _ Hscan).
  assert (∀ k, is_Some ((foldl scanBundle (∅, h1) tokens).1 !! k) ↔
               ∃ t, t ∈ tokens ∧ k = bundleName t) as Hkeys.
  { intros k. rewrite scanBundles_keys. simpl. rewrite lookup_empty.
    split; [|by right]. intros [[? [=]]|Hk]. exact Hk. }
  split; [exact Hkeys|]. split.
  - intros k p Hk. pose proof Hk as Hname.
    apply scanBundles_names in Hname; [|intros k' p'; simpl; by rewrite lookup_empty].
    split; [exact Hname|].
    destruct (proj1 (Hkeys k)) as (t & _ & ->); [by eexists|].
    apply Base_not_empty.
  - intros Hin. apply Hkeys. by exists "".
Qed.

(** X17.  The entry of a name is made from the last line of the output of
    [find] that resolves to it (last write wins): its version is the trimmed
    output of [plutil] run on that line, on the host as the lines before
    have left it, and it is empty when that [plutil] fails. *)
Theorem scanInstalledPackages_last_write_wins h r h1 pre t post m1 h2 r' h3 :
  exec scanner.findCommand h = (r, h1) →
  isSuccess r = true →
  bufio.scanLines (Stdout r) = (pre ++ t :: post, None) →
  foldl scanBundle (∅, h1) pre = (m1, h2) →
  exec (scanner.plutilCommand t) h2 = (r', h3) →
  (∀ u, u ∈ post →
        filepath.Base (TrimSuffix u ".app/Contents/Info.plist")
        ≠ filepath.Base (TrimSuffix t ".app/Contents/Info.plist")) →
  let n := filepath.Base (TrimSuffix t ".app/Contents/Info.plist") in
  ∃ m h', scanInstalledPackages h = (Some m, None, h')
    ∧ m !! n = Some {| Name := n;
                       Version := if isSuccess r' then TrimSpace (Stdout r') else "" |}.
Proof.
  intros Hfind Hok Hscan Hpre Hplutil Hpost n.
  rewrite (scanInstalledPackages_found _ _ _ _ _ Hfind Hok Hscan).
  eexists _, _. split; [reflexivity|].
  rewrite (scanBundles_last _ _ _ _ Hpost), scanBundle_map, Hpre. simpl.
  by rewrite lookup_insert_eq, Hplutil.
Qed.

(** X18.  [scanInstalledPackages] runs [find], and when it succeeds [plutil]
    once on every line the scanner hands out, in their order, and nothing
    else; it does so even when the scanner reports an error in the end. *)
Theorem scanInstalledPackages_commands h r h1 :
  exec scanner.findCommand h = (r, h1) →
  (scanInstalledPackages h).2 =
  runAll exec
    (scanner.findCommand ::
       if isSuccess r
       then scanner.plutilCommand <$> (bufio.scanLines (Stdout r)).1
       else [])
    h.
Proof.
  intros Hfind. unfold runAll. cbn [foldl]. rewrite Hfind. simpl.
  destruct (isSuccess r) eqn:Hok.
  - destruct (bufio.scanLines (Stdout r)) as [tokens scanErr] eqn:Hscan.
    rewrite (scanInstalledPackages_found _ _ _ _ _ Hfind Hok Hscan).
    simpl. by destruct scanErr; simpl; rewrite scanBundles_hosts.
  - by rewrite (scanInstalledPackages_not_found _ _ _ Hfind Hok).
Qed.

End ScanInstalled.

(** ** [detectMacOS], [preCure] and [scanPackages] *)

Section Methods.

Variable execResult : Type.
Variable isSuccess : execResult → bool.
Variable Stdout : execResult → string.
Variable Host : Type.
Variable exec : string → Host → execResult * Host.
Variable kernelError : Type.
Variable runningKernel : Host → string * string * option kernelError * Host.
Variable parseIfconfig : string → list string * list string.
Variable ServerInfo : Type.
Variable ScanMode : Type.
Variables MacOSX MacOSXServer MacOS MacOSServer : string.

Local Abbreviation parseSWVers := (parseSWVers MacOSX MacOSXServer MacOS MacOSServer).
Local Abbreviation detectMacOS :=
  (scanner.detectMacOS execResult isSuccess Stdout Host exec kernelError ServerInfo
     MacOSX MacOSXServer MacOS MacOSServer).
Local Abbreviation detectIPAddr :=
  (scanner.detectIPAddr execResult isSuccess Stdout Host exec kernelError
     parseIfconfig ScanMode).
Local Abbreviation preCure :=
  (scanner.preCure execResult isSuccess Stdout Host exec kernelError
     parseIfconfig ScanMode).
Local Abbreviation scanInstalledPackages :=
  (scanner.scanInstalledPackages execResult isSuccess Stdout Host exec kernelError).
Local Abbreviation scanPackages :=
  (scanner.scanPackages execResult isSuccess Stdout Host exec kernelError
     runningKernel ScanMode).

(** X19.  [detectMacOS] reports a Mac exactly when [sw_vers] succeeds,
    whether or not its output can be parsed.  The value returned then has
    either the family and the version [parseSWVers] returns, a family that
    is one of the four constants and a version that is not empty, or one
    error, which wraps the error of [parseSWVers], and no distribution. *)
Theorem detectMacOS_outcomes c h r h1 :
  exec "sw_vers" h = (r, h1) →
  (isSuccess r = false → detectMacOS c h = (false, None, h1))
  ∧ (isSuccess r = true →
     (∃ family version,
        parseSWVers (Stdout r) = (family, version, None)
        ∧ family ∈ [MacOSX; MacOSXServer; MacOS; MacOSServer]
        ∧ version ≠ ""
        ∧ detectMacOS c h =
          (true, Some (scanner.newMacOS_setDistro c family version), h1))
     ∨ (∃ err,
          parseSWVers (Stdout r) = ("", "", Some err)
          ∧ detectMacOS c h =
            (true, Some (scanner.newMacOS_setErrs c [scanner.FailedToParseSWVers err]),
             h1))).
Proof.
  intros Hexec. unfold scanner.detectMacOS. rewrite Hexec.
  split; intros Hok; rewrite Hok; [reflexivity|].
  destruct (parseSWVers (Stdout r)) as [[family version] [err|]] eqn:Hparse.
  - right. exists err.
    by destruct (parseSWVers_failure _ _ _ _ _ _ _ _ Hparse) as [-> ->].
  - left. exists family, version.
    by destruct (parseSWVers_success _ _ _ _ _ _ _ Hparse) as [Hne Hfam].
Qed.

(** X20.  [preCure] never fails.  When [ifconfig] fails it records one
    warning, which carries the result of the command, and leaves the
    addresses as they were; when [ifconfig] succeeds it sets the addresses
    to what [parseIfconfig] reads in the output and records no warning.  The
    packages and the kernel are left as they were. *)
Theorem preCure_outcomes o h r h1 :
  exec "/sbin/ifconfig" h = (r, h1) →
  ∃ o', preCure o h = (o', None, h1)
    ∧ scanner.Packages o' = scanner.Packages o
    ∧ scanner.kernel o' = scanner.kernel o
    ∧ if isSuccess r
      then (scanner.IPv4Addrs o', scanner.IPv6Addrs o') = parseIfconfig (Stdout r)
           ∧ scanner.warns o' = scanner.warns o
           ∧ scanner.log o' = scanner.log o
      else scanner.IPv4Addrs o' = scanner.IPv4Addrs o
           ∧ scanner.IPv6Addrs o' = scanner.IPv6Addrs o
           ∧ scanner.warns o' = scanner.warns o ++ [scanner.FailedToDetectIPAddress r]
           ∧ scanner.log o' =
             scanner.log o
             ++ [scanner.Warnf_DetectIPAddresses (scanner.FailedToDetectIPAddress r)].
Proof.
  intros Hexec. unfold scanner.preCure, scanner.detectIPAddr. rewrite Hexec.
  destruct (isSuccess r); simpl.
  - destruct (parseIfconfig (Stdout r)) as [v4 v6]. by eexists.
  - by eexists.
Qed.

(** X26.  [detectIPAddr] fails only when [ifconfig] fails: the error then
    carries the result of the command, and the receiver is left as it was.
    The error for an output of [ifconfig] that cannot be parsed is never
    returned. *)
Theorem detectIPAddr_error o h o' err h' :
  detectIPAddr o h = (o', Some err, h') →
  ∃ r, exec "/sbin/ifconfig" h = (r, h')
    ∧ isSuccess r = false
    ∧ err = scanner.FailedToDetectIPAddress r
    ∧ o' = o.
Proof.
  unfold scanner.detectIPAddr.
  destruct (exec "/sbin/ifconfig" h) as [r h1]. destruct (isSuccess r) eqn:Hok; simpl.
  - destruct (parseIfconfig (Stdout r)). discriminate.
  - intros [= <- <- <-]. by exists r.
Qed.

(** X21.  [scanPackages] replaces the packages of the receiver only when it
    returns no error, by the map [scanInstalledPackages] returns, which is
    not [nil]; when it returns an error the packages are what they were.
    An error of [runningKernel] is returned as it is and leaves the kernel
    as it was; otherwise the kernel is set, even when the scan of the
    packages fails. *)
Theorem scanPackages_outcomes o h release version kerr h1 o' err h' :
  runningKernel h = (release, version, kerr, h1) →
  scanPackages o h = (o', err, h') →
  match kerr with
  | Some e =>
    err = Some (scanner.RunningKernel e) ∧ h' = h1
    ∧ scanner.kernel o' = scanner.kernel o
    ∧ scanner.Packages o' = scanner.Packages o
  | None =>
    scanner.kernel o' = {| scanner.Release := release; scanner.Version := version |}
    ∧ match err with
      | Some e =>
        (∃ e', e = scanner.FailedToScanInstalledPackages e'
               ∧ scanInstalledPackages h1 = (None, Some e', h'))
        ∧ scanner.Packages o' = scanner.Packages o
      | None =>
        ∃ m, scanInstalledPackages h1 = (Some m, None, h')
          ∧ scanner.Packages o' = Some m
      end
  end.
Proof.
  intros Hkernel. unfold scanner.scanPackages. rewrite Hkernel.
  destruct kerr as [e|].
  { by intros [= <- <- <-]. }
  destruct (exec scanner.findCommand h1) as [r h2] eqn:Hfind.
  destruct (isSuccess r) eqn:Hok.
  - destruct (bufio.scanLines (Stdout r)) as [tokens scanErr] eqn:Hscan.
    rewrite (scanInstalledPackages_found _ _ _ _ _ _ _ _ _ _ _ Hfind Hok Hscan).
    destruct scanErr; intros [= <- <- <-]; (split; [reflexivity|]); by eauto.
  - rewrite (scanInstalledPackages_not_found _ _ _ _ _ _ _ _ _ Hfind Hok).
    intros [= <- <- <-]. split; [reflexivity|]. by eauto.
Qed.

End Methods.

(** ** What [strings.TrimSpace] returns neither begins nor ends with an
    ASCII space *)

Section TrimSpaceEnds.

Import utf8 unicode Lines.

Implicit Types (s x : string) (l : list ascii) (i j k : nat) (b r : N).

(** The byte at an index is no ASCII space. *)
Local Abbreviation solid := (λ l i, ∀ c, l !! i = Some c → asciiSpace (N_of_ascii c) = false).

(** The first and the last element are no ASCII spaces. *)
Local Abbreviation solidEnds :=
  (λ l, (∀ c, head l = Some c → asciiSpace (N_of_ascii c) = false)
        ∧ (∀ c, last l = Some c → asciiSpace (N_of_ascii c) = false)).

Lemma trimmed_solidEnds s : solidEnds (chars s) → trimmed s = true.
Proof.
  unfold trimmed, firstByte, lastByte. intros [Hfirst Hlast].
  destruct (head (chars s)) as [c|]; destruct (last (chars s)) as [d|]; simpl;
    rewrite ?(Hfirst c eq_refl), ?(Hlast d eq_refl); reflexivity.
Qed.

Lemma asciiSpace_IsSpace b : asciiSpace b = true → IsSpace b = true.
Proof.
  unfold asciiSpace, IsSpace, MaxLatin1, among. simpl.
  rewrite !orb_true_iff, !N.eqb_eq. intros H.
  destruct (N.leb_spec b 0xFF) as [_|?]; [|lia]. simpl.
  rewrite !orb_true_iff, !N.eqb_eq. tauto.
Qed.

Lemma asciiSpace_low b : (RuneSelf <= b)%N → asciiSpace b = false.
Proof.
  unfold asciiSpace, among, RuneSelf. simpl. intros H.
  rewrite !orb_false_iff, !N.eqb_neq. repeat split; lia.
Qed.

Lemma solid_byteAt s i : i < len s → asciiSpace (byteAt s i) = false → solid (chars s) i.
Proof.
  intros Hi Hb c Hc. by rewrite <- (byteAt_lookup _ _ _ Hc).
Qed.

Lemma byteAt_sliceFrom s i k : byteAt (sliceFrom s i) k = byteAt s (i + k).
Proof.
  unfold byteAt. f_equal. revert s. induction i as [|i IH]; intros s; [done|].
  destruct s as [|c s]; simpl; [by destruct k|]. apply IH.
Qed.

Lemma byteAt_slice s i j k : i + k < j → j ≤ len s → byteAt (slice s i j) k = byteAt s (i + k).
Proof.
  intros Hk Hj. destruct (byteAt_lt s (i + k)) as (c & Hc & ->); [lia|].
  apply byteAt_lookup. rewrite chars_slice, lookup_take, lookup_drop.
  by rewrite decide_True by lia.
Qed.

(** The first byte of a rune that is no space is no ASCII space. *)
Lemma DecodeRuneInString_solid x r size :
  DecodeRuneInString x = (r, size) → 0 < len x → IsSpace r = false →
  asciiSpace (byteAt x 0) = false.
Proof.
  unfold DecodeRuneInString. intros Hdec Hlen Hr.
  destruct (Nat.ltb_spec (len x) 1) as [?|_]; [lia|].
  destruct (N.ltb_spec (byteAt x 0) RuneSelf) as [H0|H0].
  - injection Hdec as <- <-.
    destruct (asciiSpace (byteAt x 0)) eqn:Hsp; [|done].
    apply asciiSpace_IsSpace in Hsp. congruence.
  - by apply asciiSpace_low.
Qed.

(** The bytes of a rune after the first are not in ASCII. *)
Lemma DecodeRuneInString_high x r size k :
  DecodeRuneInString x = (r, size) → 1 ≤ k → k < size → (RuneSelf <= byteAt x k)%N.
Proof.
  unfold DecodeRuneInString.
  destruct (Nat.ltb_spec (len x) 1) as [Hn|Hn]; [intros [= <- <-]; lia|].
  destruct (N.ltb_spec (byteAt x 0) RuneSelf) as [H0|H0]; [intros [= <- <-]; lia|].
  destruct (first (byteAt x 0)) as [[sz [lo hi]]|] eqn:Hf; [|intros [= <- <-]; lia].
  apply first_range in Hf as [Hsz Hlo].
  destruct (Nat.ltb_spec (len x) sz) as [Hn'|Hn']; [intros [= <- <-]; lia|].
  destruct (outside (byteAt x 1) lo hi) eqn:H1; [intros [= <- <-]; lia|].
  apply outside_false in H1.
  destruct (Nat.leb_spec sz 2) as [Hsz2|Hsz2].
  { intros [= <- <-] ? ?. replace k with 1 by lia. lia. }
  destruct (outside (byteAt x 2) locb hicb) eqn:H2; [intros [= <- <-]; lia|].
  apply outside_false in H2. unfold locb in H2.
  destruct (Nat.leb_spec sz 3) as [Hsz3|Hsz3].
  { intros [= <- <-] ? ?. assert (k = 1 ∨ k = 2) as [-> | ->] by lia;
      unfold RuneSelf in *; lia. }
  destruct (outside (byteAt x 3) locb hicb) eqn:H3; [intros [= <- <-]; lia|].
  apply outside_false in H3. unfold locb in H3.
  intros [= <- <-] ? ?.
  assert (k = 1 ∨ k = 2 ∨ k = 3) as [-> | [-> | ->]] by lia;
    unfold RuneSelf in *; lia.
Qed.

Lemma DecodeLastRuneInString_solid x r size :
  DecodeLastRuneInString x = (r, size) → 0 < len x → IsSpace r = false →
  1 ≤ size ≤ len x ∧ asciiSpace (byteAt x (len x - size)) = false.
Proof.
  intros Hdec Hlen Hr.
  destruct (DecodeLastRuneInString_spec _ _ _ Hdec Hlen) as (Hsize & _).
  split; [exact Hsize|]. revert Hdec. unfold DecodeLastRuneInString.
  destruct (Nat.eqb_spec (len x) 0) as [?|_]; [lia|].
  destruct (N.ltb_spec (byteAt x (len x - 1)) RuneSelf) as [H0|H0].
  { intros [= <- <-].
    destruct (asciiSpace (byteAt x (len x - 1))) eqn:Hsp; [|done].
    apply asciiSpace_IsSpace in Hsp. congruence. }
  set (back := backToRuneStart UTFMax x (Z.of_nat (len x) - 2)
                 (Z.max 0 (Z.of_nat (len x) - Z.of_nat UTFMax))).
  pose proof (backToRuneStart_le UTFMax x (Z.of_nat (len x) - 2)
                (Z.max 0 (Z.of_nat (len x) - Z.of_nat UTFMax))) as Hback.
  fold back in Hback.
  assert (Z.to_nat (Z.max 0 back) < len x) as Hstart by lia.
  remember (Z.to_nat (Z.max 0 back)) as start eqn:Heq. clear Heq Hback. clear back.
  destruct (DecodeRuneInString (slice x start (len x))) as [r' size'] eqn:Hfw.
  destruct (Nat.eqb_spec (start + size') (len x)) as [Hend|Hend]; intros [= <- <-].
  - replace (len x - size') with start by lia.
    apply DecodeRuneInString_solid in Hfw; [|  |done].
    + rewrite byteAt_slice in Hfw by lia. by rewrite Nat.add_0_r in Hfw.
    + rewrite <- chars_length, chars_slice, length_take, length_drop, chars_length. lia.
  - by apply asciiSpace_low.
Qed.

Lemma indexFunc_from_solid fuel s i j :
  indexFunc_from fuel s IsSpace false i = Some j →
  j < len s ∧ asciiSpace (byteAt s j) = false.
Proof.
  revert i. induction fuel as [|fuel IH]; intros i; [done|].
  cbn [indexFunc_from]. destruct (Nat.leb_spec (len s) i) as [?|Hlt]; [done|].
  destruct (DecodeRuneInString (sliceFrom s i)) as [r size] eqn:Hdec.
  destruct (IsSpace r) eqn:Hr; simpl; [apply IH|].
  intros [= <-]. split; [done|].
  apply DecodeRuneInString_solid in Hdec; [|rewrite len_sliceFrom; lia|done].
  by rewrite byteAt_sliceFrom, Nat.add_0_r in Hdec.
Qed.

Lemma lastIndexFunc_from_solid fuel s i j :
  i ≤ len s →
  lastIndexFunc_from fuel s IsSpace false i = Some j →
  j < len s ∧ asciiSpace (byteAt s j) = false.
Proof.
  revert i. induction fuel as [|fuel IH]; intros i Hi; [done|].
  cbn [lastIndexFunc_from]. destruct (Nat.eqb_spec i 0) as [->|Hne]; [done|].
  assert (len (slice s 0 i) = i) as Hlenx.
  { rewrite <- chars_length, chars_slice, drop_0, Nat.sub_0_r, length_take, chars_length.
    lia. }
  destruct (DecodeLastRuneInString (slice s 0 i)) as [r size] eqn:Hdec.
  destruct (IsSpace r) eqn:Hr; simpl.
  - apply IH. lia.
  - intros [= <-].
    apply DecodeLastRuneInString_solid in Hdec as [Hsize Hsolid]; [|lia|done].
    rewrite Hlenx in Hsize, Hsolid. split; [lia|].
    rewrite byteAt_slice in Hsolid by lia. by rewrite Nat.add_0_l in Hsolid.
Qed.

(** [TrimRightFunc] keeps the first bytes of its argument, up to a byte that
    is no ASCII space. *)
Lemma TrimRightFunc_ends x :
  ∃ k, k ≤ len x
    ∧ chars (TrimRightFunc x IsSpace) = take k (chars x)
    ∧ (0 < k → solid (chars x) (k - 1)).
Proof.
  unfold TrimRightFunc, lastIndexFunc.
  destruct (lastIndexFunc_from _ _ _ _ _) as [j|] eqn:Hlast.
  - apply lastIndexFunc_from_solid in Hlast as [Hj Hsolid]; [|done].
    destruct (N.leb_spec RuneSelf (byteAt x j)) as [Hhigh|Hlow].
    + destruct (DecodeRuneInString (sliceFrom x j)) as [r wid] eqn:Hdec.
      pose proof (DecodeRuneInString_spec _ _ _ Hdec) as (Hle & Hge & _).
      rewrite len_sliceFrom in Hle, Hge.
      exists (j + wid). split; [lia|].
      split; [by rewrite chars_slice, drop_0, Nat.sub_0_r|].
      intros _. apply solid_byteAt; [lia|]. apply asciiSpace_low.
      destruct (decide (wid = 1)) as [->|Hwid].
      * by replace (j + 1 - 1) with j by lia.
      * pose proof (DecodeRuneInString_high _ _ _ (wid - 1) Hdec) as Hk.
        rewrite byteAt_sliceFrom in Hk.
        replace (j + wid - 1) with (j + (wid - 1)) by lia. apply Hk; lia.
    + exists (S j). split; [lia|].
      split; [by rewrite chars_slice, drop_0, Nat.sub_0_r|].
      intros _. apply solid_byteAt; [lia|]. by replace (S j - 1) with j by lia.
  - exists 0. split; [lia|]. split; [|lia].
    by rewrite chars_slice, drop_0, Nat.sub_0_r.
Qed.

Lemma trimmed_take_drop l i j :
  i < j → j ≤ length l → solid l i → solid l (j - 1) →
  (∀ c, head (take (j - i) (drop i l)) = Some c → asciiSpace (N_of_ascii c) = false)
  ∧ (∀ c, last (take (j - i) (drop i l)) = Some c → asciiSpace (N_of_ascii c) = false).
Proof.
  intros Hij Hj Hfirst Hlast. split; intros c.
  - rewrite head_lookup, lookup_take, decide_True, lookup_drop, Nat.add_0_r by lia.
    apply Hfirst.
  - rewrite last_lookup, length_take, length_drop, lookup_take, decide_True, lookup_drop
      by lia.
    replace (i + Init.Nat.pred ((j - i) `min` (length l - i))) with (j - 1) by lia.
    apply Hlast.
Qed.

Lemma trimmed_nil s : chars s = [] → trimmed s = true.
Proof. unfold trimmed, firstByte, lastByte. by intros ->. Qed.

Lemma trimmed_slice s i j :
  j ≤ len s → (i < j → solid (chars s) i) → (i < j → solid (chars s) (j - 1)) →
  trimmed (slice s i j) = true.
Proof.
  intros Hj Hfirst Hlast. destruct (decide (i < j)) as [Hij|Hij].
  - apply trimmed_solidEnds. rewrite chars_slice.
    apply trimmed_take_drop; [done|by rewrite chars_length|by auto..].
  - apply trimmed_nil. rewrite chars_slice. by replace (j - i) with 0 by lia.
Qed.

(** After [TrimRightFunc], a string that does not begin with an ASCII space
    is trimmed. *)
Lemma TrimRightFunc_trimmed x :
  (0 < len x → solid (chars x) 0) → trimmed (TrimRightFunc x IsSpace) = true.
Proof.
  intros Hfirst. destruct (TrimRightFunc_ends x) as (k & Hk & Heq & Hlast).
  destruct (decide (0 < k)) as [Hpos|Hpos].
  - apply trimmed_solidEnds. rewrite Heq.
    pose proof (trimmed_take_drop (chars x) 0 k Hpos) as Hends.
    rewrite Nat.sub_0_r, drop_0 in Hends.
    apply Hends; [by rewrite chars_length| |by apply Hlast].
    apply Hfirst. lia.
  - apply trimmed_nil. rewrite Heq. by replace k with 0 by lia.
Qed.

Lemma TrimFunc_trimmed x : trimmed (TrimFunc x IsSpace) = true.
Proof.
  unfold TrimFunc. apply TrimRightFunc_trimmed. unfold TrimLeftFunc, indexFunc.
  destruct (indexFunc_from _ _ _ _ _) as [j|] eqn:Hidx; [|simpl; lia].
  apply indexFunc_from_solid in Hidx as [Hj Hsolid]. intros _ c.
  rewrite chars_sliceFrom, lookup_drop, Nat.add_0_r. by apply solid_byteAt.
Qed.

Lemma TrimSpace_start_Plain fuel s start j :
  len s - start < fuel → start ≤ len s →
  TrimSpace_start fuel s start = Plain j →
  j ≤ len s ∧ (j < len s → asciiSpace (byteAt s j) = false).
Proof.
  revert start. induction fuel as [|fuel IH]; intros start Hfuel Hle; [lia|].
  cbn [TrimSpace_start]. destruct (Nat.leb_spec (len s) start) as [?|Hlt].
  { intros [= <-]. split; lia. }
  destruct (RuneSelf <=? byteAt s start)%N; [done|].
  destruct (asciiSpace (byteAt s start)) eqn:Hsp.
  - apply IH; lia.
  - intros [= <-]. split; [lia|done].
Qed.

Lemma TrimSpace_stop_exit fuel s start stop :
  stop - start < fuel → stop ≤ len s →
  match TrimSpace_stop fuel s start stop with
  | Plain j => j ≤ len s ∧ (start < j → asciiSpace (byteAt s (j - 1)) = false)
  | NonASCII j => j ≤ len s ∧ start < j
  end.
Proof.
  revert stop. induction fuel as [|fuel IH]; intros stop Hfuel Hle; [lia|].
  cbn [TrimSpace_stop]. destruct (Nat.leb_spec stop start) as [?|Hlt].
  { split; [done|lia]. }
  destruct (RuneSelf <=? byteAt s (stop - 1))%N; [done|].
  destruct (asciiSpace (byteAt s (stop - 1))) eqn:Hsp.
  - apply IH; lia.
  - split; [lia|done].
Qed.

Lemma TrimSpace_trimmed s : trimmed (TrimSpace s) = true.
Proof.
  unfold TrimSpace.
  destruct (TrimSpace_start (S (len s)) s 0) as [start|start] eqn:Hstart;
    [|apply TrimFunc_trimmed].
  apply TrimSpace_start_Plain in Hstart as [Hle Hfirst]; [|lia..].
  pose proof (TrimSpace_stop_exit (S (len s)) s start (len s)) as Hstop.
  destruct (TrimSpace_stop (S (len s)) s start (len s)) as [stop|stop];
    destruct Hstop as [Hstop Hlast]; try lia.
  - apply trimmed_slice; [done|..]; intros Hlt; apply solid_byteAt; try lia.
    + apply Hfirst. lia.
    + by apply Hlast.
  - apply TrimRightFunc_trimmed. intros _ c.
    rewrite chars_slice, lookup_take, decide_True, lookup_drop, Nat.add_0_r by lia.
    apply solid_byteAt; [lia|]. apply Hfirst. lia.
Qed.

End TrimSpaceEnds.

Section Trimmed.

Import Lines.

Variables MacOSX MacOSXServer MacOS MacOSServer : string.

Local Abbreviation parseSWVers := (parseSWVers MacOSX MacOSXServer MacOS MacOSServer).

(** X22.  The version [parseSWVers] returns neither begins nor ends with
    one of the six ASCII spaces (tab, line feed, vertical tab, form feed,
    carriage return, space). *)
Theorem parseSWVers_version_trimmed (stdout family version : string) :
  parseSWVers stdout = (family, version, None) → trimmed version = true.
Proof.
  destruct (bufio.scanLines stdout) as [tokens scanErr] eqn:H.
  rewrite (parseSWVers_tokens _ _ _ _ _ _ _ H).
  destruct scanErr; [discriminate|].
  destruct (switchName _ _ _ _ _); [|discriminate].
  destruct (String.eqb _ ""); [discriminate|]. intros [= _ <-].
  unfold lastValue. destruct (last _); [apply TrimSpace_trimmed|].
  by apply trimmed_nil.
Qed.

(** X23.  No version in the inventory of [parseInstalledPackages] begins or
    ends with one of the six ASCII spaces. *)
Theorem parseInstalledPackages_version_trimmed stdout m k r :
  parseInstalledPackages stdout = (Some m, None, None) →
  m !! k = Some r →
  trimmed (Version r) = true.
Proof.
  intros Hm Hk.
  destruct (bufio.scanLines stdout) as [tokens scanErr] eqn:H.
  destruct (parseInstalledPackages_Some _ _ _ _ H Hm) as (_ & _ & ->).
  apply inventory_elem, record_elem in Hk as (b & _ & _ & ->).
  simpl. unfold blockVersion.
  destruct (HasSuffix _ noValueSuffix); [by apply trimmed_nil|].
  unfold blockValue. destruct (last _); [apply TrimSpace_trimmed|].
  by apply trimmed_nil.
Qed.

End Trimmed.

(** ** Names are last path elements *)

Section NamesMore.

Import filepath Lines.

Lemma lastElement_from_no_slash pre path :
  hasByte slash pre = false →
  hasByte slash (lastElement_from (pre +:+ path) path) = false.
Proof.
  revert pre. induction path as [|c rest IH]; intros pre Hpre.
  - simpl. by rewrite app_empty_r.
  - cbn [lastElement_from]. unfold IsPathSeparator.
    destruct (Ascii.eqb c Separator) eqn:Hc.
    + apply (IH ""). reflexivity.
    + replace (pre +:+ String c rest) with ((pre +:+ String c "") +:+ rest)
        by (by rewrite app_assoc').
      apply IH. rewrite hasByte_app, Hpre. simpl. by rewrite orb_false_r.
Qed.

Lemma Base_no_slash path : hasByte slash (Base path) = false ∨ Base path = "/".
Proof.
  unfold Base. destruct (String.eqb path ""); [by left|].
  destruct (String.eqb_spec (lastElement (stripTrailingSeparators path)) "");
    [by right|].
  left. apply (lastElement_from_no_slash ""). reflexivity.
Qed.

(** X24.  A name of the inventory is a last path element: it contains no
    slash, unless it is the name [/] that a path of slashes resolves to. *)
Theorem parseInstalledPackages_name_no_slash stdout m k r :
  parseInstalledPackages stdout = (Some m, None, None) →
  m !! k = Some r →
  hasByte slash k = false ∨ k = "/".
Proof.
  intros Hm Hk.
  destruct (bufio.scanLines stdout) as [tokens scanErr] eqn:H.
  destruct (parseInstalledPackages_Some _ _ _ _ H Hm) as (_ & _ & ->).
  pose proof (inventory_key _ _ _ Hk) as Hname.
  apply inventory_elem, record_elem in Hk as (b & _ & _ & ->).
  simpl in Hname. subst k. apply Base_no_slash.
Qed.

End NamesMore.

(** ** Two listings one after the other *)

Section Concat.

Import bufio Lines.

Local Abbreviation scanPackages := macos.scanPackages.

Lemma pieces_not_nil input : pieces input ≠ [].
Proof.
  destruct input as [|c rest]; [done|]. simpl.
  destruct (pieces rest); [done|]. by destruct (Ascii.eqb c newline).
Qed.

Lemma pieces_newline a b :
  pieces (a +:+ String newline b) = pieces a ++ pieces b.
Proof.
  induction a as [|c a IH].
  - change ("" +:+ String newline b) with (String newline b). simpl.
    pose proof (pieces_not_nil b). by destruct (pieces b).
  - rewrite app_cons. cbn [pieces]. rewrite IH.
    pose proof (pieces_not_nil a). destruct (pieces a) as [|l ls]; [done|].
    simpl. by destruct (Ascii.eqb c newline).
Qed.

Lemma rawLines_of_app ps qs :
  qs ≠ [] → rawLines_of (ps ++ qs) = ps ++ rawLines_of qs.
Proof.
  intros Hqs. induction ps as [|p ps IH]; [done|].
  rewrite <- !app_comm_cons, <- IH.
  destruct (ps ++ qs) as [|x xs] eqn:Heq.
  - by apply app_eq_nil in Heq as [_ ?].
  - reflexivity.
Qed.

Lemma rawLines_after a b l :
  l ∈ rawLines b → l ∈ rawLines (a +:+ String newline b).
Proof.
  intros Hl. unfold rawLines at 1.
  rewrite pieces_newline, rawLines_of_app by apply pieces_not_nil.
  apply elem_of_app. by right.
Qed.

Lemma rawLines_line s : s ≠ "" → hasByte newline s = false → rawLines s = [s].
Proof.
  intros Hne Hs. unfold rawLines.
  assert (pieces s = [s]) as ->.
  { clear Hne. induction s as [|c s IH]; [done|].
    simpl in Hs. apply orb_false_iff in Hs as [Hc Hs].
    simpl. by rewrite (IH Hs), Hc. }
  simpl. by rewrite (eqb_false _ _ Hne).
Qed.

Lemma pieces_rawLines a :
  ∃ tail, pieces a = rawLines a ++ tail ∧ (tail = [] ∨ tail = [""]).
Proof.
  unfold rawLines. induction (pieces a) as [|l ls IH].
  - exists []. by split; [|left].
  - destruct ls as [|l' ls].
    + simpl. destruct (String.eqb_spec l "") as [->|_].
      * exists [""]. by split; [|right].
      * exists []. by split; [|left].
    + destruct IH as (tail & Heq & Htail). exists tail. split; [|done].
      change (rawLines_of (l :: l' :: ls)) with (l :: rawLines_of (l' :: ls)).
      rewrite <- app_comm_cons. by f_equal.
Qed.

Lemma deliver_app ls1 ls2 tokens1 :
  deliver ls1 = (tokens1, None) →
  deliver (ls1 ++ ls2) = (tokens1 ++ (deliver ls2).1, (deliver ls2).2).
Proof.
  revert tokens1. induction ls1 as [|l ls1 IH]; intros tokens1.
  - simpl. intros [= <-]. by destruct (deliver ls2).
  - cbn [deliver app]. destruct (MaxScanTokenSize <=? len l); [discriminate|].
    destruct (deliver ls1) as [ts e] eqn:Hls1. intros [= <- ->].
    by rewrite (IH ts eq_refl).
Qed.

Lemma deliver_blank ls :
  deliver ("" :: ls) = ("" :: (deliver ls).1, (deliver ls).2).
Proof.
  cbn [deliver]. replace (MaxScanTokenSize <=? len "") with false.
  - by destruct (deliver ls).
  - symmetry. apply Nat.leb_gt. unfold len, MaxScanTokenSize.
    cbn [String.length]. lia.
Qed.

Lemma scanLines_concat a b ta tb :
  scanLines a = (ta, None) → scanLines b = (tb, None) →
  ∃ tail, (tail = [] ∨ tail = [""])
    ∧ scanLines (a +:+ String newline (String newline b))
      = (ta ++ tail ++ "" :: tb, None).
Proof.
  unfold scanLines. intros Ha Hb.
  destruct (pieces_rawLines a) as (tail & Heq & Htail).
  exists tail. split; [exact Htail|].
  unfold rawLines at 1. rewrite pieces_newline.
  change (String newline b) with ("" +:+ String newline b).
  rewrite pieces_newline.
  rewrite rawLines_of_app by (by destruct (pieces b)).
  change (pieces "") with [""].
  pose proof (pieces_not_nil b) as Hnil.
  change (rawLines_of ([""] ++ pieces b))
    with (match pieces b with [] => [] | _ => "" :: rawLines_of (pieces b) end).
  destruct (pieces b) as [|l ls] eqn:Hpb; [done|]. rewrite <- Hpb.
  fold (rawLines b). rewrite Heq, <- app_assoc.
  rewrite (deliver_app _ _ _ Ha).
  destruct Htail as [-> | ->]; simpl app.
  - by rewrite deliver_blank, Hb.
  - by rewrite !deliver_blank, Hb.
Qed.

Lemma store_union pkgs m0 p v : store (pkgs ∪ m0) p v = store pkgs p v ∪ m0.
Proof.
  unfold store. destruct (String.eqb p ""); [done|]. by rewrite insert_union_l.
Qed.

Lemma scanPackage_union m0 pkgs p v t :
  scanPackage (pkgs ∪ m0, p, v) t =
  match scanPackage (pkgs, p, v) t with
  | inl err => inl err
  | inr (pkgs', p', v') => inr (pkgs' ∪ m0, p', v')
  end.
Proof.
  unfold scanPackage. destruct (String.eqb t ""); [by rewrite store_union|].
  destruct (Cut t ":") as [[lhs rhs] ok]. destruct ok; simpl; [|done].
  destruct (String.eqb lhs "Info.plist"); [done|].
  destruct (String.eqb lhs "CFBundleShortVersionString"); [|done].
  by destruct (HasSuffix _ _).
Qed.

Lemma scanPackages_union m0 pkgs p v tokens :
  scanPackages (pkgs ∪ m0, p, v) tokens =
  match scanPackages (pkgs, p, v) tokens with
  | inl err => inl err
  | inr (pkgs', p', v') => inr (pkgs' ∪ m0, p', v')
  end.
Proof.
  revert pkgs p v. induction tokens as [|t tokens IH]; intros pkgs p v; [done|].
  cbn [macos.scanPackages]. rewrite scanPackage_union.
  destruct (scanPackage (pkgs, p, v) t) as [err|[[pkgs' p'] v']]; [done|].
  apply IH.
Qed.

Lemma parseInstalledPackages_inv stdout m :
  parseInstalledPackages stdout = (Some m, None, None) →
  ∃ tokens pkgs p v,
    scanLines stdout = (tokens, None)
    ∧ scanPackages vars0 tokens = inr (pkgs, p, v)
    ∧ m = store pkgs p v.
Proof.
  destruct (scanLines stdout) as [tokens scanErr] eqn:H.
  rewrite (parseInstalledPackages_loop _ _ _ H).
  destruct (scanPackages vars0 tokens) as [err|[[pkgs p] v]] eqn:Hloop;
    [discriminate|].
  destruct scanErr; [discriminate|]. intros [= <-].
  exists tokens, pkgs, p, v. by rewrite Hloop.
Qed.

(** X25.  Two listings that are accepted, put one after the other with a
    blank line between them, are accepted, and give the entries of both; for
    a name that both have, the entry of the second. *)
Theorem parseInstalledPackages_concat stdout1 stdout2 m1 m2 :
  parseInstalledPackages stdout1 = (Some m1, None, None) →
  parseInstalledPackages stdout2 = (Some m2, None, None) →
  parseInstalledPackages (stdout1 +:+ String newline (String newline stdout2))
  = (Some (m2 ∪ m1), None, None).
Proof.
  intros (t1 & pkgs1 & p1 & v1 & H1 & Hloop1 & ->)%parseInstalledPackages_inv.
  intros (t2 & pkgs2 & p2 & v2 & H2 & Hloop2 & ->)%parseInstalledPackages_inv.
  destruct (scanLines_concat _ _ _ _ H1 H2) as (tail & Htail & H).
  rewrite (parseInstalledPackages_loop _ _ _ H).
  rewrite scanPackages_app, Hloop1.
  assert (scanPackages (pkgs1, p1, v1) (tail ++ [""])
          = inr (store pkgs1 p1 v1, "", "")) as Hblank.
  { destruct Htail as [-> | ->]; simpl; [done|]. by rewrite store_nothing. }
  replace (tail ++ "" :: t2) with ((tail ++ [""]) ++ t2) by (by rewrite <- app_assoc).
  rewrite scanPackages_app, Hblank.
  rewrite <- (left_id_L ∅ (∪) (store pkgs1 p1 v1)), scanPackages_union.
  unfold vars0 in Hloop2. rewrite Hloop2.
  by rewrite store_union, !(left_id_L ∅ (∪)).
Qed.

End Concat.

(** ** The formats of the tests, for every value *)

Section PaddedValues.

Import utf8 unicode Lines Formats.

Implicit Types (s a b v : string) (i j k : nat).

Lemma byteAt_app_l a b k : k < len a → byteAt (a +:+ b) k = byteAt a k.
Proof.
  intros Hk. destruct (byteAt_lt a k Hk) as (c & Hc & ->).
  apply byteAt_lookup. rewrite chars_app. by apply lookup_app_l_Some.
Qed.

Lemma byteAt_app_r a b k : byteAt (a +:+ b) (len a + k) = byteAt b k.
Proof.
  unfold byteAt. f_equal. induction a as [|c a IH]; [done|].
  rewrite app_cons. exact IH.
Qed.

Lemma asciiSpace_below c : asciiSpace c = true → (RuneSelf <=? c)%N = false.
Proof.
  intros Hc. destruct (N.leb_spec RuneSelf c) as [Hle|_]; [|done].
  apply asciiSpace_low in Hle. congruence.
Qed.

Lemma blank_byteAt a k : blank a = true → k < len a → asciiSpace (byteAt a k) = true.
Proof.
  unfold blank. intros Ha Hk. destruct (byteAt_lt a k Hk) as (c & Hc & ->).
  apply (proj1 (forallb_forall _ _) Ha). by apply list_elem_of_In, list_elem_of_lookup_2 with k.
Qed.

Lemma plainByte_byte c :
  plainByte c = true →
  (RuneSelf <=? N_of_ascii c)%N = false ∧ asciiSpace (N_of_ascii c) = false.
Proof.
  unfold plainByte. intros [Hlow Hsp]%andb_true_iff. split.
  - apply N.leb_gt. by apply N.ltb_lt.
  - by apply negb_true_iff.
Qed.

Lemma clean_ends v :
  clean v = true →
  0 < len v
  ∧ ((RuneSelf <=? byteAt v 0)%N = false ∧ asciiSpace (byteAt v 0) = false)
  ∧ ((RuneSelf <=? byteAt v (len v - 1))%N = false
     ∧ asciiSpace (byteAt v (len v - 1)) = false).
Proof.
  unfold clean, firstByte, lastByte. rewrite head_lookup, last_lookup, chars_length.
  destruct (chars v !! 0) as [c|] eqn:Hc; [|done].
  destruct (chars v !! pred (len v)) as [d|] eqn:Hd; [|done].
  intros [Hfirst Hlast]%andb_true_iff.
  split; [rewrite <- chars_length; by eapply lookup_lt_Some|].
  rewrite (byteAt_lookup _ _ _ Hc).
  replace (len v - 1) with (pred (len v)) by lia. rewrite (byteAt_lookup _ _ _ Hd).
  split; by apply plainByte_byte.
Qed.

Lemma TrimSpace_start_padded s n1 fuel k :
  (∀ i, k ≤ i → i < n1 → asciiSpace (byteAt s i) = true) →
  n1 < len s →
  (RuneSelf <=? byteAt s n1)%N = false → asciiSpace (byteAt s n1) = false →
  k ≤ n1 → n1 - k < fuel →
  TrimSpace_start fuel s k = Plain n1.
Proof.
  intros Hsp Hlen Hlow Hplain. revert k Hsp.
  induction fuel as [|fuel IH]; intros k Hsp Hk Hfuel; [lia|].
  cbn [TrimSpace_start]. destruct (Nat.leb_spec (len s) k) as [?|_]; [lia|].
  destruct (decide (k = n1)) as [->|Hne].
  - by rewrite Hlow, Hplain.
  - rewrite (asciiSpace_below _ (Hsp k (le_n _) ltac:(lia))), (Hsp k) by lia.
    apply IH; [|lia..]. intros i ? ?. apply Hsp; lia.
Qed.

Lemma TrimSpace_stop_padded s start n2 fuel j :
  (∀ i, n2 ≤ i → i < j → asciiSpace (byteAt s i) = true) →
  start < n2 →
  (RuneSelf <=? byteAt s (n2 - 1))%N = false → asciiSpace (byteAt s (n2 - 1)) = false →
  n2 ≤ j → j - n2 < fuel →
  TrimSpace_stop fuel s start j = Plain n2.
Proof.
  intros Hsp Hstart Hlow Hplain. revert j Hsp.
  induction fuel as [|fuel IH]; intros j Hsp Hj Hfuel; [lia|].
  cbn [TrimSpace_stop]. destruct (Nat.leb_spec j start) as [?|_]; [lia|].
  destruct (decide (j = n2)) as [->|Hne].
  - by rewrite Hlow, Hplain.
  - rewrite (asciiSpace_below _ (Hsp (j - 1) ltac:(lia) ltac:(lia))), (Hsp (j - 1)) by lia.
    apply IH; [|lia..]. intros i ? ?. apply Hsp; lia.
Qed.

(** [TrimSpace] returns a clean value from between ASCII spaces. *)
Lemma TrimSpace_padded a v b :
  blank a = true → clean v = true → blank b = true →
  TrimSpace (a +:+ v +:+ b) = v.
Proof.
  intros Ha Hv Hb. apply clean_ends in Hv as (Hlen & [Hlow0 Hsp0] & [Hlow1 Hsp1]).
  assert (len (a +:+ v +:+ b) = len a + len v + len b) as Hs
    by (rewrite !len_app; lia).
  unfold TrimSpace.
  rewrite (TrimSpace_start_padded _ (len a)); try lia.
  - rewrite (TrimSpace_stop_padded _ _ (len a + len v)); try lia.
    + unfold slice. rewrite sliceFrom_app.
      replace (len a + len v - len a) with (len v) by lia. apply sliceTo_app.
    + intros i Hi Hj. replace i with (len a + (len v + (i - len a - len v))) by lia.
      rewrite !byteAt_app_r. apply blank_byteAt; [done|lia].
    + replace (len a + len v - 1) with (len a + (len v - 1)) by lia.
      rewrite byteAt_app_r, byteAt_app_l by lia. exact Hlow1.
    + replace (len a + len v - 1) with (len a + (len v - 1)) by lia.
      rewrite byteAt_app_r, byteAt_app_l by lia. exact Hsp1.
  - intros i _ Hi. rewrite byteAt_app_l by done. by apply blank_byteAt.
  - rewrite <- (Nat.add_0_r (len a)), byteAt_app_r, byteAt_app_l by lia. exact Hlow0.
  - rewrite <- (Nat.add_0_r (len a)), byteAt_app_r, byteAt_app_l by lia. exact Hsp0.
Qed.

Lemma TrimSpace_after a v :
  blank a = true → clean v = true → TrimSpace (a +:+ v) = v.
Proof.
  intros Ha Hv. rewrite <- (app_empty_r v) at 1. by apply TrimSpace_padded.
Qed.

(** [dropCR] leaves a line that does not end with a carriage return. *)
Lemma dropCR_last s c :
  lastByte s = Some c → N_of_ascii c ≠ 13%N → bufio.dropCR s = s.
Proof.
  unfold lastByte, bufio.dropCR. rewrite last_lookup, chars_length. intros Hc Hne.
  rewrite (byteAt_lookup s (len s - 1) c)
    by (by replace (len s - 1) with (pred (len s)) by lia).
  rewrite (proj2 (N.eqb_neq _ _) Hne). by rewrite andb_false_r.
Qed.

Lemma lastByte_app a b : b ≠ "" → lastByte (a +:+ b) = lastByte b.
Proof.
  intros Hb. unfold lastByte. rewrite chars_app, last_app.
  destruct b as [|c b]; [done|]. simpl chars. rewrite last_cons.
  by destruct (last (chars b)).
Qed.

Lemma dropCR_clean a v : clean v = true → bufio.dropCR (a +:+ v) = a +:+ v.
Proof.
  intros Hv. assert (v ≠ "") as Hne by (by intros ->).
  unfold clean in Hv. destruct (firstByte v); [|done].
  destruct (lastByte v) as [d|] eqn:Hd; [|done].
  apply andb_true_iff in Hv as [_ Hplain].
  apply (dropCR_last _ d); [by rewrite lastByte_app|].
  apply plainByte_byte in Hplain as [_ Hsp]. intros Heq. by rewrite Heq in Hsp.
Qed.

Lemma dropCR_app a b c :
  lastByte a = Some c → N_of_ascii c ≠ 13%N →
  bufio.dropCR (a +:+ b) = a +:+ bufio.dropCR b.
Proof.
  intros Hc Hne. destruct (String.eqb_spec b "") as [->|Hb].
  { change (bufio.dropCR "") with "". rewrite app_empty_r.
    by apply (dropCR_last _ c). }
  assert (0 < len b) as Hlen by (destruct b; [done|simpl; lia]).
  unfold bufio.dropCR. rewrite len_app.
  replace (len a + len b - 1) with (len a + (len b - 1)) by lia.
  rewrite byteAt_app_r.
  replace (0 <? len a + len b) with true by (symmetry; apply Nat.ltb_lt; lia).
  replace (0 <? len b) with true by (symmetry; by apply Nat.ltb_lt).
  destruct (byteAt b (len b - 1) =? 13)%N; [|done]. simpl.
  unfold slice. cbn [sliceFrom]. rewrite !Nat.sub_0_r.
  apply chars_inj. rewrite chars_sliceTo, !chars_app, chars_sliceTo.
  rewrite take_app_add'; [done|]. symmetry. apply chars_length.
Qed.

End PaddedValues.

Section Scanned.

Import bufio.

Local Opaque MaxScanTokenSize.

Lemma pieces_line s : hasByte newline s = false → pieces s = [s].
Proof.
  induction s as [|c s IH]; [done|]. simpl.
  intros [Hc Hs]%orb_false_iff. by rewrite (IH Hs), Hc.
Qed.

Lemma scanLines_cons l rest :
  hasByte newline l = false → len l < MaxScanTokenSize →
  scanLines (l +:+ String newline rest)
  = (dropCR l :: (scanLines rest).1, (scanLines rest).2).
Proof.
  intros Hl Hlen. unfold scanLines, rawLines.
  rewrite pieces_newline, rawLines_of_app by apply pieces_not_nil.
  rewrite (pieces_line _ Hl). cbn [app deliver].
  destruct (Nat.leb_spec MaxScanTokenSize (len l)) as [?|_]; [lia|].
  by destruct (deliver _).
Qed.

Lemma scanLines_line l :
  l ≠ "" → hasByte newline l = false → len l < MaxScanTokenSize →
  scanLines l = ([dropCR l], None).
Proof.
  intros Hne Hl Hlen. unfold scanLines. rewrite (rawLines_line _ Hne Hl).
  cbn [deliver]. by destruct (Nat.leb_spec MaxScanTokenSize (len l)) as [?|_]; [lia|].
Qed.

End Scanned.

Section Report.

Import bufio Lines Formats.

Local Opaque MaxScanTokenSize.

Variables MacOSX MacOSXServer MacOS MacOSServer : string.

Local Abbreviation parseSWVers := (parseSWVers MacOSX MacOSXServer MacOS MacOSServer).
Local Abbreviation productFamilies := (productFamilies MacOSX MacOSXServer MacOS MacOSServer).

Lemma productNames_fit name :
  name ∈ productNames → fits 14 name.
Proof.
  unfold productNames. rewrite !elem_of_cons, elem_of_nil.
  intros [->|[->|[->|[->|[]]]]]; (split; [reflexivity|]); (split; [reflexivity|]);
    apply Nat.ltb_lt; vm_compute; reflexivity.
Qed.

(** X27.  The cases of [Test_parseSWVers] that pass, for every version and
    build: from a report in the format of the test, with one of the four
    product names, a version that begins and ends with bytes of ASCII that
    are no spaces, and no over-long line, [parseSWVers] returns the family of
    the name and the version. *)
Theorem parseSWVers_report (name family version build : string) :
  (name, family) ∈ productFamilies →
  fits 17 version →
  hasByte newline build = false →
  15 + len build < MaxScanTokenSize →
  parseSWVers (sw_vers name version build) = (family, version, None).
Proof.
  intros Hname (Hclean & Hnl & Hlen) Hbuild Hblen.
  assert (fits 14 name) as (Hnclean & Hnnl & Hnlen).
  { apply productNames_fit. unfold Spec.productFamilies in Hname.
    unfold productNames. rewrite !elem_of_cons, elem_of_nil in Hname.
    rewrite !elem_of_cons.
    destruct Hname as [[= -> _]|[[= -> _]|[[= -> _]|[[= -> _]|[]]]]]; tauto. }
  set (l1 := ("ProductName:" +:+ tab +:+ tab) +:+ name).
  set (l2 := ("ProductVersion:" +:+ tab +:+ tab) +:+ version).
  set (l3 := ("BuildVersion:" +:+ tab +:+ tab) +:+ build).
  assert (scanLines (sw_vers name version build)
          = ([l1; l2; ("BuildVersion:" +:+ tab +:+ tab) +:+ dropCR build], None))
    as Hscan.
  { change (sw_vers name version build)
      with (l1 +:+ String newline (l2 +:+ String newline l3)).
    rewrite scanLines_cons, scanLines_cons, scanLines_line; cycle 1.
    - discriminate.
    - unfold l3. by rewrite hasByte_app.
    - unfold l3. rewrite len_app. change (len ("BuildVersion:" +:+ tab +:+ tab)) with 15.
      exact Hblen.
    - unfold l2. by rewrite hasByte_app.
    - unfold l2. rewrite len_app. change (len ("ProductVersion:" +:+ tab +:+ tab)) with 17.
      exact Hlen.
    - unfold l1. by rewrite hasByte_app.
    - unfold l1. rewrite len_app. change (len ("ProductName:" +:+ tab +:+ tab)) with 14.
      exact Hnlen.
    - cbn [fst snd]. unfold l1, l2, l3.
      rewrite (dropCR_clean _ _ Hnclean), (dropCR_clean _ _ Hclean).
      by rewrite (dropCR_app _ build "009"%char). }
  unfold macos.parseSWVers. rewrite Hscan. cbn [foldl]. unfold scanSWVers.
  change (HasPrefix l1 "ProductName:") with true.
  change (TrimPrefix l1 "ProductName:") with ((tab +:+ tab) +:+ name).
  change (HasPrefix l2 "ProductName:") with false.
  change (HasPrefix l2 "ProductVersion:") with true.
  change (TrimPrefix l2 "ProductVersion:") with ((tab +:+ tab) +:+ version).
  change (HasPrefix (("BuildVersion:" +:+ tab +:+ tab) +:+ dropCR build) "ProductName:")
    with false.
  change (HasPrefix (("BuildVersion:" +:+ tab +:+ tab) +:+ dropCR build) "ProductVersion:")
    with false.
  cbv iota.
  rewrite (TrimSpace_after (tab +:+ tab) name eq_refl Hnclean).
  rewrite (TrimSpace_after (tab +:+ tab) version eq_refl Hclean).
  rewrite (switchName_family _ _ _ _ _ _ Hname).
  assert (version ≠ "") as Hne by (by intros ->).
  by rewrite (eqb_false _ _ Hne).
Qed.

End Report.

Section Listing.

Import bufio Lines Formats.

Local Opaque MaxScanTokenSize.

Local Abbreviation scanPackages := macos.scanPackages.

Lemma concat_loop a b ta tb pkgs1 p1 v1 pkgs2 p2 v2 :
  scanLines a = (ta, None) → scanPackages vars0 ta = inr (pkgs1, p1, v1) →
  scanLines b = (tb, None) → scanPackages vars0 tb = inr (pkgs2, p2, v2) →
  parseInstalledPackages (a +:+ String newline (String newline b))
  = (Some (store pkgs2 p2 v2 ∪ store pkgs1 p1 v1), None, None).
Proof.
  intros H1 Hloop1 H2 Hloop2.
  destruct (scanLines_concat _ _ _ _ H1 H2) as (tail & Htail & H).
  rewrite (parseInstalledPackages_loop _ _ _ H).
  rewrite scanPackages_app, Hloop1.
  assert (scanPackages (pkgs1, p1, v1) (tail ++ [""])
          = inr (store pkgs1 p1 v1, "", "")) as Hblank.
  { destruct Htail as [-> | ->]; simpl; [done|]. by rewrite store_nothing. }
  replace (tail ++ "" :: tb) with ((tail ++ [""]) ++ tb) by (by rewrite <- app_assoc).
  rewrite scanPackages_app, Hblank.
  rewrite <- (left_id_L ∅ (∪) (store pkgs1 p1 v1)), scanPackages_union.
  unfold vars0 in Hloop2. rewrite Hloop2.
  by rewrite store_union, !(left_id_L ∅ (∪)).
Qed.

Lemma block_parsed path version :
  fits 12 path → fits 29 version →
  parseInstalledPackages (block path version)
  = (Some {[derivedName path :=
              {| Name := derivedName path; Version := noValue version |}]},
     None, None).
Proof.
  intros (Hpclean & Hpnl & Hplen) (Hvclean & Hvnl & Hvlen).
  set (lp := "Info.plist:" +:+ " " +:+ path).
  set (lv := "CFBundleShortVersionString:" +:+ " " +:+ version +:+ tab).
  assert (scanLines (block path version) = ([lp; lv], None)) as Hscan.
  { change (block path version) with (lp +:+ String newline lv).
    rewrite scanLines_cons, scanLines_line; cycle 1.
    - discriminate.
    - unfold lv. rewrite !hasByte_app, Hvnl. reflexivity.
    - unfold lv. rewrite !len_app.
      change (len "CFBundleShortVersionString:") with 27. change (len " ") with 1.
      change (len tab) with 1. lia.
    - unfold lp. rewrite !hasByte_app, Hpnl. reflexivity.
    - unfold lp. rewrite !len_app.
      change (len "Info.plist:") with 11. change (len " ") with 1. lia.
    - cbn [fst snd]. unfold lp, lv.
      replace ("Info.plist:" +:+ " " +:+ path) with (("Info.plist:" +:+ " ") +:+ path)
        by reflexivity.
      rewrite (dropCR_clean _ _ Hpclean).
      replace ("CFBundleShortVersionString:" +:+ " " +:+ version +:+ tab)
        with (("CFBundleShortVersionString:" +:+ " " +:+ version) +:+ tab)
        by (by rewrite !app_assoc').
      rewrite (dropCR_last _ "009"%char); [by rewrite !app_assoc'| |done].
      by rewrite lastByte_app. }
  rewrite (parseInstalledPackages_loop _ _ _ Hscan).
  assert (labelled pathLabel lp = true) as Hlp by reflexivity.
  assert (labelled versionLabel lv = true) as Hlv by reflexivity.
  cbn [macos.scanPackages]. unfold vars0.
  rewrite (scanPackage_path _ _ _ _ Hlp), (scanPackage_version _ _ _ _ Hlv).
  change (valueOf lp) with (" " +:+ path).
  change (valueOf lv) with (" " +:+ version +:+ tab).
  rewrite (TrimSpace_after " " path eq_refl Hpclean).
  rewrite (TrimSpace_padded " " version tab eq_refl Hvclean eq_refl).
  assert (path ≠ "") as Hne by (by intros ->).
  by rewrite (store_pending _ _ _ Hne).
Qed.

Lemma filed_cons b bundles : filed (b :: bundles) = filed bundles ∪ filed [b].
Proof.
  unfold filed. cbn [foldl]. generalize (∅ : gmap string Package) at 1 3 as m0.
  induction bundles as [|b' bundles IH] using rev_ind; intros m0.
  - cbn [foldl]. by rewrite (left_id_L ∅ (∪)).
  - rewrite !foldl_app. cbn [foldl]. by rewrite IH, insert_union_l.
Qed.

(** X28.  [Test_macos_parseInstalledPackages] for every list of bundles:
    from a listing in the format of the test (a path line and a version line
    ended by a tab for each bundle, a blank line between two bundles), with
    paths and versions that begin and end with bytes of ASCII that are no
    spaces and no over-long line, [parseInstalledPackages] returns the
    records of the bundles, filed in their order under the names derived
    from the paths; a version with the no-value suffix is recorded as
    empty. *)
Theorem parseInstalledPackages_listing (bundles : list (string * string)) :
  Forall (λ b, fits 12 b.1 ∧ fits 29 b.2) bundles →
  parseInstalledPackages (listing bundles) = (Some (filed bundles), None, None).
Proof.
  induction 1 as [|[path version] bundles [Hpath Hversion] Hrest IH].
  - vm_compute. reflexivity.
  - pose proof (block_parsed path version Hpath Hversion) as Hblock.
    destruct bundles as [|b' bundles]; [exact Hblock|].
    rewrite filed_cons.
    change (listing ((path, version) :: b' :: bundles))
      with (block path version +:+ String newline (String newline (listing (b' :: bundles)))).
    apply parseInstalledPackages_inv in Hblock as (t1 & pkgs1 & p1 & v1 & H1 & Hl1 & Hm1).
    apply parseInstalledPackages_inv in IH as (t2 & pkgs2 & p2 & v2 & H2 & Hl2 & Hm2).
    rewrite (concat_loop _ _ _ _ _ _ _ _ _ _ H1 Hl1 H2 Hl2).
    rewrite <- Hm1, <- Hm2. reflexivity.
Qed.

End Listing.

(** ** The further properties on the sample texts and hosts *)

Import Lines MoreSamples HostSamples.

Lemma parseSWVers_succeeds_iff_witness :
  parseSWVers "macos_x" "macos_x_server" "macos" "macos_server"
    (sw_vers "macOS Server" "13.4.1" "22F82")
  = ("macos_server", "13.4.1", None).
Proof.
  apply (parseSWVers_succeeds_iff _ _ _ _ _
           (bufio.textLines (sw_vers "macOS Server" "13.4.1" "22F82")) None).
  - vm_compute. reflexivity.
  - split; [reflexivity|]. split; [|split].
    + apply (list_elem_of_lookup_2 _ 3). reflexivity.
    + vm_compute. reflexivity.
    + discriminate.
Defined.

Lemma parseSWVers_all_or_nothing_witness :
  "13.4.1" ≠ ""
  ∧ "macos" ∈ ["macos_x"; "macos_x_server"; "macos"; "macos_server"].
Proof.
  apply (parseSWVers_all_or_nothing "macos_x" "macos_x_server" "macos" "macos_server"
           (sw_vers "macOS" "13.4.1" "22F82") "macos" "13.4.1" None).
  vm_compute. reflexivity.
Defined.

Lemma parseSWVers_too_long_witness :
  parseSWVers "macos_x" "macos_x_server" "macos" "macos_server"
    (sw_vers_long "macOS" "13.4.1" "22F82")
  = ("", "", Some (FailedToScan bufio.ErrTooLong)).
Proof.
  apply (parseSWVers_too_long _ _ _ _ _ longLine).
  - apply (rawLines_after _ longLine). rewrite rawLines_line.
    + by apply list_elem_of_singleton.
    + discriminate.
    + vm_compute. reflexivity.
  - apply Nat.leb_le. vm_compute. reflexivity.
Defined.

Lemma parseSWVers_last_lines_witness :
  parseSWVers "macos_x" "macos_x_server" "macos" "macos_server"
    (sw_vers "macOS" "13.4.1" "22F82")
  = parseSWVers "macos_x" "macos_x_server" "macos" "macos_server" shuffled.
Proof.
  apply (parseSWVers_last_lines _ _ _ _ _ _
           (bufio.textLines (sw_vers "macOS" "13.4.1" "22F82"))
           (bufio.textLines shuffled) None).
  - vm_compute. reflexivity.
  - vm_compute. reflexivity.
  - vm_compute. reflexivity.
  - vm_compute. reflexivity.
Defined.

Lemma parseSWVers_missing_key_witness :
  parseSWVers "macos_x" "macos_x_server" "macos" "macos_server" buildOnly
  = ("", "", Some (UnexpectedProductName "")).
Proof.
  destruct (parseSWVers_missing_key "macos_x" "macos_x_server" "macos" "macos_server"
              buildOnly [buildOnly]) as [H _].
  - vm_compute. reflexivity.
  - apply H. repeat constructor.
Defined.

Lemma parseInstalledPackages_succeeds_iff_witness :
  parseInstalledPackages happy
  = (Some (inventory (records (bufio.textLines happy))), None, None).
Proof.
  destruct (parseInstalledPackages_succeeds_iff happy (bufio.textLines happy) None)
    as [H _].
  - vm_compute. reflexivity.
  - apply H. split; [reflexivity|]. split; [|reflexivity].
    apply Forall_forall. intros u Hu. apply list_elem_of_In in Hu.
    vm_compute in Hu. vm_compute. intuition (subst; reflexivity).
Defined.

Lemma parseInstalledPackages_names_witness :
  Name (safari "16.5.1") = "Safari"
  ∧ "Safari" ≠ ""
  ∧ ∃ t, t ∈ bufio.textLines happy
      ∧ labelled pathLabel t = true
      ∧ TrimSpace (valueOf t) ≠ ""
      ∧ "Safari" = filepath.Base (TrimSuffix (TrimSpace (valueOf t))
                                    ".app/Contents/Info.plist").
Proof.
  apply (parseInstalledPackages_names happy (bufio.textLines happy) None
           happyInventory "Safari" (safari "16.5.1")).
  - vm_compute. reflexivity.
  - vm_compute. reflexivity.
  - vm_compute. reflexivity.
Defined.

Lemma parseInstalledPackages_versions_witness :
  HasSuffix "16.5.1" noValueSuffix = false
  ∧ ("16.5.1" ≠ "" →
     ∃ t, t ∈ bufio.textLines happy
       ∧ labelled versionLabel t = true
       ∧ "16.5.1" = TrimSpace (valueOf t)).
Proof.
  apply (parseInstalledPackages_versions happy (bufio.textLines happy) None
           happyInventory "Safari" (safari "16.5.1")).
  - vm_compute. reflexivity.
  - vm_compute. reflexivity.
  - vm_compute. reflexivity.
Defined.

Lemma block_last_lines_witness :
  parseInstalledPackages safariBlock = parseInstalledPackages safariMixed.
Proof.
  apply (block_last_lines safariBlock safariMixed []
           (bufio.textLines safariBlock) (bufio.textLines safariMixed) [] None).
  - vm_compute. reflexivity.
  - vm_compute. reflexivity.
  - repeat constructor.
  - repeat constructor.
  - vm_compute. reflexivity.
  - vm_compute. reflexivity.
Defined.

Lemma redundant_blank_line_witness :
  parseInstalledPackages (nl +:+ twice) = parseInstalledPackages twice.
Proof.
  apply (redundant_blank_line (nl +:+ twice) twice [] (bufio.textLines twice) None).
  - vm_compute. reflexivity.
  - vm_compute. reflexivity.
  - left. reflexivity.
Defined.

Lemma block_without_path_dropped_witness :
  parseInstalledPackages versionOnly = parseInstalledPackages (nl +:+ pathOnly).
Proof.
  apply (block_without_path_dropped versionOnly (nl +:+ pathOnly) []
           ["CFBundleShortVersionString: 9.9"] [""; pathOnly] None).
  - vm_compute. reflexivity.
  - vm_compute. reflexivity.
  - left. reflexivity.
  - right. reflexivity.
  - repeat constructor.
Defined.


Lemma parseInstalledPackages_keeps_witness :
  is_Some (happyInventory !! "Visual Studio Code").
Proof.
  apply (parseInstalledPackages_keeps happy (take 3 (bufio.textLines happy))
           (drop 3 (bufio.textLines happy)) None
           {["Visual Studio Code" := Build_Package "Visual Studio Code" "1.80.1"]}
           "" "").
  - vm_compute. reflexivity.
  - vm_compute. reflexivity.
  - vm_compute. reflexivity.
  - eexists. vm_compute. reflexivity.
Defined.

Lemma parseInstalledPackages_size_witness :
  size ({["Safari" := safari "17.0"]} : gmap string Package)
  ≤ length (filter (λ t, labelled pathLabel t = true) (bufio.textLines twice)).
Proof.
  apply (parseInstalledPackages_size twice (bufio.textLines twice) None).
  - vm_compute. reflexivity.
  - vm_compute. reflexivity.
Defined.

(** On the host [mac] the scan succeeds though [plutil] fails on the second
    bundle; on the host [other], where [find] fails, it fails. *)
Lemma scanInstalledPackages_outcomes_witness :
  (∃ m h', scanner.scanInstalledPackages result ok out (list string) (exec mac)
             string [] = (Some m, None, h'))
  ∧ scanner.scanInstalledPackages result ok out (list string) (exec other)
      string []
    = (None, Some (scanner.FailedToExec {| ok := false; out := "" |}),
       [scanner.findCommand]).
Proof.
  split.
  - destruct (scanInstalledPackages_outcomes result ok out (list string) (exec mac)
                string [] (mac scanner.findCommand) [scanner.findCommand])
      as (_ & _ & H).
    + reflexivity.
    + apply H; [reflexivity|].
      apply scanLines_error_iff. vm_compute. reflexivity.
  - destruct (scanInstalledPackages_outcomes result ok out (list string) (exec other)
                string [] (other scanner.findCommand) [scanner.findCommand])
      as (H & _).
    + reflexivity.
    + apply H. reflexivity.
Defined.

Lemma scanInstalledPackages_names_witness :
  (Name (safari "16.5.1") = "Safari" ∧ "Safari" ≠ "")
  ∧ is_Some (({["." := Build_Package "." ""; "Safari" := safari "16.5.1"]}
                : gmap string Package) !! ".").
Proof.
  split.
  - destruct (scanInstalledPackages_names result ok out (list string) (exec mac)
                string [] (mac scanner.findCommand) [scanner.findCommand]
                {["Notes" := Build_Package "Notes" ""; "Safari" := safari "16.5.1"]}
                [scanner.findCommand; scanner.plutilCommand safariPath;
                 scanner.plutilCommand notesPath])
      as (_ & H & _).
    + reflexivity.
    + vm_compute. reflexivity.
    + apply (H "Safari"). vm_compute. reflexivity.
  - destruct (scanInstalledPackages_names result ok out (list string) (exec blankMac)
                string [] (blankMac scanner.findCommand) [scanner.findCommand]
                {["." := Build_Package "." ""; "Safari" := safari "16.5.1"]}
                [scanner.findCommand; scanner.plutilCommand safariPath;
                 scanner.plutilCommand ""])
      as (_ & _ & H).
    + reflexivity.
    + vm_compute. reflexivity.
    + apply H. apply (list_elem_of_lookup_2 _ 1). vm_compute. reflexivity.
Defined.

Lemma scanInstalledPackages_last_write_wins_witness :
  ∃ m h', scanner.scanInstalledPackages result ok out (list string) (exec mac)
            string [] = (Some m, None, h')
    ∧ m !! "Notes" = Some (Build_Package "Notes" "").
Proof.
  apply (scanInstalledPackages_last_write_wins result ok out (list string) (exec mac)
           string [] (mac scanner.findCommand) [scanner.findCommand]
           [safariPath] notesPath []
           {["Safari" := safari "16.5.1"]}
           [scanner.findCommand; scanner.plutilCommand safariPath]
           {| ok := false; out := "" |}
           [scanner.findCommand; scanner.plutilCommand safariPath;
            scanner.plutilCommand notesPath]).
  - reflexivity.
  - reflexivity.
  - vm_compute. reflexivity.
  - vm_compute. reflexivity.
  - vm_compute. reflexivity.
  - intros u Hu. by apply elem_of_nil in Hu.
Defined.

Lemma scanInstalledPackages_commands_witness :
  (scanner.scanInstalledPackages result ok out (list string) (exec mac) string []).2
  = [scanner.findCommand; scanner.plutilCommand safariPath;
     scanner.plutilCommand notesPath]
  ∧ (scanner.scanInstalledPackages result ok out (list string) (exec oddMac) string [])
    = (None, Some (scanner.FailedToScan bufio.ErrTooLong),
       [scanner.findCommand; scanner.plutilCommand safariPath]).
Proof.
  split.
  - rewrite (scanInstalledPackages_commands result ok out (list string) (exec mac)
               string [] (mac scanner.findCommand) [scanner.findCommand] eq_refl).
    vm_compute. reflexivity.
  - vm_compute. reflexivity.
Defined.

Lemma detectMacOS_outcomes_witness :
  scanner.detectMacOS result ok out (list string) (exec mac) string unit
    "macos_x" "macos_x_server" "macos" "macos_server" () []
  = (true, Some (scanner.newMacOS_setDistro () "macos" "13.4.1"), ["sw_vers"])
  ∧ scanner.detectMacOS result ok out (list string) (exec other) string unit
      "macos_x" "macos_x_server" "macos" "macos_server" () []
    = (false, None, ["sw_vers"]).
Proof.
  split.
  - destruct (detectMacOS_outcomes result ok out (list string) (exec mac) string unit
                "macos_x" "macos_x_server" "macos" "macos_server" () []
                (mac "sw_vers") ["sw_vers"]) as [_ H].
    + reflexivity.
    + destruct H as [(family & version & Hparse & _ & _ & H)|(err & Hparse & _)].
      * reflexivity.
      * rewrite H. vm_compute in Hparse. by injection Hparse as <- <-.
      * vm_compute in Hparse. discriminate.
  - destruct (detectMacOS_outcomes result ok out (list string) (exec other) string unit
                "macos_x" "macos_x_server" "macos" "macos_server" () []
                (other "sw_vers") ["sw_vers"]) as [H _].
    + reflexivity.
    + apply H. reflexivity.
Defined.

Lemma preCure_outcomes_witness :
  ∃ o', scanner.preCure result ok out (list string) (exec other) string
          parseIfconfig unit o0 [] = (o', None, ["/sbin/ifconfig"])
    ∧ scanner.Packages o' = Some ∅
    ∧ scanner.kernel o' = {| scanner.Release := ""; scanner.Version := "" |}
    ∧ scanner.IPv4Addrs o' = []
    ∧ scanner.IPv6Addrs o' = []
    ∧ scanner.warns o' = [scanner.FailedToDetectIPAddress {| ok := false; out := "" |}]
    ∧ scanner.log o' =
      [scanner.Warnf_DetectIPAddresses
         (scanner.FailedToDetectIPAddress {| ok := false; out := "" |})].
Proof.
  apply (preCure_outcomes result ok out (list string) (exec other) string
           parseIfconfig unit o0 [] (other "/sbin/ifconfig") ["/sbin/ifconfig"]).
  reflexivity.
Defined.

Lemma detectIPAddr_error_witness :
  ∃ r, exec other "/sbin/ifconfig" [] = (r, ["/sbin/ifconfig"])
    ∧ ok r = false
    ∧ scanner.FailedToDetectIPAddress (kernelError := string) {| ok := false; out := "" |}
      = scanner.FailedToDetectIPAddress r
    ∧ o0 = o0.
Proof.
  apply (detectIPAddr_error result ok out (list string) (exec other) string
           parseIfconfig unit o0 [] o0
           (scanner.FailedToDetectIPAddress {| ok := false; out := "" |})
           ["/sbin/ifconfig"]).
  reflexivity.
Defined.

Lemma scanPackages_outcomes_witness :
  let o' := (scanner.scanPackages result ok out (list string) (exec mac) string
               runningKernel unit o0 []).1.1 in
  scanner.kernel o' =
    {| scanner.Release := "22.5.0"; scanner.Version := "Darwin Kernel Version 22.5.0" |}
  ∧ ∃ m, scanner.scanInstalledPackages result ok out (list string) (exec mac) string
           ["uname -r"; "uname -v"]
         = (Some m, None,
            ["uname -r"; "uname -v"; scanner.findCommand;
             scanner.plutilCommand safariPath; scanner.plutilCommand notesPath])
      ∧ scanner.Packages o' = Some m.
Proof.
  intros o'.
  apply (scanPackages_outcomes result ok out (list string) (exec mac) string
           runningKernel unit o0 [] "22.5.0" "Darwin Kernel Version 22.5.0" None
           ["uname -r"; "uname -v"] o' None).
  - reflexivity.
  - vm_compute. reflexivity.
Defined.

Lemma parseSWVers_version_trimmed_witness : trimmed "13.4.1" = true.
Proof.
  apply (parseSWVers_version_trimmed "macos_x" "macos_x_server" "macos" "macos_server"
           (sw_vers "macOS" "13.4.1" "22F82") "macos").
  vm_compute. reflexivity.
Defined.

Lemma parseInstalledPackages_version_trimmed_witness :
  trimmed (Version (Build_Package "Slack" "4.33.73")) = true.
Proof.
  apply (parseInstalledPackages_version_trimmed happy happyInventory "Slack").
  - vm_compute. reflexivity.
  - vm_compute. reflexivity.
Defined.

Lemma parseInstalledPackages_name_no_slash_witness :
  hasByte slash "Firefox" = false ∨ "Firefox" = "/".
Proof.
  apply (parseInstalledPackages_name_no_slash happy happyInventory "Firefox"
           (Build_Package "Firefox" "115.0.2")).
  - vm_compute. reflexivity.
  - vm_compute. reflexivity.
Defined.

Lemma parseInstalledPackages_concat_witness :
  parseInstalledPackages (twice +:+ nl +:+ nl +:+ pathOnly)
  = (Some ({["Safari" := safari ""]} ∪ {["Safari" := safari "17.0"]}), None, None).
Proof.
  apply (parseInstalledPackages_concat twice pathOnly).
  - vm_compute. reflexivity.
  - vm_compute. reflexivity.
Defined.

Import Formats.

Lemma parseSWVers_report_witness :
  parseSWVers "macos_x" "macos_x_server" "macos" "macos_server"
    (sw_vers "Mac OS X" "10.3" "7A100") = ("macos_x", "10.3", None).
Proof.
  apply parseSWVers_report.
  - apply (list_elem_of_lookup_2 _ 0). reflexivity.
  - split; [reflexivity|]. split; [reflexivity|].
    apply Nat.ltb_lt. vm_compute. reflexivity.
  - reflexivity.
  - apply Nat.ltb_lt. vm_compute. reflexivity.
Defined.

Lemma parseInstalledPackages_listing_witness :
  parseInstalledPackages happy = (Some (filed happyBundles), None, None)
  ∧ filed happyBundles = happyInventory.
Proof.
  split; [|vm_compute; reflexivity].
  apply (parseInstalledPackages_listing happyBundles).
  apply Forall_forall. intros b Hb.
  unfold happyBundles in Hb. rewrite !elem_of_cons, elem_of_nil in Hb.
  destruct Hb as [->|[->|[->|[->|[->|[]]]]]];
    (split; (split; [reflexivity|]; split; [reflexivity|];
             apply Nat.ltb_lt; vm_compute; reflexivity)).
Defined.
